(** * Type-definition generator of shaka-player: externs parser, node tree
    and declaration emitter.

    The development embeds three source files:
    - [build/typescript/parseExterns.ts]  (module [ParseExterns]),
    - [build/typescript/treeUtils.ts]     (module [TreeUtils]),
    - the declaration emitter (classes [AbstractWriter], [StringWriter],
      [StreamWriter] and the [write*Node] functions; module [Emitter]).

    The embedding comes first, then the vocabulary of the properties
    (predicates in the words of the specification, example inputs), then
    the properties themselves.

    JavaScript values are modelled as follows.  Strings are [string]
    (sequences of bytes).  A value that may be [undefined] or [null] is an
    [option].  An exception is the [Throw] outcome of [result]; in the
    emitter, which mutates a writer, the state reached before the exception
    is kept.  A JS [Map] or plain object used as a dictionary is an
    insertion-ordered association list ([Dict]).  The node tree built by
    [treeUtils.ts] is mutated through references, so it lives in an explicit
    store of map objects and node objects. *)

From stdpp Require Import gmap strings list pretty.
From Stdlib Require Import ZArith Ascii String.

Set Warnings "-register-all".

Local Open Scope string_scope.
Local Open Scope list_scope.
Local Open Scope Z_scope.

(** ** JavaScript prelude *)

Module JS.

Inductive Error : Type :=
| TypeError (msg : string)
| RangeError (msg : string)
| AssertionError (msg : string)
| PlainError (msg : string).

Inductive result (A : Type) : Type :=
| Ok (a : A)
| Throw (e : Error).
Arguments Ok {A} a.
Arguments Throw {A} e.

Definition rbind {A B} (m : result A) (k : A → result B) : result B :=
  match m with
  | Ok a => k a
  | Throw e => Throw e
  end.

Fixpoint rmap {A B} (f : A → result B) (l : list A) : result (list B) :=
  match l with
  | [] => Ok []
  | x :: l' =>
      rbind (f x) (fun y => rbind (rmap f l') (fun ys => Ok (y :: ys)))
  end.

(** Modelled from the spec: [./assert] is not among the sources.
    [assert(cond, msg)] throws when the condition is falsy. *)
Definition assert (cond : bool) (msg : string) : result unit :=
  if cond then Ok tt else Throw (AssertionError msg).

(** Truthiness of a possibly-null string: present and non-empty. *)
Definition truthy_string (s : option string) : bool :=
  match s with
  | Some (String _ _) => true
  | _ => false
  end.

(** [String.prototype.repeat]: a negative count is a [RangeError]. *)
Fixpoint repeat_string (s : string) (n : nat) : string :=
  match n with
  | O => ""
  | S n' => s +:+ repeat_string s n'
  end.

Definition repeat (s : string) (count : Z) : result string :=
  if count <? 0 then Throw (RangeError "Invalid count value")
  else Ok (repeat_string s (Z.to_nat count)).

(** [s.split(sep)] for a one-character separator. *)
Fixpoint split (sep : ascii) (s : string) : list string :=
  match s with
  | EmptyString => [""]
  | String c s' =>
      if Ascii.eqb c sep then "" :: split sep s'
      else match split sep s' with
           | [] => [String c ""]
           | w :: ws => String c w :: ws
           end
  end.

(** One-byte white space and line terminators removed by [trim]. *)
Definition is_space (c : ascii) : bool :=
  match N_of_ascii c with
  | 9%N | 10%N | 11%N | 12%N | 13%N | 32%N => true
  | _ => false
  end.

Fixpoint trimStart (s : string) : string :=
  match s with
  | EmptyString => ""
  | String c s' => if is_space c then trimStart s' else s
  end.

Fixpoint trimEnd (s : string) : string :=
  match s with
  | EmptyString => ""
  | String c s' =>
      match trimEnd s' with
      | EmptyString => if is_space c then "" else String c ""
      | t => String c t
      end
  end.

Definition trim (s : string) : string := trimEnd (trimStart s).

(** [xs.join(sep)] *)
Definition join (sep : string) (xs : list string) : string :=
  String.concat sep xs.

(** Insertion-ordered dictionary: a JS [Map], or a plain object with
    string keys.  [dict_set] on a present key replaces the value in
    place, on an absent key appends the entry. *)
Definition Dict (V : Type) : Type := list (string * V).

Fixpoint dict_get {V} (d : Dict V) (k : string) : option V :=
  match d with
  | [] => None
  | (k', v) :: d' => if String.eqb k' k then Some v else dict_get d' k
  end.

Definition dict_has {V} (d : Dict V) (k : string) : bool :=
  match dict_get d k with Some _ => true | None => false end.

Fixpoint dict_set {V} (d : Dict V) (k : string) (v : V) : Dict V :=
  match d with
  | [] => [(k, v)]
  | (k', v') :: d' =>
      if String.eqb k' k then (k, v) :: d' else (k', v') :: dict_set d' k v
  end.

Definition dict_values {V} (d : Dict V) : list V := map snd d.

(** Code that mutates a state [S] and may throw: the state reached when
    the exception is raised is kept, as mutations are not rolled back. *)
Definition Eff (S A : Type) : Type := S → result A * S.

Definition eret {S A} (a : A) : Eff S A := fun s => (Ok a, s).

Definition ethrow {S A} (e : Error) : Eff S A := fun s => (Throw e, s).

Definition ebind {S A B} (m : Eff S A) (k : A → Eff S B) : Eff S B :=
  fun s =>
    match m s with
    | (Ok a, s') => k a s'
    | (Throw e, s') => (Throw e, s')
    end.

Definition eget {S} : Eff S S := fun s => (Ok s, s).

Definition emodify {S} (f : S → S) : Eff S unit := fun s => (Ok tt, f s).

(** Lifting of a pure computation that may throw. *)
Definition elift {S A} (r : result A) : Eff S A := fun s => (r, s).

Section Loops.
Context {S A Acc : Type}.

(** [for (const x of xs) { body }] *)
Fixpoint forEach (body : A → Eff S unit) (xs : list A) : Eff S unit :=
  match xs with
  | [] => eret tt
  | x :: xs' => ebind (body x) (fun _ => forEach body xs')
  end.

(** A loop that updates local variables [acc] on each iteration. *)
Fixpoint forEachAcc (body : Acc → A → Eff S Acc) (acc : Acc) (xs : list A)
  : Eff S Acc :=
  match xs with
  | [] => eret acc
  | x :: xs' => ebind (body acc x) (fun acc' => forEachAcc body acc' xs')
  end.

End Loops.

End JS.

Import JS.

Declare Scope result_scope.
Delimit Scope result_scope with result.
Notation "'let*' x ':=' m 'in' k" := (rbind m (fun x => k))
  (at level 10, x name, m at level 100, k at level 200) : result_scope.
Notation "'let*' ' p ':=' m 'in' k" :=
  (rbind m (fun x => match x with p => k end))
  (at level 10, p pattern, m at level 100, k at level 200) : result_scope.
Notation "'run' m 'in' k" := (rbind m (fun _ => k))
  (at level 10, m at level 100, k at level 200) : result_scope.

Declare Scope eff_scope.
Delimit Scope eff_scope with eff.
Notation "'let*' x ':=' m 'in' k" := (ebind m (fun x => k))
  (at level 10, x name, m at level 100, k at level 200) : eff_scope.
Notation "'let*' ' p ':=' m 'in' k" :=
  (ebind m (fun x => match x with p => k end))
  (at level 10, p pattern, m at level 100, k at level 200) : eff_scope.
Notation "'run' m 'in' k" := (ebind m (fun _ => k))
  (at level 10, m at level 100, k at level 200) : eff_scope.

(** ** Shared data model ([base.ts]) *)

Module Base.

(** Parsed type expression produced by the doctrine tag parser. *)
Inductive DType : Type :=
| NameExpression (name : string)
| AllLiteral
| NullLiteral
| UndefinedLiteral
| VoidLiteral
| UnionType (elements : list DType)
| ArrayType (elements : list DType)
| TypeApplication (expression : DType) (applications : list DType)
| FunctionType (params : list DType) (result : option DType)
| OptionalType (expression : DType)
| NullableType (expression : DType)
| NonNullableType (expression : DType)
| RestType (expression : DType).

(** Modelled from the spec: [base.ts] is not among the sources.  The
    structural kinds of a definition, with the string discriminators the
    emitter switches on. *)
Inductive DefinitionType : Type :=
| DT_Function | DT_Class | DT_Object | DT_Property.

(** Modelled from the spec: [base.ts] is not among the sources.  The
    classification a doc comment can attach. *)
Inductive AnnotationType : Type :=
| AT_Typedef | AT_Const | AT_Property | AT_Class | AT_Enum
| AT_Interface | AT_Function.

Definition DefinitionType_value (t : DefinitionType) : string :=
  match t with
  | DT_Function => "function"
  | DT_Class => "class"
  | DT_Object => "object"
  | DT_Property => "property"
  end.

Definition AnnotationType_value (t : AnnotationType) : string :=
  match t with
  | AT_Typedef => "typedef"
  | AT_Const => "const"
  | AT_Property => "property"
  | AT_Class => "class"
  | AT_Enum => "enum"
  | AT_Interface => "interface"
  | AT_Function => "function"
  end.

Definition DefinitionType_eqb (a b : DefinitionType) : bool :=
  String.eqb (DefinitionType_value a) (DefinitionType_value b).

Definition AnnotationType_eqb (a b : AnnotationType) : bool :=
  String.eqb (AnnotationType_value a) (AnnotationType_value b).

(** One entry of [attributes.props]. *)
Record PropEntry : Type := mkPropEntry {
  prop_name : string;
  prop_type : DType;
  prop_description : option string
}.

Definition ParamTypes : Type := Dict DType.

(** Modelled from the spec: the [Attributes] interface of [base.ts],
    with the fields [parseBlockComment] assigns. *)
Record Attributes : Type := mkAttributes {
  description : string;
  comments : list string;
  type : option AnnotationType;
  typedefType : option DType;
  props : option (list PropEntry);
  constType : option DType;
  propType : option DType;
  enumType : option DType;
  paramTypes : option ParamTypes;
  returnType : option DType;
  implements : option DType;
  extends : option DType;
  template : option (list string)
}.

(** The object literal [{ description: d, comments: [] }]. *)
Definition emptyAttributes (d : string) : Attributes :=
  mkAttributes d [] None None None None None None None None None None None.

Definition set_description (v : string) (a : Attributes) : Attributes :=
  mkAttributes v (comments a) (type a) (typedefType a) (props a)
    (constType a) (propType a) (enumType a) (paramTypes a) (returnType a)
    (implements a) (extends a) (template a).
Definition set_comments (v : list string) (a : Attributes) : Attributes :=
  mkAttributes (description a) v (type a) (typedefType a) (props a)
    (constType a) (propType a) (enumType a) (paramTypes a) (returnType a)
    (implements a) (extends a) (template a).
Definition set_type (v : option AnnotationType) (a : Attributes)
  : Attributes :=
  mkAttributes (description a) (comments a) v (typedefType a) (props a)
    (constType a) (propType a) (enumType a) (paramTypes a) (returnType a)
    (implements a) (extends a) (template a).
Definition set_typedefType (v : option DType) (a : Attributes)
  : Attributes :=
  mkAttributes (description a) (comments a) (type a) v (props a)
    (constType a) (propType a) (enumType a) (paramTypes a) (returnType a)
    (implements a) (extends a) (template a).
Definition set_props (v : option (list PropEntry)) (a : Attributes)
  : Attributes :=
  mkAttributes (description a) (comments a) (type a) (typedefType a) v
    (constType a) (propType a) (enumType a) (paramTypes a) (returnType a)
    (implements a) (extends a) (template a).
Definition set_constType (v : option DType) (a : Attributes) : Attributes :=
  mkAttributes (description a) (comments a) (type a) (typedefType a)
    (props a) v (propType a) (enumType a) (paramTypes a) (returnType a)
    (implements a) (extends a) (template a).
Definition set_propType (v : option DType) (a : Attributes) : Attributes :=
  mkAttributes (description a) (comments a) (type a) (typedefType a)
    (props a) (constType a) v (enumType a) (paramTypes a) (returnType a)
    (implements a) (extends a) (template a).
Definition set_enumType (v : option DType) (a : Attributes) : Attributes :=
  mkAttributes (description a) (comments a) (type a) (typedefType a)
    (props a) (constType a) (propType a) v (paramTypes a) (returnType a)
    (implements a) (extends a) (template a).
Definition set_paramTypes (v : option ParamTypes) (a : Attributes)
  : Attributes :=
  mkAttributes (description a) (comments a) (type a) (typedefType a)
    (props a) (constType a) (propType a) (enumType a) v (returnType a)
    (implements a) (extends a) (template a).
Definition set_returnType (v : option DType) (a : Attributes)
  : Attributes :=
  mkAttributes (description a) (comments a) (type a) (typedefType a)
    (props a) (constType a) (propType a) (enumType a) (paramTypes a) v
    (implements a) (extends a) (template a).
Definition set_implements (v : option DType) (a : Attributes)
  : Attributes :=
  mkAttributes (description a) (comments a) (type a) (typedefType a)
    (props a) (constType a) (propType a) (enumType a) (paramTypes a)
    (returnType a) v (extends a) (template a).
Definition set_extends (v : option DType) (a : Attributes) : Attributes :=
  mkAttributes (description a) (comments a) (type a) (typedefType a)
    (props a) (constType a) (propType a) (enumType a) (paramTypes a)
    (returnType a) (implements a) v (template a).
Definition set_template (v : option (list string)) (a : Attributes)
  : Attributes :=
  mkAttributes (description a) (comments a) (type a) (typedefType a)
    (props a) (constType a) (propType a) (enumType a) (paramTypes a)
    (returnType a) (implements a) (extends a) v.

(** The flags [parseMethodDefinition] adds to a function definition. *)
Record MethodFlags : Type := mkMethodFlags {
  isMethod : bool;
  isStatic : bool;
  isConstructor : bool
}.

(** Modelled from the spec: the [Definition] union of [base.ts], here
    [Defn], with one constructor per object literal built in
    [parseExterns.ts].  A field a literal does not mention is [undefined]
    on the object. *)
Inductive Defn : Type :=
| FunctionDefinition (identifier : list string) (params : list string)
    (flags : option MethodFlags) (definitions : option (list Defn))
    (attributes : option Attributes)
| ObjectDefinition (identifier : list string) (props : list string)
    (attributes : option Attributes)
| ClassDefinition (identifier : list string)
    (superClass : option (list string)) (methods : list Defn)
    (attributes : option Attributes)
| PropertyDefinition (identifier : list string)
    (attributes : option Attributes).

Definition def_type (d : Defn) : DefinitionType :=
  match d with
  | FunctionDefinition _ _ _ _ _ => DT_Function
  | ObjectDefinition _ _ _ => DT_Object
  | ClassDefinition _ _ _ _ => DT_Class
  | PropertyDefinition _ _ => DT_Property
  end.

Definition def_identifier (d : Defn) : list string :=
  match d with
  | FunctionDefinition i _ _ _ _ | ObjectDefinition i _ _
  | ClassDefinition i _ _ _ | PropertyDefinition i _ => i
  end.

Definition def_attributes (d : Defn) : option Attributes :=
  match d with
  | FunctionDefinition _ _ _ _ a | ObjectDefinition _ _ a
  | ClassDefinition _ _ _ a | PropertyDefinition _ a => a
  end.

(** [definition.params]: [undefined] unless the object is a function
    definition. *)
Definition def_params (d : Defn) : option (list string) :=
  match d with
  | FunctionDefinition _ p _ _ _ => Some p
  | _ => None
  end.

(** [definition.props]: [undefined] unless the object is an object
    definition. *)
Definition def_props (d : Defn) : option (list string) :=
  match d with
  | ObjectDefinition _ p _ => Some p
  | _ => None
  end.

(** The spread [{ ...d, attributes: a }]. *)
Definition with_attributes (d : Defn) (a : Attributes) : Defn :=
  match d with
  | FunctionDefinition i p f ds _ => FunctionDefinition i p f ds (Some a)
  | ObjectDefinition i p _ => ObjectDefinition i p (Some a)
  | ClassDefinition i s m _ => ClassDefinition i s m (Some a)
  | PropertyDefinition i _ => PropertyDefinition i (Some a)
  end.

End Base.

Import Base.

(** ** The externs parser ([parseExterns.ts]) *)

Module ParseExterns.

(** *** Results of the two external parsers *)

(** A tag of the doctrine parser: [title], [name], [type], [description];
    the last three may be [null]. *)
Record Tag : Type := mkTag {
  tag_title : string;
  tag_name : option string;
  tag_type : option DType;
  tag_description : option string
}.

(** The value of [doctrine.parse(text, { unwrap: true })]. *)
Record Annotation : Type := mkAnnotation {
  ast_description : string;
  ast_tags : list Tag
}.

Inductive CommentType : Type := Block | Line.

Definition CommentType_value (t : CommentType) : string :=
  match t with Block => "Block" | Line => "Line" end.

(** An [estree.Comment]. *)
Record Comment : Type := mkComment {
  comment_type : CommentType;
  comment_value : string
}.

(** A parameter of a function: an identifier, a rest element, or another
    binding pattern, of which only the node type is read. *)
Inductive Pattern : Type :=
| PIdentifier (name : string)
| PRestElement (argument : Pattern)
| POther (type : string).

Definition Pattern_type (p : Pattern) : string :=
  match p with
  | PIdentifier _ => "Identifier"
  | PRestElement _ => "RestElement"
  | POther t => t
  end.

(** The part of the estree syntax the parser inspects.  An object
    expression is the sequence of its property keys; the function
    expression that is the [value] of a method definition is given by its
    [params] and the statements of its [body]. *)
Inductive Expression : Type :=
| Identifier (name : string)
| ThisExpression
| Literal (value : string)
| MemberExpression (object : Expression) (property : Expression)
| FunctionExpression (params : list Pattern) (body : list Statement)
| ObjectExpression (properties : list Expression)
| ClassExpression (superClass : option Expression)
    (body : list MethodDefinition)
| AssignmentExpression (left : Expression) (right : Expression)
| OtherExpression (type : string)
with Statement : Type :=
| ExpressionStatement (expression : Expression)
    (leadingComments : option (list Comment))
| FunctionDeclaration (id : option Expression) (params : list Pattern)
    (body : list Statement) (leadingComments : option (list Comment))
| OtherStatement (type : string) (leadingComments : option (list Comment))
with MethodDefinition : Type :=
| Method (key : Expression) (params : list Pattern) (body : list Statement)
    (kind : string) (static : bool)
    (leadingComments : option (list Comment)).

Definition Expression_type (e : Expression) : string :=
  match e with
  | Identifier _ => "Identifier"
  | ThisExpression => "ThisExpression"
  | Literal _ => "Literal"
  | MemberExpression _ _ => "MemberExpression"
  | FunctionExpression _ _ => "FunctionExpression"
  | ObjectExpression _ => "ObjectExpression"
  | ClassExpression _ _ => "ClassExpression"
  | AssignmentExpression _ _ => "AssignmentExpression"
  | OtherExpression t => t
  end.

Definition Statement_type (s : Statement) : string :=
  match s with
  | ExpressionStatement _ _ => "ExpressionStatement"
  | FunctionDeclaration _ _ _ _ => "FunctionDeclaration"
  | OtherStatement t _ => t
  end.

Definition Statement_leadingComments (s : Statement)
  : option (list Comment) :=
  match s with
  | ExpressionStatement _ c | FunctionDeclaration _ _ _ c
  | OtherStatement _ c => c
  end.

(** *** Array helpers with a throwing callback *)

Section Arrays.
Context {A B : Type} (p : A → bool) (f : A → result B).

(** [xs.filter(p).map(f)], as one pass: the callback runs on the kept
    elements in order and the first exception ends the pass. *)
Fixpoint filter_map_throwing (xs : list A) : result (list B) :=
  match xs with
  | [] => Ok []
  | x :: xs' =>
      if p x then
        (let* y := f x in
         let* ys := filter_map_throwing xs' in
         Ok (y :: ys))%result
      else filter_map_throwing xs'
  end.

(** [xs.filter(q)] for a callback that may throw *)
Fixpoint filter_throwing (q : B → result bool) (ys : list B)
  : result (list B) :=
  match ys with
  | [] => Ok []
  | y :: ys' =>
      (let* keep := q y in
       let* rest := filter_throwing q ys' in
       Ok (if keep then y :: rest else rest))%result
  end.

(** [xs.map(f)] *)
Fixpoint map_throwing (xs : list A) : result (list B) :=
  match xs with
  | [] => Ok []
  | x :: xs' =>
      (let* y := f x in
       let* ys := map_throwing xs' in
       Ok (y :: ys))%result
  end.

End Arrays.

(** *** Member paths *)

(** Modelled from the spec: [fail] of [./assert], which never returns. *)
Definition fail {A} (msg : string) : result A := Throw (AssertionError msg).

Fixpoint staticMemberExpressionToPath (expression : Expression)
  : result (list string) :=
  match expression with
  | Identifier name => Ok [name]
  | MemberExpression object property =>
      match property with
      | Identifier pname =>
          match object with
          | MemberExpression _ _ =>
              (let* path := staticMemberExpressionToPath object in
               Ok (path ++ [pname]))%result
          | Identifier oname => Ok [oname; pname]
          | ThisExpression => Ok ["this"; pname]
          | _ =>
              fail ("Expected either member expression, identifier, "
                    +:+ "or `this` as object in path")
          end
      | _ => Throw (AssertionError "")
      end
  | _ =>
      Throw (AssertionError
               ("Expected MemberExpression, got "
                +:+ Expression_type expression))
  end.

(** *** The comment tag interpreter *)

Definition normalizeDescription (description : string) : string :=
  join " " (map trim (split "010"%char description)).

Section WithDoctrine.

(** The tag parser is an external library. *)
Variable doctrine_parse : string → Annotation.

(** One iteration of the loop over [ast.tags]. *)
Definition interpretTag (attributes : Attributes) (tag : Tag)
  : result Attributes :=
  let title := tag_title tag in
  if String.eqb title "summary" then
    (run assert (truthy_string (tag_description tag)) "" in
     Ok (set_description
           (normalizeDescription (default "" (tag_description tag)))
           attributes))%result
  else if String.eqb title "description" then
    (run assert (truthy_string (tag_description tag)) "" in
     Ok (set_description
           (normalizeDescription (default "" (tag_description tag)))
           attributes))%result
  else if String.eqb title "typedef" then
    (run assert (bool_decide (is_Some (tag_type tag))) "" in
     Ok (set_typedefType (tag_type tag)
           (set_type (Some AT_Typedef) attributes)))%result
  else if String.eqb title "property" then
    match tag_name tag, tag_type tag with
    | Some (String c n), Some ty =>
        let entry :=
          mkPropEntry (String c n) ty
            (if truthy_string (tag_description tag)
             then Some (normalizeDescription
                          (default "" (tag_description tag)))
             else None) in
        Ok (set_props (Some (default [] (props attributes) ++ [entry]))
              attributes)
    | _, _ => Throw (AssertionError "")
    end
  else if String.eqb title "const" then
    Ok (set_constType (tag_type tag) (set_type (Some AT_Const) attributes))
  else if String.eqb title "namespace" then
    Ok (set_constType None (set_type (Some AT_Const) attributes))
  else if String.eqb title "define" then
    let attributes :=
      set_constType (tag_type tag) (set_type (Some AT_Const) attributes) in
    Ok (if truthy_string (tag_description tag)
        then set_description
               (normalizeDescription (default "" (tag_description tag)))
               attributes
        else attributes)
  else if String.eqb title "protected" || String.eqb title "type" then
    Ok (set_propType (tag_type tag)
          (set_type (Some AT_Property) attributes))
  else if String.eqb title "constructor" then
    Ok (set_type (Some AT_Class) attributes)
  else if String.eqb title "enum" then
    Ok (set_enumType (tag_type tag) (set_type (Some AT_Enum) attributes))
  else if String.eqb title "interface" then
    Ok (set_type (Some AT_Interface) attributes)
  else if String.eqb title "param" then
    match tag_name tag, tag_type tag with
    | Some (String c n), Some ty =>
        let name := String c n in
        let attributes :=
          set_paramTypes
            (Some (dict_set (default [] (paramTypes attributes)) name ty))
            attributes in
        Ok (if truthy_string (tag_description tag)
            then
              let description :=
                normalizeDescription (default "" (tag_description tag)) in
              set_comments
                (comments attributes
                 ++ ["@param " +:+ name +:+ " " +:+ description])
                attributes
            else attributes)
    | _, _ => Throw (AssertionError "")
    end
  else if String.eqb title "return" then
    let attributes :=
      set_returnType (tag_type tag)
        (set_type (Some AT_Function) attributes) in
    Ok (if truthy_string (tag_description tag)
        then
          let description :=
            normalizeDescription (default "" (tag_description tag)) in
          set_comments
            (comments attributes ++ ["@returnType " +:+ description])
            attributes
        else attributes)
  else if String.eqb title "implements" then
    (run assert (bool_decide (is_Some (tag_type tag))) "" in
     Ok (set_implements (tag_type tag) attributes))%result
  else if String.eqb title "extends" then
    (run assert (bool_decide (is_Some (tag_type tag))) "" in
     Ok (set_extends (tag_type tag) attributes))%result
  else if String.eqb title "template" then
    (run assert (truthy_string (tag_description tag)) "" in
     Ok (set_template
           (Some (split ","%char (default "" (tag_description tag))))
           attributes))%result
  else Ok attributes.

(** The loop [for (const tag of ast.tags)]. *)
Fixpoint interpretTags (attributes : Attributes) (tags : list Tag)
  : result Attributes :=
  match tags with
  | [] => Ok attributes
  | tag :: tags' =>
      (let* attributes := interpretTag attributes tag in
       interpretTags attributes tags')%result
  end.

Definition parseBlockComment (comment : Comment) : result Attributes :=
  (run assert
         (match comment_type comment with Block => true | Line => false end)
         ("Expected comment of type Block, got "
          +:+ CommentType_value (comment_type comment)) in
   let ast := doctrine_parse (comment_value comment) in
   let attributes :=
     emptyAttributes (normalizeDescription (ast_description ast)) in
   let* attributes := interpretTags attributes (ast_tags ast) in
   Ok (if truthy_string (Some (description attributes))
       then set_comments (description attributes :: comments attributes)
              attributes
       else attributes))%result.

Definition parseLeadingComments (comments : option (list Comment))
  : result Attributes :=
  match comments with
  | None => Ok (emptyAttributes "")
  | Some comments =>
      (run assert (0 <? Z.of_nat (List.length comments))
             "Expected at least one leading comment, found none" in
       (* Only parse the comment closest to the statement *)
       match last comments with
       | Some comment => parseBlockComment comment
       | None => Throw (TypeError "comment is undefined")
       end)%result
  end.

(** *** The definition extractor *)

(** The callback of [params.map] in [parseFunctionDeclaration] and
    [parseAssignmentExpression]. *)
Definition identifierParam (p : Pattern) : result string :=
  match p with
  | PIdentifier name => Ok name
  | _ => Throw (AssertionError "")
  end.

(** The callback of [params.map] in [parseMethodDefinition]. *)
Definition methodParam (p : Pattern) : result string :=
  match p with
  | PRestElement argument =>
      match argument with
      | PIdentifier name => Ok name
      | _ => Throw (AssertionError (Pattern_type argument))
      end
  | PIdentifier name => Ok name
  | _ => Throw (AssertionError (Pattern_type p))
  end.

(** The callback of [properties.map] for an object expression. *)
Definition propertyKey (key : Expression) : result string :=
  match key with
  | Identifier name => Ok name
  | Literal value => Ok value
  | _ =>
      Throw (PlainError ("Unrecognited key type " +:+ Expression_type key))
  end.

Definition parseFunctionDeclaration (id : option Expression)
  (params : list Pattern) : result Defn :=
  match id with
  | None => Throw (AssertionError "")
  | Some id =>
      (let* identifier := staticMemberExpressionToPath id in
       let* params := map_throwing identifierParam params in
       Ok (FunctionDefinition identifier params None None None))%result
  end.

Definition parseMemberExpression (expression : Expression) : result Defn :=
  (let* identifier := staticMemberExpressionToPath expression in
   Ok (PropertyDefinition identifier None))%result.

(** The first filter of [parseBody]: only expression statements and
    function declarations are considered. *)
Definition isExpressionOrFunction (statement : Statement) : bool :=
  match statement with
  | ExpressionStatement _ _ | FunctionDeclaration _ _ _ _ => true
  | OtherStatement _ _ => false
  end.

(** The last filter of [parseBody]:
    [definition.type === Class || attributes.type !== Const ||
     attributes.constType !== undefined]. *)
Definition keepDefinition (definition : Defn) : result bool :=
  if DefinitionType_eqb (def_type definition) DT_Class then Ok true
  else
    match def_attributes definition with
    | None => Throw (TypeError "definition.attributes is undefined")
    | Some attributes =>
        Ok (negb (match type attributes with
                  | Some t => AnnotationType_eqb t AT_Const
                  | None => false
                  end)
            || bool_decide (is_Some (constType attributes)))
    end.

(** The callback of [.map] in [parseBody], for a given statement parser. *)
Definition annotate (parseStatement : Statement → result Defn)
  (statement : Statement) : result Defn :=
  (let* definition := parseStatement statement in
   let* attributes :=
     parseLeadingComments (Statement_leadingComments statement) in
   Ok (with_attributes definition attributes))%result.

(** The body of [parseBody], for a given statement parser. *)
Definition parseBodyWith (parseStatement : Statement → result Defn)
  (statements : list Statement) : result (list Defn) :=
  (let* definitions :=
     filter_map_throwing isExpressionOrFunction (annotate parseStatement)
       statements in
   filter_throwing keepDefinition definitions)%result.

Fixpoint parseStatement (statement : Statement) : result Defn :=
  match statement with
  | FunctionDeclaration id params _ _ => parseFunctionDeclaration id params
  | ExpressionStatement expression _ =>
      match expression with
      | AssignmentExpression left_ right_ =>
          parseAssignmentExpression left_ right_
      | MemberExpression _ _ => parseMemberExpression expression
      | _ =>
          Throw (PlainError
                   ("Unknown expression type "
                    +:+ Expression_type expression))
      end
  | OtherStatement _ _ => Throw (AssertionError "")
  end
with parseAssignmentExpression (left_ right_ : Expression) {struct right_}
  : result Defn :=
  match left_ with
  | MemberExpression _ _ =>
      (let* identifier := staticMemberExpressionToPath left_ in
       match right_ with
       | FunctionExpression params _ =>
           let* params := map_throwing identifierParam params in
           Ok (FunctionDefinition identifier params None None None)
       | ObjectExpression properties =>
           let* props := map_throwing propertyKey properties in
           Ok (ObjectDefinition identifier props None)
       | ClassExpression superClass body =>
           let* superClass :=
             match superClass with
             | Some e =>
                 let* path := staticMemberExpressionToPath e in
                 Ok (Some path)
             | None => Ok None
             end in
           let* methods := map_throwing parseMethodDefinition body in
           Ok (ClassDefinition identifier superClass methods None)
       | _ =>
           Throw (PlainError
                    ("Unknown expression type " +:+ Expression_type right_
                     +:+ " for assignment value"))
       end)%result
  | _ => Throw (AssertionError "")
  end
with parseMethodDefinition (md : MethodDefinition) : result Defn :=
  match md with
  | Method key params body kind static leadingComments =>
      match key with
      | Identifier name =>
          (let* params := map_throwing methodParam params in
           let* definitions := parseBodyWith parseStatement body in
           let* attributes := parseLeadingComments leadingComments in
           Ok (FunctionDefinition [name] params
                 (Some (mkMethodFlags (String.eqb kind "method") static
                          (String.eqb kind "constructor")))
                 (Some definitions) (Some attributes)))%result
      | _ => Throw (AssertionError "")
      end
  end.

Definition parseBody (statements : list Statement) : result (list Defn) :=
  parseBodyWith parseStatement statements.

End WithDoctrine.

End ParseExterns.

(** ** The node tree ([treeUtils.ts]) *)

Module TreeUtils.

(** A [Node] object.  [children] is a reference to a [Map<string, Node>]
    object; a node created by [getOrCreateNode] has no [definition]. *)
Record Node : Type := mkNode {
  name : string;
  definition : option Defn;
  children : positive
}.

(** The objects reachable from a tree: the [Map] objects, each an
    insertion-ordered dictionary from names to node references, and the
    [Node] objects. *)
Record Store : Type := mkStore {
  maps : gmap positive (Dict positive);
  nodes : gmap positive Node
}.

Definition Heap (A : Type) : Type := Eff Store A.

(** [new Map()] *)
Definition newMap : Heap positive :=
  fun s =>
    let r := fresh (dom (maps s)) in
    (Ok r, mkStore (<[r := []]> (maps s)) (nodes s)).

(** The object literal [{ name: name, children: children }]. *)
Definition newNode (name : string) (children : positive) : Heap positive :=
  fun s =>
    let r := fresh (dom (nodes s)) in
    (Ok r, mkStore (maps s) (<[r := mkNode name None children]> (nodes s))).

Definition readMap (m : positive) : Heap (Dict positive) :=
  fun s =>
    match maps s !! m with
    | Some d => (Ok d, s)
    | None => (Throw (TypeError "not a Map"), s)
    end.

(** [m.has(k)] *)
Definition Map_has (m : positive) (k : string) : Heap bool :=
  (let* d := readMap m in eret (dict_has d k))%eff.

(** [m.get(k)] *)
Definition Map_get (m : positive) (k : string) : Heap (option positive) :=
  (let* d := readMap m in eret (dict_get d k))%eff.

(** [m.set(k, v)] *)
Definition Map_set (m : positive) (k : string) (v : positive) : Heap unit :=
  (let* d := readMap m in
   emodify (fun s => mkStore (<[m := dict_set d k v]> (maps s)) (nodes s))
  )%eff.

(** [node.children] *)
Definition Node_children (node : positive) : Heap positive :=
  fun s =>
    match nodes s !! node with
    | Some n => (Ok (children n), s)
    | None => (Throw (TypeError "not a Node"), s)
    end.

Definition getOrCreateNode (nodes : positive) (name : string)
  : Heap positive :=
  (let* present := Map_has nodes name in
   if present then
     let* found := Map_get nodes name in
     match found with
     | Some node => eret node
     | None => ethrow (TypeError "node is undefined")
     end
   else
     let* children := newMap in
     let* node := newNode name children in
     run Map_set nodes name node in
     eret node)%eff.

(** The loop of [getOrCreateNodeAtPath], with its variables [node] and
    [nodes]. *)
Fixpoint getOrCreateNodeAtPath_loop (path : list string)
  (node : option positive) (nodes : positive) : Heap (option positive) :=
  match path with
  | [] => eret node
  | part :: path' =>
      (let* node := getOrCreateNode nodes part in
       let* nodes := Node_children node in
       getOrCreateNodeAtPath_loop path' (Some node) nodes)%eff
  end.

Definition getOrCreateNodeAtPath (root : positive) (path : list string)
  : Heap positive :=
  (run elift (assert (0 <? Z.of_nat (List.length path)) "") in
   let* node := getOrCreateNodeAtPath_loop path None root in
   match node with
   | Some node => eret node
   | None => ethrow (TypeError "node is null")
   end)%eff.

(** The loop of [getNodeAtPath]; an early [return null] ends it. *)
Fixpoint getNodeAtPath_loop (path : list string) (node : option positive)
  (nodes : positive) : Heap (option positive) :=
  match path with
  | [] => eret node
  | part :: path' =>
      (let* node := Map_get nodes part in
       match node with
       | None => eret None
       | Some n =>
           let* nodes := Node_children n in
           getNodeAtPath_loop path' (Some n) nodes
       end)%eff
  end.

Definition getNodeAtPath (root : positive) (path : list string)
  : Heap (option positive) :=
  getNodeAtPath_loop path None root.

(** Reading a property of the node object at a reference. *)
Definition readNode (node : positive) : Heap Node :=
  fun s =>
    match nodes s !! node with
    | Some n => (Ok n, s)
    | None => (Throw (TypeError "not a Node"), s)
    end.

(** The [PropType] interface. *)
Record PropType : Type := mkPropType {
  rawType : option DType;
  isConst : bool
}.

(** [attributes.type === t] *)
Definition hasType (attributes : Attributes) (t : AnnotationType) : bool :=
  match type attributes with
  | Some t' => AnnotationType_eqb t' t
  | None => false
  end.

(** [assert(x)] for an object that may be absent, giving the object. *)
Definition assertPresent {A} (x : option A) : Heap A :=
  match x with
  | Some a => eret a
  | None => ethrow (AssertionError "")
  end.

Definition getPropTypeFromInterface (iface : positive) (propName : string)
  : Heap PropType :=
  (let* ifaceNode := readNode iface in
   let* ifaceDefinition := assertPresent (definition ifaceNode) in
   let* attributes := assertPresent (def_attributes ifaceDefinition) in
   if hasType attributes AT_Interface then
     let* base :=
       getNodeAtPath (children ifaceNode) ["prototype"; propName] in
     match base with
     | Some base =>
         let* baseNode := readNode base in
         let* baseDefinition := assertPresent (definition baseNode) in
         let* baseAttributes :=
           assertPresent (def_attributes baseDefinition) in
         let isConst := hasType baseAttributes AT_Const in
         eret (mkPropType
                 (if isConst then constType baseAttributes
                  else propType baseAttributes)
                 isConst)
     | None => eret (mkPropType None false)
     end
   else
     match hasType attributes AT_Typedef, props attributes with
     | true, Some props =>
         let* base :=
           assertPresent
             (find (fun p => String.eqb (prop_name p) propName) props) in
         eret (mkPropType (Some (prop_type base)) false)
     | _, _ => eret (mkPropType None false)
     end)%eff.

(** The [MethodTypes] interface. *)
Record MethodTypes : Type := mkMethodTypes {
  m_paramTypes : option ParamTypes;
  m_returnType : option DType
}.

(** [xs.reduce((acc, x, i) => f(acc, x, i), acc)], from index [i]. *)
Fixpoint reduceIndexed {A Acc} (f : Acc → A → nat → Acc) (acc : Acc)
  (i : nat) (xs : list A) : Acc :=
  match xs with
  | [] => acc
  | x :: xs' => reduceIndexed f (f acc x i) (S i) xs'
  end.

(** The callback of [params.reduce]: [acc["p" + i] = type]. *)
Definition numberedParam (acc : ParamTypes) (type : DType) (i : nat)
  : ParamTypes :=
  dict_set acc ("p" +:+ pretty i) type.

Definition getMethodTypesFromInterface (iface : positive)
  (methodName : string) : Heap MethodTypes :=
  (let* ifaceNode := readNode iface in
   let* ifaceDefinition := assertPresent (definition ifaceNode) in
   let* attributes := assertPresent (def_attributes ifaceDefinition) in
   if hasType attributes AT_Interface then
     let* base :=
       getNodeAtPath (children ifaceNode) ["prototype"; methodName] in
     match base with
     | Some base =>
         let* baseNode := readNode base in
         let* baseDefinition := assertPresent (definition baseNode) in
         let* baseAttributes :=
           assertPresent (def_attributes baseDefinition) in
         eret (mkMethodTypes (paramTypes baseAttributes)
                 (returnType baseAttributes))
     | None => eret (mkMethodTypes None None)
     end
   else
     match hasType attributes AT_Typedef, props attributes with
     | true, Some props =>
         let* base :=
           assertPresent
             (find (fun p => String.eqb (prop_name p) methodName) props) in
         match prop_type base with
         | FunctionType params result =>
             eret (mkMethodTypes
                     (Some (reduceIndexed numberedParam [] 0 params))
                     result)
         | _ => eret (mkMethodTypes None None)
         end
     | _, _ => eret (mkMethodTypes None None)
     end)%eff.

End TreeUtils.

(** ** The declaration emitter *)

Module Emitter.

Definition newline : string := String "010"%char "".

(** *** Writers *)

(** What the emitter uses of a writer object.  [writeLine] may throw,
    because [getIndentation] repeats a string [level] times. *)
Class Writer (W : Type) : Type := {
  level : W → Z;
  increaseLevel : W → W;
  decreaseLevel : W → W;
  writeLine : string → W → result W
}.

(** [AbstractWriter.getIndentation]: repeat two spaces [level] times. *)
Definition getIndentation (level : Z) : result string := repeat "  " level.

(** [StringWriter]: the inherited [level] and the [buffer]. *)
Record StringWriter : Type := mkStringWriter {
  sw_level : Z;
  buffer : string
}.

(** [new StringWriter()] *)
Definition newStringWriter : StringWriter := mkStringWriter 0 "".

Definition StringWriter_writeLine (str : string) (this : StringWriter)
  : result StringWriter :=
  (let* indentation := getIndentation (sw_level this) in
   Ok (mkStringWriter (sw_level this)
         (buffer this +:+ indentation +:+ str +:+ newline)))%result.

#[export] Instance StringWriter_Writer : Writer StringWriter := {|
  level := sw_level;
  increaseLevel this := mkStringWriter (sw_level this + 1) (buffer this);
  decreaseLevel this := mkStringWriter (sw_level this - 1) (buffer this);
  writeLine := StringWriter_writeLine
|}.

(** [StreamWriter]: the inherited [level] and the [stream], given by the
    chunks passed to [stream.write] so far, oldest first. *)
Record StreamWriter : Type := mkStreamWriter {
  st_level : Z;
  stream : list string
}.

(** [new StreamWriter(stream)] *)
Definition newStreamWriter (stream : list string) : StreamWriter :=
  mkStreamWriter 0 stream.

Definition StreamWriter_writeLine (str : string) (this : StreamWriter)
  : result StreamWriter :=
  (let* indentation := getIndentation (st_level this) in
   Ok (mkStreamWriter (st_level this)
         (stream this ++ [indentation +:+ str +:+ newline])))%result.

#[export] Instance StreamWriter_Writer : Writer StreamWriter := {|
  level := st_level;
  increaseLevel this := mkStreamWriter (st_level this + 1) (stream this);
  decreaseLevel this := mkStreamWriter (st_level this - 1) (stream this);
  writeLine := StreamWriter_writeLine
|}.

(** *** Nodes as the emitter reads them *)

(** During emission the tree is only read, so a node is given with its
    children: [children] lists the entries of the child [Map] in
    insertion order. *)
Inductive Node : Type := mkNode {
  name : string;
  definition : option Defn;
  children : list (string * Node)
}.

Definition NodeMap : Type := Dict Node.

(** The loop of [getNodeAtPath], with its variables [node] and [nodes];
    a missing entry ends it with [null]. *)
Fixpoint getNodeAtPath_loop (path : list string) (node : option Node)
  (nodes : list (string * Node)) : option Node :=
  match path with
  | [] => node
  | part :: path' =>
      match dict_get nodes part with
      | None => None
      | Some node => getNodeAtPath_loop path' (Some node) (children node)
      end
  end.

Definition getNodeAtPath (root : list (string * Node)) (path : list string)
  : option Node :=
  getNodeAtPath_loop path None root.

(** The greatest number of nested [children] maps below a node. *)
Fixpoint height (node : Node) : nat :=
  match node with
  | mkNode _ _ cs =>
      (fix heights (l : list (string * Node)) : nat :=
         match l with
         | [] => O
         | (_, c) :: l' => Nat.max (S (height c)) (heights l')
         end) cs
  end.

(** *** Console *)

Inductive LogEntry : Type :=
| AssertionFailed (message : string)
| ErrorLogged (message : string).

(** The state emission acts on: the writer, and the lines logged on the
    console (most recent last). *)
Record World (W : Type) : Type := mkWorld {
  writer : W;
  console : list LogEntry
}.
Arguments mkWorld {W} writer console.
Arguments writer {W} w.
Arguments console {W} w.

(** The argument of [generateType]: a parsed type, the string ['any'],
    or [undefined]. *)
Inductive TypeArg : Type :=
| TypeExpr (t : DType)
| TypeString (s : string)
| TypeUndefined.

Definition optionalType (t : option DType) : TypeArg :=
  match t with
  | Some t => TypeExpr t
  | None => TypeUndefined
  end.

Section Emission.

Context {W : Type} `{Writer W}.

(** [./generateType]: the type renderer, a pure function. *)
Variable generateType : TypeArg → string.

(** The text a type value contributes when concatenated to a string. *)
Variable typeText : DType → string.

Definition M (A : Type) : Type := Eff (World W) A.

Definition writer_level : M Z := fun s => (Ok (level (writer s)), s).

Definition writer_increaseLevel : M unit :=
  emodify (fun s => mkWorld (increaseLevel (writer s)) (console s)).

Definition writer_decreaseLevel : M unit :=
  emodify (fun s => mkWorld (decreaseLevel (writer s)) (console s)).

Definition writer_writeLine (str : string) : M unit :=
  fun s =>
    match writeLine str (writer s) with
    | Ok w => (Ok tt, mkWorld w (console s))
    | Throw e => (Throw e, s)
    end.

(** [console.assert(cond, message, ...)]: logs when [cond] is false, never
    throws. *)
Definition console_assert (cond : bool) (message : string) : M unit :=
  if cond then eret tt
  else emodify (fun s =>
         mkWorld (writer s) (console s ++ [AssertionFailed message])).

(** [console.error(...)] *)
Definition console_error (message : string) : M unit :=
  emodify (fun s => mkWorld (writer s) (console s ++ [ErrorLogged message])).

(** Reading a property of [node.definition], which may be [null]. *)
Definition the_definition (node : Node) : M Defn :=
  match definition node with
  | Some d => eret d
  | None => ethrow (TypeError "Cannot read properties of null")
  end.

(** Reading a property of [definition.attributes], which may be
    [undefined]. *)
Definition the_attributes (d : Defn) : M Attributes :=
  match def_attributes d with
  | Some a => eret a
  | None => ethrow (TypeError "Cannot read properties of undefined")
  end.

(** [definition.attributes.type || definition.type] *)
Definition resolvedType (d : Defn) : M string :=
  (let* attributes := the_attributes d in
   eret (match type attributes with
         | Some t => AnnotationType_value t
         | None => DefinitionType_value (def_type d)
         end))%eff.

Definition writeComments (comments : list string) : M unit :=
  if 0 <? Z.of_nat (List.length comments) then
    (run writer_writeLine "/**" in
     run forEach (fun comment => writer_writeLine (" * " +:+ comment))
           comments in
     writer_writeLine " */")%eff
  else eret tt.

(** [keyword] is the value of the parameter after its default
    ['function'] has been applied; [null] is [None].  The
    [console.assert] in the callback of [params.map] never logs, since
    the type it checks is a parsed type or ['any']. *)
Definition writeFunctionNode (node : Node) (keyword : option string)
  (isConstructor : bool) : M unit :=
  (let* definition := the_definition node in
   let* attributes := the_attributes definition in
   let paramTypes := default [] (paramTypes attributes) in
   run writeComments (comments attributes) in
   let* names :=
     match def_params definition with
     | Some names => eret names
     | None => ethrow (TypeError "Cannot read properties of undefined")
     end in
   let params :=
     join ", "
       (map (fun name =>
               let type :=
                 match dict_get paramTypes name with
                 | Some t => TypeExpr t
                 | None => TypeString "any"
                 end in
               name +:+ ": " +:+ generateType type)
            names) in
   let returnType :=
     match returnType attributes with
     | Some t => generateType (TypeExpr t)
     | None => "void"
     end in
   let name := if isConstructor then "constructor" else name node in
   writer_writeLine
     ((if truthy_string keyword then default "" keyword +:+ " " else "")
      +:+ name +:+ "(" +:+ params +:+ ")"
      +:+ (if isConstructor then ";" else ": " +:+ returnType +:+ ";")))%eff.

(** The body of the loops over [staticProperties] and [properties]:
    [prefix] is ["static "] in the first and empty in the others. *)
Definition writeProperty (prefix : string) (propNode : Node) : M unit :=
  (let* definition := the_definition propNode in
   let* attributes := the_attributes definition in
   let isConst :=
     match type attributes with
     | Some t => String.eqb (AnnotationType_value t) "const"
     | None => false
     end in
   let rawType :=
     if isConst then constType attributes else propType attributes in
   let type := generateType (optionalType rawType) in
   writer_writeLine
     (prefix +:+ (if isConst then "readonly " else "") +:+ name propNode
      +:+ ": " +:+ type +:+ ";"))%eff.

(** One iteration of the loop gathering the static members of a class:
    the local arrays are [staticProperties], [staticMethods], [others]. *)
Definition gatherStatic
  (acc : list Node * list Node * list Node) (child : Node)
  : M (list Node * list Node * list Node) :=
  let '(staticProperties, staticMethods, others) := acc in
  if String.eqb (name child) "prototype" then eret acc
  else
    (run console_assert (bool_decide (is_Some (definition child)))
           "Unexpected child without definition in class definition:" in
     let* definition := the_definition child in
     let* type := resolvedType definition in
     if String.eqb type "const" then
       eret (staticProperties ++ [child], staticMethods, others)
     else if String.eqb type "property" then
       eret (staticProperties ++ [child], staticMethods, others)
     else if String.eqb type "function" then
       eret (staticProperties, staticMethods ++ [child], others)
     else eret (staticProperties, staticMethods, others ++ [child]))%eff.

(** One iteration of the loop gathering the prototype members of a class
    or of an interface ([what]): the local arrays are [properties] and
    [methods].  The switch is on [child.definition.type]. *)
Definition gatherPrototype (what : string)
  (acc : list Node * list Node) (child : Node)
  : M (list Node * list Node) :=
  let '(properties, methods) := acc in
  (run console_assert (bool_decide (is_Some (definition child)))
         ("Unexpected child without definition in " +:+ what
          +:+ " definition:") in
   let* definition := the_definition child in
   let* type := resolvedType definition in
   let tag := DefinitionType_value (def_type definition) in
   if String.eqb tag "const" then eret (properties ++ [child], methods)
   else if String.eqb tag "property" then
     eret (properties ++ [child], methods)
   else if String.eqb tag "function" then
     eret (properties, methods ++ [child])
   else
     run console_error
           ("Found unexpected node type " +:+ type +:+ " in " +:+ what
            +:+ " definition") in
     eret acc)%eff.

(** The trailing [namespace] block shared by classes and interfaces. *)
Definition writeOthers (writeNodes : NodeMap → list Node → M unit)
  (root : NodeMap) (node : Node) (others : list Node) : M unit :=
  if 0 <? Z.of_nat (List.length others) then
    (run writer_writeLine ("namespace " +:+ name node +:+ " {") in
     run writer_increaseLevel in
     run writeNodes root others in
     run writer_decreaseLevel in
     writer_writeLine "}")%eff
  else eret tt.

Definition writeClassNode (writeNodes : NodeMap → list Node → M unit)
  (root : NodeMap) (node : Node) : M unit :=
  (* Class might consist of only a constructor
     Prototype defaults to empty in that case *)
  let prototype_children :=
    match dict_get (children node) "prototype" with
    | Some prototype => children prototype
    | None => []
    end in
  (let* '(staticProperties, staticMethods, others) :=
     forEachAcc gatherStatic ([], [], []) (dict_values (children node)) in
   let* '(properties, methods) :=
     forEachAcc (gatherPrototype "class") ([], [])
       (dict_values prototype_children) in
   let* definition := the_definition node in
   let* attributes := the_attributes definition in
   let classDeclaration := name node in
   let classDeclaration :=
     match extends attributes with
     | Some t => classDeclaration +:+ " extends " +:+ typeText t
     | None => classDeclaration
     end in
   let classDeclaration :=
     match implements attributes with
     | Some t => classDeclaration +:+ " implements " +:+ typeText t
     | None => classDeclaration
     end in
   run writer_writeLine ("class " +:+ classDeclaration +:+ " {") in
   run writer_increaseLevel in
   run forEach (writeProperty "static ") staticProperties in
   run forEach (fun methodNode =>
                  writeFunctionNode methodNode (Some "static") false)
         staticMethods in
   run forEach (writeProperty "") properties in
   run writeFunctionNode node None true in
   run forEach (fun methodNode => writeFunctionNode methodNode None false)
         methods in
   run writer_decreaseLevel in
   run writer_writeLine "}" in
   writeOthers writeNodes root node others)%eff.

(** One iteration of the loop gathering the non-prototype members of an
    interface. *)
Definition gatherOthers (others : list Node) (child : Node)
  : M (list Node) :=
  if String.eqb (name child) "prototype" then eret others
  else
    (run console_assert (bool_decide (is_Some (definition child)))
           "Unexpected child without definition in interface definition:" in
     eret (others ++ [child]))%eff.

Definition writeInterfaceNode (writeNodes : NodeMap → list Node → M unit)
  (root : NodeMap) (node : Node) : M unit :=
  let prototype := dict_get (children node) "prototype" in
  (let* definition := the_definition node in
   let* attributes := the_attributes definition in
   let baseInterface := extends attributes in
   let* others :=
     forEachAcc gatherOthers [] (dict_values (children node)) in
   let* prototype_children :=
     match prototype with
     | Some prototype => eret (children prototype)
     | None => ethrow (TypeError "Cannot read properties of undefined")
     end in
   let* '(properties, methods) :=
     forEachAcc (gatherPrototype "interface") ([], [])
       (dict_values prototype_children) in
   run writeComments (comments attributes) in
   run match baseInterface with
       | Some t =>
           writer_writeLine
             ("interface " +:+ name node +:+ " extends " +:+ typeText t
              +:+ " {")
       | None => writer_writeLine ("interface " +:+ name node +:+ " {")
       end in
   run writer_increaseLevel in
   run forEach (writeProperty "") properties in
   run forEach (fun methodNode => writeFunctionNode methodNode None false)
         methods in
   run writer_decreaseLevel in
   run writer_writeLine "}" in
   writeOthers writeNodes root node others)%eff.

Definition writeTypedefNode (root : NodeMap) (node : Node) : M unit :=
  (let* definition := the_definition node in
   let* attributes := the_attributes definition in
   run writeComments (comments attributes) in
   match props attributes with
   | Some props =>
       (* Typedef defines an object structure, declare as interface *)
       run writer_writeLine ("interface " +:+ name node +:+ " {") in
       run writer_increaseLevel in
       run forEach
             (fun prop =>
                let type := generateType (TypeExpr (prop_type prop)) in
                run (if truthy_string (prop_description prop)
                     then writeComments [default "" (prop_description prop)]
                     else eret tt) in
                writer_writeLine (prop_name prop +:+ ": " +:+ type +:+ ";"))
             props in
       run writer_decreaseLevel in
       writer_writeLine "}"
   | None =>
       let type := generateType (optionalType (typedefType attributes)) in
       writer_writeLine ("type " +:+ name node +:+ " = " +:+ type +:+ ";")
   end)%eff.

Definition writeEnumNode (node : Node) : M unit :=
  (let* definition := the_definition node in
   run console_assert
         (String.eqb (DefinitionType_value (def_type definition)) "object")
         ("Expected enum " +:+ name node
          +:+ " to be defined with an object, got "
          +:+ DefinitionType_value (def_type definition)) in
   let* attributes := the_attributes definition in
   run writeComments (comments attributes) in
   run writer_writeLine ("enum " +:+ name node +:+ " {") in
   run writer_increaseLevel in
   let* props :=
     match def_props definition with
     | Some props => eret props
     | None => ethrow (TypeError "definition.props is not iterable")
     end in
   run forEach (fun prop => writer_writeLine (prop +:+ ",")) props in
   run writer_decreaseLevel in
   writer_writeLine "}")%eff.

(** The body of [writeNode], given [writeNodes]. *)
Definition writeNodeBody (writeNodes : NodeMap → list Node → M unit)
  (root : NodeMap) (node : Node) : M unit :=
  match definition node with
  | None =>
      (* Write namespace to writer *)
      (let* level := writer_level in
       run (if level =? 0 then
              (* Mark top-level namespaces as ambient *)
              writer_writeLine ("declare namespace " +:+ name node +:+ " {")
            else writer_writeLine ("namespace " +:+ name node +:+ " {")) in
       run writer_increaseLevel in
       run writeNodes root (dict_values (children node)) in
       run writer_decreaseLevel in
       writer_writeLine "}")%eff
  | Some definition =>
      (let* attributes := the_attributes definition in
       (* If the doc comment didn't lead to a type, fall back to the type
          we got from the declaration itself. *)
       let* type := resolvedType definition in
       if String.eqb type "class" then writeClassNode writeNodes root node
       else if String.eqb type "interface" then
         writeInterfaceNode writeNodes root node
       else if String.eqb type "typedef" then writeTypedefNode root node
       else if String.eqb type "enum" then writeEnumNode node
       else if String.eqb type "const" then
         run writeComments (comments attributes) in
         let constType :=
           generateType (optionalType (constType attributes)) in
         writer_writeLine
           ("const " +:+ name node +:+ ": " +:+ constType +:+ ";")
       else if String.eqb type "function" then
         writeFunctionNode node (Some "function") false
       else console_error ("Unexpected definition type " +:+ type))%eff
  end.

(** [writeNode] and [writeNodes] call each other; the recursion descends
    into the children of the node, so it is bounded by its height. *)
Fixpoint writeNodeBounded (bound : nat) (root : NodeMap) (node : Node)
  : M unit :=
  match bound with
  | O => ethrow (PlainError "recursion bound reached")
  | S bound' =>
      writeNodeBody
        (fun root nodes => forEach (writeNodeBounded bound' root) nodes)
        root node
  end.

Definition writeNode (root : NodeMap) (node : Node) : M unit :=
  writeNodeBounded (S (height node)) root node.

Definition writeNodes (root : NodeMap) (nodes : list Node) : M unit :=
  forEach (writeNode root) nodes.

End Emission.

Definition generateTypeDefinitions (generateType : TypeArg → string)
  (typeText : DType → string) (definitionRoot : NodeMap)
  : result string * World StringWriter :=
  match writeNodes generateType typeText definitionRoot
          (dict_values definitionRoot) (mkWorld newStringWriter []) with
  | (Ok _, s) => (Ok (buffer (writer s)), s)
  | (Throw e, s) => (Throw e, s)
  end.

Definition writeTypeDefinitions (generateType : TypeArg → string)
  (typeText : DType → string) (stream : list string)
  (definitionRoot : NodeMap) : result unit * World StreamWriter :=
  writeNodes generateType typeText definitionRoot
    (dict_values definitionRoot) (mkWorld (newStreamWriter stream) []).

End Emitter.

(** * Vocabulary of the properties *)

(** ** For the externs parser *)

Module ParseExternsSpec.
Import ParseExterns.

#[export] Instance AnnotationType_eq_dec : EqDecision AnnotationType.
Proof. solve_decision. Defined.

#[export] Instance DefinitionType_eq_dec : EqDecision DefinitionType.
Proof. solve_decision. Defined.

(** *** The tag fold *)

Definition t_string : DType := NameExpression "string".
Definition t_number : DType := NameExpression "number".
Definition t_boolean : DType := NameExpression "boolean".

(** The tags [@param x {string}], [@param y {number}],
    [@return {boolean}], each with the description the tag parser found
    for it, if any. *)
Definition foldTags (dx dy dr : option string) : list Tag :=
  [ mkTag "param" (Some "x") (Some t_string) dx;
    mkTag "param" (Some "y") (Some t_number) dy;
    mkTag "return" None (Some t_boolean) dr ].

(** The comment line a tag contributes: none without a description. *)
Definition tagLine (prefix : string) (d : option string) : list string :=
  if truthy_string d
  then [prefix +:+ normalizeDescription (default "" d)]
  else [].

(** The lead description, when there is one, is the first line. *)
Definition leadLine (d : string) : list string :=
  if truthy_string (Some (normalizeDescription d))
  then [normalizeDescription d]
  else [].

(** What the specification expects of the comments of the folded record:
    two [@param] lines and one [@returnType] line, in that order. *)
Definition hasThreeTagLines (lines : list string) : Prop :=
  ∃ l0 l1 l2 l3 px py r,
    lines = l0 ++ ["@param x" +:+ px] ++ l1 ++ ["@param y" +:+ py] ++ l2
            ++ ["@returnType" +:+ r] ++ l3.

(** The tag parser of the examples: it knows one comment text. *)
Definition exampleDoctrine (text : string) (ast : Annotation)
  : string → Annotation :=
  fun s => if String.eqb s text then ast else mkAnnotation "" [].

Definition foldComment : Comment :=
  mkComment Block "@param x {string} @param y {number} @return {boolean}".

(** *** The post-filter of [parseBody] *)

(** In the specification's words: the attributes classify the definition
    as [Const] and give no const type. *)
Definition constWithoutType (d : Defn) : Prop :=
  ∃ a, def_attributes d = Some a
       ∧ type a = Some AT_Const ∧ constType a = None.

(** ... and such a definition is discarded unless its kind is [Class]. *)
Definition discarded (d : Defn) : Prop :=
  constWithoutType d ∧ def_type d ≠ DT_Class.

#[export] Instance constWithoutType_dec d : Decision (constWithoutType d).
Proof.
  unfold constWithoutType.
  destruct (def_attributes d) as [a|].
  - destruct (decide (type a = Some AT_Const)) as [Ht|Ht].
    + destruct (constType a) as [t|] eqn:Hc.
      * right. intros (a' & [= <-] & _ & Hn). congruence.
      * left. eauto.
    + right. intros (a' & [= <-] & Ht' & _). contradiction.
  - right. intros (a' & [=] & _).
Defined.

#[export] Instance discarded_dec d : Decision (discarded d).
Proof. unfold discarded. apply _. Defined.

(** A tag parser that knows the comments [@const] and
    [@const {number}]. *)
Definition constDoctrine : string → Annotation :=
  fun s =>
    if String.eqb s "@const" then
      mkAnnotation "" [mkTag "const" None None None]
    else if String.eqb s "@const {number}" then
      mkAnnotation "" [mkTag "const" None (Some t_number) None]
    else mkAnnotation "" [].

Definition member (o p : string) : Expression :=
  MemberExpression (Identifier o) (Identifier p).

(** The statements [Foo.BAR = {}] under [@const], a variable
    declaration, [Foo.BAZ = {}] under [@const {number}], and
    [Foo.Cls = class {}] under [@const]. *)
Definition constStatements : list Statement :=
  [ ExpressionStatement
      (AssignmentExpression (member "Foo" "BAR") (ObjectExpression []))
      (Some [mkComment Block "@const"]);
    OtherStatement "VariableDeclaration" None;
    ExpressionStatement
      (AssignmentExpression (member "Foo" "BAZ") (ObjectExpression []))
      (Some [mkComment Block "@const {number}"]);
    ExpressionStatement
      (AssignmentExpression (member "Foo" "Cls") (ClassExpression None []))
      (Some [mkComment Block "@const"]) ].

Definition constAttributes (t : option DType) : Attributes :=
  set_constType t (set_type (Some AT_Const) (emptyAttributes "")).

(** The definitions the three assignments are parsed into. *)
Definition constDefinitions : list Defn :=
  [ ObjectDefinition ["Foo"; "BAR"] [] (Some (constAttributes None));
    ObjectDefinition ["Foo"; "BAZ"] []
      (Some (constAttributes (Some t_number)));
    ClassDefinition ["Foo"; "Cls"] None [] (Some (constAttributes None)) ].

(** [Foo.Bar = class extends Foo.Base { constructor(a) { this.x; }
    static make(...args) {} };] *)
Definition classStatement : Statement :=
  ExpressionStatement
    (AssignmentExpression (member "Foo" "Bar")
       (ClassExpression (Some (member "Foo" "Base"))
          [ Method (Identifier "constructor") [PIdentifier "a"]
              [ExpressionStatement
                 (MemberExpression ThisExpression (Identifier "x")) None]
              "constructor" false None;
            Method (Identifier "make") [PRestElement (PIdentifier "args")]
              [] "method" true None ]))
    None.

(** *** Member chains, tags *)


(** The titles [parseBlockComment] has a case for. *)
Definition recognizedTitle (title : string) : bool :=
  String.eqb title "summary" || String.eqb title "description"
  || String.eqb title "typedef" || String.eqb title "property"
  || String.eqb title "const" || String.eqb title "namespace"
  || String.eqb title "define" || String.eqb title "protected"
  || String.eqb title "type" || String.eqb title "constructor"
  || String.eqb title "enum" || String.eqb title "interface"
  || String.eqb title "param" || String.eqb title "return"
  || String.eqb title "implements" || String.eqb title "extends"
  || String.eqb title "template".

Definition recognizedTitles : list string :=
  [ "summary"; "description"; "typedef"; "property"; "const"; "namespace";
    "define"; "protected"; "type"; "constructor"; "enum"; "interface";
    "param"; "return"; "implements"; "extends"; "template" ].

(** The classification a tag assigns to [attributes.type], if any. *)
Definition classification (tag : Tag) : option AnnotationType :=
  let title := tag_title tag in
  if String.eqb title "typedef" then Some AT_Typedef
  else if String.eqb title "const" || String.eqb title "namespace"
          || String.eqb title "define" then Some AT_Const
  else if String.eqb title "protected" || String.eqb title "type"
  then Some AT_Property
  else if String.eqb title "constructor" then Some AT_Class
  else if String.eqb title "enum" then Some AT_Enum
  else if String.eqb title "interface" then Some AT_Interface
  else if String.eqb title "return" then Some AT_Function
  else None.

(** The classification of the last classifying tag, [init] without one. *)
Definition lastClassification (tags : list Tag)
  (init : option AnnotationType) : option AnnotationType :=
  fold_left
    (fun acc tag =>
       match classification tag with
       | Some c => Some c
       | None => acc
       end)
    tags init.

(** The type the last [@param] tag for [x] gives, [init] without one. *)
Definition lastParamType (x : string) (tags : list Tag)
  (init : option DType) : option DType :=
  fold_left
    (fun acc tag =>
       if String.eqb (tag_title tag) "param" then
         match tag_name tag, tag_type tag with
         | Some n, Some ty => if String.eqb n x then Some ty else acc
         | _, _ => acc
         end
       else acc)
    tags init.

(** A [@param] tag that lacks its name or its type. *)
Definition incompleteParam (tag : Tag) : Prop :=
  tag_title tag = "param"
  ∧ (truthy_string (tag_name tag) = false ∨ tag_type tag = None).

(** A tag parser for the examples of this part. *)
Definition tagsDoctrine : string → Annotation :=
  fun s =>
    if String.eqb s "plain" then
      mkAnnotation "Lead."
        [ mkTag "const" None (Some t_number) None;
          mkTag "param" (Some "x") (Some t_string) None;
          mkTag "param" (Some "x") (Some t_number) (Some "the x");
          mkTag "return" None None None ]
    else if String.eqb s "noisy" then
      mkAnnotation "Lead."
        [ mkTag "export" None None None;
          mkTag "const" None (Some t_number) None;
          mkTag "param" (Some "x") (Some t_string) None;
          mkTag "see" None None (Some "elsewhere");
          mkTag "param" (Some "x") (Some t_number) (Some "the x");
          mkTag "return" None None None ]
    else if String.eqb s "broken" then
      mkAnnotation ""
        [ mkTag "const" None None None;
          mkTag "param" (Some "x") None None;
          mkTag "return" None None None ]
    else mkAnnotation "" [].

(** The attributes of the comment ["plain"]. *)
Definition plainAttributes : Attributes :=
  mkAttributes "Lead." ["Lead."; "@param x the x"] (Some AT_Function)
    None None (Some t_number) None None (Some [("x", t_number)])
    None None None None.


(** What the statement parser with the comment attached makes of a
    statement. *)
Definition annotated (doctrine_parse : string → Annotation)
  (statement : Statement) : result Defn :=
  annotate doctrine_parse (parseStatement doctrine_parse) statement.

(** A method of a class definition as [parseMethodDefinition] builds it:
    a function definition with a single-segment identifier, flags, nested
    definitions and attributes. *)
Definition isMethodDefinition (d : Defn) : Prop :=
  ∃ name params flags definitions attributes,
    d = FunctionDefinition [name] params (Some flags) (Some definitions)
          (Some attributes).

(** A definition as [parseBody] returns it. *)
Definition wellFormedDefinition (d : Defn) : Prop :=
  is_Some (def_attributes d)
  ∧ def_identifier d ≠ []
  ∧ match d with
    | ClassDefinition _ _ methods _ => Forall isMethodDefinition methods
    | _ => True
    end.

End ParseExternsSpec.

(** ** For the node tree *)

Module TreeUtilsSpec.
Import TreeUtils.

(** The store after [getOrCreateNode] has created a node under [name] in
    the map [m], whose entries were [d]. *)
Definition created (s : Store) (m : positive) (d : Dict positive)
  (name : string) : Store :=
  let c := fresh (dom (maps s)) in
  let n := fresh (dom (nodes s)) in
  mkStore (<[m := dict_set d name n]> (<[c := []]> (maps s)))
          (<[n := mkNode name None c]> (nodes s)).

(** [s'] has what [s] has: a map of [s] is a map of [s'] with at least
    the same entries, and the node objects of [s] are unchanged. *)
Definition grows (s s' : Store) : Prop :=
  (∀ m d, maps s !! m = Some d →
          ∃ d', maps s' !! m = Some d'
                ∧ ∀ k v, dict_get d k = Some v → dict_get d' k = Some v)
  ∧ (∀ n o, nodes s !! n = Some o → nodes s' !! n = Some o).

(** The node object at [r], read with everything below it, is the node
    the emitter is given. *)
Inductive represents (s : Store) : positive → Emitter.Node → Prop :=
| represents_node (r : positive) (o : Node) (entries : Dict positive)
    (kids : list (string * Emitter.Node)) :
    nodes s !! r = Some o →
    maps s !! children o = Some entries →
    Forall2 (λ e k, e.1 = k.1 ∧ represents s e.2 k.2) entries kids →
    represents s r (Emitter.mkNode (name o) (definition o) kids).

Definition representsMap (s : Store) (m : positive)
  (tree : Emitter.NodeMap) : Prop :=
  ∃ entries,
    maps s !! m = Some entries
    ∧ Forall2 (λ e k, e.1 = k.1 ∧ represents s e.2 k.2) entries tree.

(** The tree of the single path [A.B.C]. *)
Definition pathTree (A B C : string) : Emitter.NodeMap :=
  [(A, Emitter.mkNode A None
         [(B, Emitter.mkNode B None [(C, Emitter.mkNode C None [])])])].

(** Every entry of a map leads to a node object named by its key, and
    the [children] of every node object is a map of the store. *)
Definition wellFormedStore (s : Store) : Prop :=
  (∀ m d k n, maps s !! m = Some d → dict_get d k = Some n →
              ∃ o, nodes s !! n = Some o ∧ name o = k)
  ∧ (∀ n o, nodes s !! n = Some o → is_Some (maps s !! children o)).

(** A result of the lookup in the store and one of the lookup in the
    tree stand for the same node, or are both [null]. *)
Definition sameNode (s : Store) (r : option positive)
  (t : option Emitter.Node) : Prop :=
  match t with
  | Some node => ∃ n, r = Some n ∧ represents s n node
  | None => r = None
  end.

(** The names [p0], [p1], ... given to the parameters of a function
    type. *)
Definition numberedNames (from count : nat) : list string :=
  map (fun k => "p" +:+ pretty k) (seq from count).

(** A store for the examples: the root holds the typedef [Opts], with the
    properties [size : number] and [cb : function(string, number):
    boolean], and the interface [Shape], whose prototype has the
    constant member [id : string]. *)
Definition t_name (n : string) : DType := NameExpression n.

Definition optsAttributes : Attributes :=
  set_props
    (Some [ mkPropEntry "size" (t_name "number") None;
            mkPropEntry "cb"
              (FunctionType [t_name "string"; t_name "number"]
                 (Some (t_name "boolean")))
              None ])
    (set_type (Some AT_Typedef) (emptyAttributes "")).

Definition shapeAttributes : Attributes :=
  set_type (Some AT_Interface) (emptyAttributes "").

Definition idAttributes : Attributes :=
  set_constType (Some (t_name "string"))
    (set_type (Some AT_Const) (emptyAttributes "")).

Definition exampleStore : Store :=
  mkStore
    (list_to_map
       [ (1%positive, [("Opts", 1%positive); ("Shape", 2%positive)]);
         (2%positive, []);
         (3%positive, [("prototype", 3%positive)]);
         (4%positive, [("id", 4%positive)]);
         (5%positive, []) ])
    (list_to_map
       [ (1%positive,
          mkNode "Opts"
            (Some (PropertyDefinition ["Opts"] (Some optsAttributes)))
            2%positive);
         (2%positive,
          mkNode "Shape"
            (Some (FunctionDefinition ["Shape"] [] None None
                     (Some shapeAttributes)))
            3%positive);
         (3%positive, mkNode "prototype" None 4%positive);
         (4%positive,
          mkNode "id"
            (Some (PropertyDefinition ["Shape"; "prototype"; "id"]
                     (Some idAttributes)))
            5%positive) ]).

(** The same nodes as the emitter is given them. *)
Definition optsDefinition : Defn :=
  PropertyDefinition ["Opts"] (Some optsAttributes).

Definition shapeDefinition : Defn :=
  FunctionDefinition ["Shape"] [] None None (Some shapeAttributes).

Definition idNode : Emitter.Node :=
  Emitter.mkNode "id"
    (Some (PropertyDefinition ["Shape"; "prototype"; "id"]
             (Some idAttributes)))
    [].

Definition optsNode : Emitter.Node :=
  Emitter.mkNode "Opts" (Some optsDefinition) [].

Definition shapeNode : Emitter.Node :=
  Emitter.mkNode "Shape" (Some shapeDefinition)
    [("prototype", Emitter.mkNode "prototype" None [("id", idNode)])].

Definition exampleTree : Emitter.NodeMap :=
  [("Opts", optsNode); ("Shape", shapeNode)].

(** A store holding one empty [Map], the root. *)
Definition emptyRoot : Store := mkStore {[ 1%positive := [] ]} ∅.

End TreeUtilsSpec.

(** ** For the writers and the emitter *)

Module EmitterSpec.
Import Emitter.

(** What the emitter relies on, for any writer. *)
Class WriterLaws (W : Type) `{Writer W} : Prop := {
  level_increaseLevel (w : W) : level (increaseLevel w) = level w + 1;
  level_decreaseLevel (w : W) : level (decreaseLevel w) = level w - 1;
  level_writeLine (str : string) (w w' : W) :
    writeLine str w = Ok w' → level w' = level w;
  writeLine_total (str : string) (w : W) :
    0 ≤ level w → ∃ w', writeLine str w = Ok w'
}.

(** A string of [n] spaces. *)
Fixpoint spaces (n : nat) : string :=
  match n with
  | O => ""
  | S n' => String " "%char (spaces n')
  end.

(** Two versions of [writeNodes] that agree on the children of [node]. *)
Definition agreeBelow {W : Type} `{Writer W} (node : Node)
  (wn1 wn2 : NodeMap → list Node → M (W:=W) unit) : Prop :=
  ∀ root nodes s,
    (∀ c, c ∈ nodes → c ∈ dict_values (children node)) →
    wn1 root nodes s = wn2 root nodes s.

(** A computation that, when it returns, has moved the level by [k]. *)
Definition shifts {W : Type} `{Writer W} {A} (k : Z) (m : M (W:=W) A)
  : Prop :=
  ∀ s a s', m s = (Ok a, s') → level (writer s') = level (writer s) + k.

(** Started at level [b] or deeper, the computation returns. *)
Definition okAbove {W : Type} `{Writer W} {A} (b : Z) (m : M (W:=W) A)
  : Prop :=
  ∀ s, b ≤ level (writer s) → ∃ a s', m s = (Ok a, s').

(** Started at level [b] or deeper, the computation throws [e]. *)
Definition throwsAbove {W : Type} `{Writer W} {A} (b : Z) (e : Error)
  (m : M (W:=W) A) : Prop :=
  ∀ s, b ≤ level (writer s) → ∃ s', m s = (Throw e, s').

(** Whatever the state, the computation throws. *)
Definition throws {W : Type} `{Writer W} {A} (m : M (W:=W) A) : Prop :=
  ∀ s, ∃ e s', m s = (Throw e, s').

(** [attributes.type || definition.type] *)
Definition resolvedKind (d : Defn) (a : Attributes) : string :=
  match type a with
  | Some t => AnnotationType_value t
  | None => DefinitionType_value (def_type d)
  end.

(** The node with an empty [prototype] child added last. *)
Definition withEmptyPrototype (node : Node) : Node :=
  mkNode (name node) (definition node)
    (children node ++ [("prototype", mkNode "prototype" None [])]).

(** *** Example trees *)

(** A type renderer for the examples: a name is rendered as itself,
    anything else as [any]. *)
Definition exampleGenerateType (t : TypeArg) : string :=
  match t with
  | TypeExpr (NameExpression n) => n
  | TypeString s => s
  | _ => "any"
  end.

Definition exampleTypeText (t : DType) : string :=
  match t with
  | NameExpression n => n
  | _ => "[object Object]"
  end.

Definition freshWorld : World StringWriter := mkWorld newStringWriter [].

Definition classified (t : AnnotationType) : Attributes :=
  set_type (Some t) (emptyAttributes "").

(** [/** @enum */ Color = function() {};]: an enum over a function. *)
Definition enumOverFunction : Node :=
  mkNode "Color"
    (Some (FunctionDefinition ["Color"] [] None None
             (Some (classified AT_Enum))))
    [].

(** [/** @enum */ Color = { RED: 0, GREEN: 1, BLUE: 2 };] *)
Definition enumColor : Node :=
  mkNode "Color"
    (Some (ObjectDefinition ["Color"] ["RED"; "GREEN"; "BLUE"]
             (Some (classified AT_Enum))))
    [].

(** [/** @constructor */ Foo = function(a) {};] *)
Definition constructorOnly : Node :=
  mkNode "Foo"
    (Some (FunctionDefinition ["Foo"] ["a"] None None
             (Some (classified AT_Class))))
    [].

(** The class [Foo] with the enum [Foo.Color], which goes to the
    trailing namespace block. *)
Definition classWithNamespace : Node :=
  mkNode "Foo"
    (Some (FunctionDefinition ["Foo"] ["a"] None None
             (Some (classified AT_Class))))
    [("Color", enumColor)].

(** The class [Foo] and [Foo.Bar.baz = function() {}], with [Foo.Bar]
    never declared: the child [Bar] has no definition. *)
Definition classWithBareChild : Node :=
  mkNode "Foo"
    (Some (FunctionDefinition ["Foo"] [] None None
             (Some (classified AT_Class))))
    [("Bar",
      mkNode "Bar" None
        [("baz",
          mkNode "baz"
            (Some (FunctionDefinition ["Foo"; "Bar"; "baz"] [] None None
                     (Some (emptyAttributes ""))))
            [])])].

(** [/** @interface */ Shape = function() {};] with no member. *)
Definition interfaceWithoutPrototype : Node :=
  mkNode "Shape"
    (Some (FunctionDefinition ["Shape"] [] None None
             (Some (classified AT_Interface))))
    [].

(** [/** @return {number} */ Foo.prototype.bar;]: a member declared by a
    bare member expression and classified as a function by its comment. *)
Definition stubAttributes : Attributes :=
  set_returnType (Some (NameExpression "number")) (classified AT_Function).

Definition stubDefinition : Defn :=
  PropertyDefinition ["Foo"; "prototype"; "bar"] (Some stubAttributes).

Definition methodStub : Node := mkNode "bar" (Some stubDefinition) [].

Definition classWithStub : Node :=
  mkNode "Foo"
    (Some (FunctionDefinition ["Foo"] [] None None
             (Some (classified AT_Class))))
    [("prototype", mkNode "prototype" None [("bar", methodStub)])].

(** An interface with a base, a constant member and a method. *)
Definition shapeInterface : Node :=
  mkNode "Shape"
    (Some (FunctionDefinition ["Shape"] [] None None
             (Some (set_extends (Some (NameExpression "Base"))
                      (classified AT_Interface)))))
    [("prototype",
      mkNode "prototype" None
        [("area",
          mkNode "area"
            (Some (FunctionDefinition ["Shape"; "prototype"; "area"]
                     ["unit"] None None
                     (Some (set_comments ["the area"]
                              (set_paramTypes
                                 (Some [("unit", NameExpression "string")])
                                 (set_returnType
                                    (Some (NameExpression "number"))
                                    (classified AT_Function)))))))
            []);
         ("id",
          mkNode "id"
            (Some (PropertyDefinition ["Shape"; "prototype"; "id"]
                     (Some (set_constType (Some (NameExpression "string"))
                              (classified AT_Const)))))
            [])])].

Definition lines (ls : list string) : string :=
  String.concat "" (map (fun l => l +:+ newline) ls).

(** *** One emission, two writers *)

Definition mapWorld {W1 W2 : Type} (h : W1 → W2) (s : World W1)
  : World W2 :=
  mkWorld (h (writer s)) (console s).

(** [h] takes a writer to one that answers every operation alike. *)
Class WriterMorphism {W1 W2 : Type} `{Writer W1} `{Writer W2}
  (h : W1 → W2) : Prop := {
  morphism_level (w : W1) : level (h w) = level w;
  morphism_increaseLevel (w : W1) :
    h (increaseLevel w) = increaseLevel (h w);
  morphism_decreaseLevel (w : W1) :
    h (decreaseLevel w) = decreaseLevel (h w);
  morphism_writeLine (str : string) (w : W1) :
    writeLine str (h w)
    = match writeLine str w with
      | Ok w' => Ok (h w')
      | Throw e => Throw e
      end
}.

(** The run of [m2] from the image of a state is the image of the run
    of [m1]. *)
Definition simulates {W1 W2 : Type} `{Writer W1} `{Writer W2}
  (h : W1 → W2) {A : Type} (m1 : M (W:=W1) A) (m2 : M (W:=W2) A) : Prop :=
  ∀ s, m2 (mapWorld h s) = (fst (m1 s), mapWorld h (snd (m1 s))).

(** What a stream has received, as one string. *)
Definition received (w : StreamWriter) : StringWriter :=
  mkStringWriter (st_level w) (String.concat "" (stream w)).

(** The same stream writer on a stream that already holds [earlier]. *)
Definition after (earlier : list string) (w : StreamWriter)
  : StreamWriter :=
  mkStreamWriter (st_level w) (earlier ++ stream w).

(** *** Failures of an emission *)

Definition isTypeError (e : Error) : Prop :=
  match e with
  | TypeError _ => True
  | _ => False
  end.

(** Started at level [b] or deeper, the computation throws nothing but a
    [TypeError]. *)
Definition typeErrorsAbove {W : Type} `{Writer W} {A} (b : Z)
  (m : M (W:=W) A) : Prop :=
  ∀ s e s', b ≤ level (writer s) → m s = (Throw e, s') → isTypeError e.

(** The kinds [writeNode] has a case for. *)
Definition emittedKinds : list string :=
  ["class"; "interface"; "typedef"; "enum"; "const"; "function"].

(** *** Lines of output *)

(** The chunk [writeLine] passes to the stream at level [n]. *)
Definition indented (n : nat) (str : string) : string :=
  spaces (2 * n) +:+ str +:+ newline.

(** The lines of [writeComments]. *)
Definition commentLines (comments : list string) : list string :=
  match comments with
  | [] => []
  | _ => ["/**"] ++ map (fun comment => " * " +:+ comment) comments
         ++ [" */"]
  end.

(** A stream writer at level [n] that has passed [chunks] to its stream,
    and the console [log]. *)
Definition streaming (n : nat) (chunks : list string)
  (log : list LogEntry) : World StreamWriter :=
  mkWorld (mkStreamWriter (Z.of_nat n) chunks) log.

(** From level [n], on any stream and console, the computation returns:
    it has written the chunks [out], the level is [n'] and nothing was
    logged. *)
Definition writes (m : M (W:=StreamWriter) unit) (n n' : nat)
  (out : list string) : Prop :=
  ∀ chunks log,
    m (streaming n chunks log) = (Ok tt, streaming n' (chunks ++ out) log).

(** The same, back at the level it started from. *)
Definition emits (m : M (W:=StreamWriter) unit) (n : nat)
  (out : list string) : Prop :=
  writes m n n out.

(** The lines of one property of a typedef: its description as a
    comment, when it has one, and its declaration. *)
Definition propLines (generateType : TypeArg → string) (prop : PropEntry)
  : list string :=
  (if truthy_string (prop_description prop)
   then commentLines [default "" (prop_description prop)]
   else [])
  ++ [prop_name prop +:+ ": " +:+ generateType (TypeExpr (prop_type prop))
      +:+ ";"].

(** [/** @type {number} */ shaka.version;] *)
Definition typedProperty : Node :=
  mkNode "version"
    (Some (PropertyDefinition ["shaka"; "version"]
             (Some (set_propType (Some (NameExpression "number"))
                      (classified AT_Property)))))
    [].

(** A typedef of an object with two properties, the first described. *)
Definition optionsTypedef : Node :=
  mkNode "Options"
    (Some (PropertyDefinition ["shaka"; "Options"]
             (Some (set_comments ["The options."]
                      (set_props
                         (Some [ mkPropEntry "size"
                                   (NameExpression "number")
                                   (Some "in bytes");
                                 mkPropEntry "label"
                                   (NameExpression "string") None ])
                         (classified AT_Typedef))))))
    [].


End EmitterSpec.

(** * Properties *)

(** ** Stepping through effectful code *)

Module EffFacts.

Lemma ebind_Ok {S A B} (m : Eff S A) (k : A → Eff S B) s a s1 :
  m s = (Ok a, s1) → ebind m k s = k a s1.
Proof. intros Hm. unfold ebind. rewrite Hm. reflexivity. Qed.

Lemma ebind_Throw {S A B} (m : Eff S A) (k : A → Eff S B) s e s1 :
  m s = (Throw e, s1) → ebind m k s = (Throw e, s1).
Proof. intros Hm. unfold ebind. rewrite Hm. reflexivity. Qed.

Lemma ebind_Ok_inv {S A B} (m : Eff S A) (k : A → Eff S B) s b s2 :
  ebind m k s = (Ok b, s2) →
  ∃ a s1, m s = (Ok a, s1) ∧ k a s1 = (Ok b, s2).
Proof.
  unfold ebind. destruct (m s) as [[a|e] s1]; [eauto | discriminate].
Qed.

Lemma eret_inv {S A} (a b : A) (s s' : S) :
  eret a s = (Ok b, s') → b = a ∧ s' = s.
Proof. unfold eret. intros [= -> ->]. split; reflexivity. Qed.

Lemma emodify_inv {S} (f : S → S) (s s' : S) u :
  emodify f s = (Ok u, s') → s' = f s.
Proof. unfold emodify. intros [= _ <-]. reflexivity. Qed.

End EffFacts.

(** ** Properties of the externs parser *)

Module ParseExternsFacts.
Import ParseExterns ParseExternsSpec.

Lemma AnnotationType_eqb_eq (a b : AnnotationType) :
  AnnotationType_eqb a b = true ↔ a = b.
Proof. destruct a, b; split; (reflexivity || discriminate). Qed.

Lemma DefinitionType_eqb_eq (a b : DefinitionType) :
  DefinitionType_eqb a b = true ↔ a = b.
Proof. destruct a, b; split; (reflexivity || discriminate). Qed.

(** *** Leading comments *)

Section Comments.
Variable doctrine_parse : string → Annotation.

Lemma last_snoc_comment (earlier : list Comment) (comment : Comment) :
  last (earlier ++ [comment]) = Some comment.
Proof. apply last_snoc. Qed.

(** C7.  Of several leading comments only the last one, the closest to
    the statement, is parsed: the result is that of [parseBlockComment] on
    it, whatever the earlier comments are.  A statement without leading
    comments gets the record with empty description and no comment
    lines. *)
Theorem parseLeadingComments_closest_only :
  (∀ (earlier : list Comment) (comment : Comment),
     parseLeadingComments doctrine_parse (Some (earlier ++ [comment]))
     = parseBlockComment doctrine_parse comment)
  ∧ (∃ attributes,
       parseLeadingComments doctrine_parse None = Ok attributes
       ∧ description attributes = ""
       ∧ comments attributes = []
       ∧ type attributes = None).
Proof.
  split.
  - intros earlier comment. unfold parseLeadingComments.
    rewrite last_snoc_comment.
    replace (0 <? Z.of_nat (List.length (earlier ++ [comment]))) with true.
    + reflexivity.
    + symmetry. apply Z.ltb_lt. rewrite length_app. simpl. lia.
  - exists (emptyAttributes ""). repeat split.
Qed.

End Comments.

(** *** The tag fold *)

Section TagFold.
Variable doctrine_parse : string → Annotation.

(** C3, amended.  The fold of the three tags yields [paramTypes] with
    [x : string] then [y : number], the classification [Function] and the
    return type [boolean]; [comments] holds, in tag order, one line for
    each tag that carries a description, after the lead description if
    there is one. *)
Theorem tag_fold_result (comment : Comment) (lead : string)
  (dx dy dr : option string) :
  comment_type comment = Block →
  doctrine_parse (comment_value comment)
  = mkAnnotation lead (foldTags dx dy dr) →
  ∃ attributes,
    parseBlockComment doctrine_parse comment = Ok attributes
    ∧ paramTypes attributes = Some [("x", t_string); ("y", t_number)]
    ∧ type attributes = Some AT_Function
    ∧ returnType attributes = Some t_boolean
    ∧ description attributes = normalizeDescription lead
    ∧ comments attributes
      = leadLine lead ++ tagLine "@param x " dx ++ tagLine "@param y " dy
        ++ tagLine "@returnType " dr.
Proof.
  intros Hblock Hparse.
  unfold parseBlockComment. rewrite Hblock, Hparse. simpl.
  unfold leadLine, tagLine.
  destruct (truthy_string dx), (truthy_string dy), (truthy_string dr);
    simpl;
    destruct (normalizeDescription lead) as [|c rest] eqn:Hlead; simpl;
    eexists; (split; [reflexivity|]); simpl; rewrite ?Hlead;
    repeat split; reflexivity.
Qed.

End TagFold.

Lemma tag_fold_result_witness :
  ∃ attributes,
    parseBlockComment
      (exampleDoctrine (comment_value foldComment)
         (mkAnnotation "" (foldTags (Some "the width") None (Some "ok"))))
      foldComment = Ok attributes
    ∧ paramTypes attributes = Some [("x", t_string); ("y", t_number)]
    ∧ type attributes = Some AT_Function
    ∧ returnType attributes = Some t_boolean
    ∧ description attributes = ""
    ∧ comments attributes = ["@param x the width"; "@returnType ok"].
Proof.
  exact (tag_fold_result
           (exampleDoctrine (comment_value foldComment)
              (mkAnnotation "" (foldTags (Some "the width") None (Some "ok"))))
           foldComment "" (Some "the width") None (Some "ok")
           eq_refl eq_refl).
Defined.

(** C3 as stated fails: the three tags carry no description, so no comment
    line is produced. *)
Lemma tag_fold_no_comment_lines :
  ∃ attributes,
    parseBlockComment
      (exampleDoctrine (comment_value foldComment)
         (mkAnnotation "" (foldTags None None None)))
      foldComment = Ok attributes
    ∧ comments attributes = []
    ∧ ¬ hasThreeTagLines (comments attributes).
Proof.
  eexists. split; [reflexivity|]. split; [reflexivity|].
  intros (l0 & l1 & l2 & l3 & px & py & r & Heq).
  simpl in Heq. destruct l0; discriminate Heq.
Qed.

(** *** The post-filter of [parseBody] *)

Section PostFilter.
Variable doctrine_parse : string → Annotation.

Lemma filter_map_throwing_unfused {A B} (p : A → bool) (f : A → result B)
  (xs : list A) :
  filter_map_throwing p f xs = map_throwing f (List.filter p xs).
Proof.
  induction xs as [|x xs IH]; simpl; [reflexivity|].
  destruct (p x); simpl; rewrite IH; reflexivity.
Qed.

Lemma map_throwing_Forall {A B} (f : A → result B) (P : B → Prop)
  (xs : list A) (ys : list B) :
  (∀ x y, f x = Ok y → P y) →
  map_throwing f xs = Ok ys → Forall P ys.
Proof.
  intros Hf. revert ys.
  induction xs as [|x xs IH]; simpl; intros ys Hys.
  - injection Hys as <-. constructor.
  - destruct (f x) as [y|] eqn:Hy; simpl in Hys; [|discriminate].
    destruct (map_throwing f xs) as [ys'|]; simpl in Hys; [|discriminate].
    injection Hys as <-. constructor; eauto.
Qed.

Lemma annotate_attributes parse statement d :
  annotate doctrine_parse parse statement = Ok d →
  is_Some (def_attributes d).
Proof.
  unfold annotate. destruct (parse statement) as [d0|]; simpl; [|discriminate].
  destruct (parseLeadingComments _ _) as [a|]; simpl; [|discriminate].
  intros [= <-]. destruct d0; simpl; eauto.
Qed.

(** On a definition that has attributes, the callback of the last filter
    does not throw and answers whether the definition is not discarded. *)
Lemma keepDefinition_spec d :
  is_Some (def_attributes d) →
  keepDefinition d = Ok (bool_decide (¬ discarded d)).
Proof.
  intros [a Ha]. unfold keepDefinition.
  destruct (DefinitionType_eqb (def_type d) DT_Class) eqn:Hclass.
  - apply DefinitionType_eqb_eq in Hclass.
    rewrite bool_decide_eq_true_2; [reflexivity|].
    intros [_ Hn]. contradiction.
  - assert (def_type d ≠ DT_Class) as Hn.
    { intros Heq. apply DefinitionType_eqb_eq in Heq. congruence. }
    rewrite Ha. f_equal. symmetry.
    destruct (type a) as [t|] eqn:Ht; simpl.
    + destruct (AnnotationType_eqb t AT_Const) eqn:Hconst; simpl.
      * apply AnnotationType_eqb_eq in Hconst. subst t.
        destruct (constType a) as [ty|] eqn:Hty.
        -- rewrite (bool_decide_eq_true_2 (is_Some (Some ty))) by eauto.
           apply bool_decide_eq_true_2.
           intros [(a' & Ha' & _ & Hnone) _]. congruence.
        -- rewrite (bool_decide_eq_false_2 (is_Some None))
             by (intros [? [=]]).
           apply bool_decide_eq_false_2. intros Hk. apply Hk.
           split; [exists a; auto | assumption].
      * apply bool_decide_eq_true_2.
        intros [(a' & Ha' & Ht' & _) _].
        assert (a' = a) as -> by congruence.
        rewrite Ht in Ht'. injection Ht' as ->. discriminate Hconst.
    + apply bool_decide_eq_true_2.
      intros [(a' & Ha' & Ht' & _) _]. congruence.
Qed.

Lemma filter_throwing_keepDefinition (ds : list Defn) :
  Forall (λ d, is_Some (def_attributes d)) ds →
  filter_throwing keepDefinition ds = Ok (filter (λ d, ¬ discarded d) ds).
Proof.
  induction 1 as [|d ds Hd Hds IH]; [reflexivity|].
  simpl. rewrite (keepDefinition_spec d Hd), IH. simpl.
  rewrite filter_cons. destruct (decide (¬ discarded d)) as [Hk|Hk].
  - rewrite bool_decide_eq_true_2 by assumption. reflexivity.
  - rewrite bool_decide_eq_false_2 by assumption. reflexivity.
Qed.

(** [parseBody] in the shape of the source: filter, map, filter. *)
Lemma parseBody_filter_map_filter (statements : list Statement) :
  parseBody doctrine_parse statements
  = (let* definitions :=
       map_throwing
         (annotate doctrine_parse (parseStatement doctrine_parse))
         (List.filter isExpressionOrFunction statements) in
     Ok (filter (λ d, ¬ discarded d) definitions))%result.
Proof.
  unfold parseBody, parseBodyWith.
  rewrite filter_map_throwing_unfused.
  destruct (map_throwing _ _) as [ds|e] eqn:Hmap; simpl; [|reflexivity].
  apply filter_throwing_keepDefinition.
  eapply map_throwing_Forall; [|exact Hmap].
  intros x y. apply annotate_attributes.
Qed.

(** C2.  Once the statements are parsed into annotated definitions, the
    result of [parseBody] is that sequence, in order, without the
    definitions classified [Const] with no const type whose kind is not
    [Class]: every definition of kind [Class] and every definition that
    is [Const] with an explicit type is kept. *)
Theorem parseBody_discards_untyped_const
  (statements : list Statement) (definitions : list Defn) :
  map_throwing (annotate doctrine_parse (parseStatement doctrine_parse))
    (List.filter isExpressionOrFunction statements) = Ok definitions →
  ∃ kept,
    parseBody doctrine_parse statements = Ok kept
    ∧ kept = filter (λ d, ¬ discarded d) definitions
    ∧ kept `sublist_of` definitions
    ∧ (∀ d, d ∈ kept ↔ d ∈ definitions ∧ ¬ discarded d)
    ∧ (∀ d, d ∈ definitions → def_type d = DT_Class → d ∈ kept)
    ∧ (∀ d a t, d ∈ definitions → def_attributes d = Some a →
                type a = Some AT_Const → constType a = Some t → d ∈ kept).
Proof.
  intros Hmap. eexists. split.
  { rewrite parseBody_filter_map_filter, Hmap. reflexivity. }
  split; [reflexivity|]. split; [apply sublist_filter|].
  split; [|split].
  - intros d. rewrite list_elem_of_filter. tauto.
  - intros d Hin Hclass. apply list_elem_of_filter. split; [|assumption].
    intros [_ Hn]. contradiction.
  - intros d a t Hin Ha Ht Hc. apply list_elem_of_filter.
    split; [|assumption].
    intros [(a' & Ha' & _ & Hnone) _]. congruence.
Qed.

End PostFilter.

Lemma parseBody_discards_untyped_const_witness :
  ∃ kept,
    parseBody constDoctrine constStatements = Ok kept
    ∧ kept = filter (λ d, ¬ discarded d) constDefinitions
    ∧ kept `sublist_of` constDefinitions
    ∧ (∀ d, d ∈ kept ↔ d ∈ constDefinitions ∧ ¬ discarded d)
    ∧ (∀ d, d ∈ constDefinitions → def_type d = DT_Class → d ∈ kept)
    ∧ (∀ d a t, d ∈ constDefinitions → def_attributes d = Some a →
                type a = Some AT_Const → constType a = Some t → d ∈ kept).
Proof.
  exact (parseBody_discards_untyped_const constDoctrine constStatements
           constDefinitions eq_refl).
Defined.

Example parseBody_const_example :
  parseBody constDoctrine constStatements
  = Ok [ ObjectDefinition ["Foo"; "BAZ"] []
           (Some (constAttributes (Some t_number)));
         ClassDefinition ["Foo"; "Cls"] None []
           (Some (constAttributes None)) ].
Proof. reflexivity. Qed.

Example parseBody_class_example :
  parseBody constDoctrine [classStatement]
  = Ok [ ClassDefinition ["Foo"; "Bar"] (Some ["Foo"; "Base"])
           [ FunctionDefinition ["constructor"] ["a"]
               (Some (mkMethodFlags false false true))
               (Some [PropertyDefinition ["this"; "x"]
                        (Some (emptyAttributes ""))])
               (Some (emptyAttributes ""));
             FunctionDefinition ["make"] ["args"]
               (Some (mkMethodFlags true true false))
               (Some []) (Some (emptyAttributes "")) ]
           (Some (emptyAttributes "")) ].
Proof. reflexivity. Qed.

Example parseBody_line_comment_example :
  parseBody constDoctrine
    [ExpressionStatement (member "a" "b") (Some [mkComment Line "x"])]
  = Throw (AssertionError "Expected comment of type Block, got Line").
Proof. reflexivity. Qed.

Example normalizeDescription_example :
  normalizeDescription ("  a " +:+ String "010"%char "  b  ") = "a b".
Proof. reflexivity. Qed.

End ParseExternsFacts.

(** ** Properties of the node tree *)

Module TreeUtilsFacts.
Import TreeUtils TreeUtilsSpec EffFacts.

(** *** Dictionaries *)

Lemma dict_get_set_eq {V} (d : Dict V) (k : string) (v : V) :
  dict_get (dict_set d k v) k = Some v.
Proof.
  induction d as [|[k' v'] d IH]; simpl.
  - rewrite String.eqb_refl. reflexivity.
  - destruct (String.eqb k' k) eqn:Hk; simpl.
    + rewrite String.eqb_refl. reflexivity.
    + rewrite Hk. exact IH.
Qed.

Lemma dict_get_set_ne {V} (d : Dict V) (k k' : string) (v : V) :
  k ≠ k' → dict_get (dict_set d k v) k' = dict_get d k'.
Proof.
  intros Hne. induction d as [|[k0 v0] d IH]; simpl.
  - destruct (String.eqb k k') eqn:Hk; [|reflexivity].
    apply String.eqb_eq in Hk. contradiction.
  - destruct (String.eqb k0 k) eqn:Hk0; simpl.
    + apply String.eqb_eq in Hk0. subst k0.
      destruct (String.eqb k k') eqn:Hk; [|reflexivity].
      apply String.eqb_eq in Hk. contradiction.
    + rewrite IH. reflexivity.
Qed.

Lemma dict_set_absent {V} (d : Dict V) (k : string) (v : V) :
  dict_get d k = None → dict_set d k v = d ++ [(k, v)].
Proof.
  induction d as [|[k' v'] d IH]; simpl; [reflexivity|].
  destruct (String.eqb k' k); [discriminate|].
  intros Hnone. rewrite IH by assumption. reflexivity.
Qed.

(** *** One step: [getOrCreateNode] *)

Lemma fresh_map_ne (s : Store) (m : positive) (d : Dict positive) :
  maps s !! m = Some d → fresh (dom (maps s)) ≠ m.
Proof.
  intros Hm Heq. apply (is_fresh (dom (maps s))).
  rewrite Heq. apply elem_of_dom. eauto.
Qed.

Lemma getOrCreateNode_present s m d name n :
  maps s !! m = Some d → dict_get d name = Some n →
  getOrCreateNode m name s = (Ok n, s).
Proof.
  intros Hm Hn.
  unfold getOrCreateNode, Map_has, Map_get, readMap, ebind, eret, dict_has.
  rewrite Hm, Hn. rewrite Hm, Hn. reflexivity.
Qed.

Lemma getOrCreateNode_absent s m d name :
  maps s !! m = Some d → dict_get d name = None →
  getOrCreateNode m name s
  = (Ok (fresh (dom (nodes s))), created s m d name).
Proof.
  intros Hm Hn.
  unfold getOrCreateNode, Map_has, Map_set, readMap, ebind, eret, dict_has.
  rewrite Hm, Hn. cbn.
  rewrite lookup_insert_ne by (eapply fresh_map_ne; eassumption).
  rewrite Hm. reflexivity.
Qed.

Lemma getOrCreateNode_not_a_map s m name :
  maps s !! m = None →
  getOrCreateNode m name s = (Throw (TypeError "not a Map"), s).
Proof.
  intros Hm.
  unfold getOrCreateNode, Map_has, readMap, ebind. rewrite Hm. reflexivity.
Qed.

(** The three cases, read backwards from a successful call. *)
Lemma getOrCreateNode_inv s m name n s' :
  getOrCreateNode m name s = (Ok n, s') →
  ∃ d, maps s !! m = Some d
       ∧ ((dict_get d name = Some n ∧ s' = s)
          ∨ (dict_get d name = None ∧ n = fresh (dom (nodes s))
             ∧ s' = created s m d name)).
Proof.
  intros Hcall.
  destruct (maps s !! m) as [d|] eqn:Hm.
  - exists d. split; [reflexivity|].
    destruct (dict_get d name) as [n'|] eqn:Hn.
    + rewrite (getOrCreateNode_present s m d name n' Hm Hn) in Hcall.
      injection Hcall as <- <-. left. split; reflexivity.
    + rewrite (getOrCreateNode_absent s m d name Hm Hn) in Hcall.
      injection Hcall as <- <-. right. repeat split; reflexivity.
  - rewrite (getOrCreateNode_not_a_map s m name Hm) in Hcall. discriminate.
Qed.

(** After a successful call the map holds the returned node under the
    name. *)
Lemma getOrCreateNode_post s m name n s' :
  getOrCreateNode m name s = (Ok n, s') →
  ∃ d', maps s' !! m = Some d' ∧ dict_get d' name = Some n.
Proof.
  intros Hcall.
  destruct (getOrCreateNode_inv _ _ _ _ _ Hcall)
    as (d & Hm & [[Hn ->] | (Hn & -> & ->)]).
  - eauto.
  - exists (dict_set d name (fresh (dom (nodes s)))). split.
    + unfold created; cbn. apply lookup_insert_eq.
    + apply dict_get_set_eq.
Qed.

(** *** Paths that exist already *)

Lemma Map_get_inv s m k a s' :
  Map_get m k s = (Ok a, s') →
  s' = s ∧ ∃ d, maps s !! m = Some d ∧ a = dict_get d k.
Proof.
  unfold Map_get, readMap, ebind, eret.
  destruct (maps s !! m) as [d|]; [|discriminate].
  intros [= <- <-]. eauto.
Qed.

Lemma Node_children_inv s node c s' :
  Node_children node s = (Ok c, s') →
  s' = s ∧ ∃ o, nodes s !! node = Some o ∧ c = children o.
Proof.
  unfold Node_children.
  destruct (nodes s !! node) as [o|]; [|discriminate].
  intros [= <- <-]. eauto.
Qed.

Lemma Node_children_some s node o :
  nodes s !! node = Some o → Node_children node s = (Ok (children o), s).
Proof. intros Ho. unfold Node_children. rewrite Ho. reflexivity. Qed.

Lemma getOrCreate_existing_loop (path : list string) :
  ∀ s s1 node0 m n,
    getNodeAtPath_loop path node0 m s = (Ok (Some n), s1) →
    getOrCreateNodeAtPath_loop path node0 m s = (Ok (Some n), s) ∧ s1 = s.
Proof.
  induction path as [|part path IH]; intros s s1 node0 m n Hget.
  - cbn in Hget. apply eret_inv in Hget as [-> ->]. split; reflexivity.
  - cbn [getNodeAtPath_loop] in Hget.
    apply ebind_Ok_inv in Hget as (found & s2 & Hfound & Hrest).
    apply Map_get_inv in Hfound as (-> & d & Hm & ->).
    destruct (dict_get d part) as [n'|] eqn:Hn.
    2: { apply eret_inv in Hrest as [[=] _]. }
    apply ebind_Ok_inv in Hrest as (c & s3 & Hc & Hrest).
    apply Node_children_inv in Hc as (-> & o & Ho & ->).
    apply IH in Hrest as [Hloop ->]. split; [|reflexivity].
    cbn [getOrCreateNodeAtPath_loop].
    rewrite (ebind_Ok _ _ _ _ _ (getOrCreateNode_present s m d part n' Hm Hn)).
    rewrite (ebind_Ok _ _ _ _ _ (Node_children_some s n' o Ho)).
    exact Hloop.
Qed.

(** C9.  On a map of the store [getOrCreateNode] returns a node; a
    second call with the same arguments returns the node of the first
    call and changes nothing in the store; and [getOrCreateNodeAtPath] on
    a path that [getNodeAtPath] already finds returns the node found and
    leaves the store as it is, so no node is created. *)
Theorem getOrCreateNode_idempotent :
  (∀ s m name n s',
     getOrCreateNode m name s = (Ok n, s') →
     getOrCreateNode m name s' = (Ok n, s'))
  ∧ (∀ s s1 root path n,
       path ≠ [] →
       getNodeAtPath root path s = (Ok (Some n), s1) →
       getOrCreateNodeAtPath root path s = (Ok n, s))
  ∧ (∀ s m d name,
       maps s !! m = Some d →
       ∃ n s', getOrCreateNode m name s = (Ok n, s')).
Proof.
  split; [|split].
  - intros s m name n s' Hcall.
    destruct (getOrCreateNode_post _ _ _ _ _ Hcall) as (d' & Hm' & Hn').
    exact (getOrCreateNode_present s' m d' name n Hm' Hn').
  - intros s s1 root path n Hne Hget.
    apply getOrCreate_existing_loop in Hget as [Hloop _].
    unfold getOrCreateNodeAtPath, ebind, elift.
    destruct path as [|part path]; [contradiction|].
    cbn -[getOrCreateNodeAtPath_loop]. rewrite Hloop. reflexivity.
  - intros s m d name Hm.
    destruct (dict_get d name) as [n|] eqn:Hn.
    + exists n, s. apply (getOrCreateNode_present s m d name n Hm Hn).
    + eexists _, _. apply (getOrCreateNode_absent s m d name Hm Hn).
Qed.

(** *** Insertion of a path into an empty root *)

Lemma map_entries_det (s : Store) (m : positive) (d d' : Dict positive) :
  maps s !! m = Some d → maps s !! m = Some d' → d = d'.
Proof. intros Hd Hd'. congruence. Qed.

(** Creating a node in an empty map: what the store holds afterwards. *)
Lemma getOrCreateNode_in_empty s m name :
  maps s !! m = Some [] →
  ∃ n c s',
    getOrCreateNode m name s = (Ok n, s')
    ∧ maps s' !! m = Some [(name, n)]
    ∧ nodes s' !! n = Some (mkNode name None c)
    ∧ maps s' !! c = Some []
    ∧ (∀ m' d', maps s !! m' = Some d' → c ≠ m')
    ∧ (∀ m' d',
         maps s !! m' = Some d' → m' ≠ m → maps s' !! m' = Some d')
    ∧ (∀ n' o, nodes s !! n' = Some o → nodes s' !! n' = Some o).
Proof.
  intros Hm.
  exists (fresh (dom (nodes s))), (fresh (dom (maps s))),
         (created s m [] name).
  assert (∀ m' d', maps s !! m' = Some d' → fresh (dom (maps s)) ≠ m')
    as Hfresh by (intros m' d'; apply fresh_map_ne).
  split; [apply getOrCreateNode_absent; [assumption | reflexivity]|].
  unfold created; cbn. repeat split.
  - apply lookup_insert_eq.
  - apply lookup_insert_eq.
  - rewrite lookup_insert_ne by (symmetry; eapply Hfresh; eassumption).
    apply lookup_insert_eq.
  - assumption.
  - intros m' d' Hm' Hne.
    rewrite lookup_insert_ne by congruence.
    rewrite lookup_insert_ne by (eapply Hfresh; eassumption).
    assumption.
  - intros n' o Hn'. rewrite lookup_insert_ne; [assumption|].
    intros Heq. apply (is_fresh (dom (nodes s))).
    rewrite Heq. apply elem_of_dom. eauto.
Qed.

Lemma Map_get_some s m d k :
  maps s !! m = Some d → Map_get m k s = (Ok (dict_get d k), s).
Proof.
  intros Hm. unfold Map_get, readMap, ebind. rewrite Hm. reflexivity.
Qed.

Lemma Map_get_singleton s m k n :
  maps s !! m = Some [(k, n)] → Map_get m k s = (Ok (Some n), s).
Proof.
  intros Hm. rewrite (Map_get_some s m _ k Hm). cbn.
  rewrite String.eqb_refl. reflexivity.
Qed.

(** *** The store only grows *)

Lemma grows_refl (s : Store) : grows s s.
Proof. split; eauto. Qed.

Lemma grows_trans (s1 s2 s3 : Store) :
  grows s1 s2 → grows s2 s3 → grows s1 s3.
Proof.
  intros [Hm12 Hn12] [Hm23 Hn23]. split.
  - intros m d Hd.
    destruct (Hm12 m d Hd) as (d2 & Hd2 & Hkeys2).
    destruct (Hm23 m d2 Hd2) as (d3 & Hd3 & Hkeys3).
    exists d3. split; [exact Hd3 | eauto].
  - eauto.
Qed.

Lemma created_grows s m d name :
  maps s !! m = Some d → dict_get d name = None →
  grows s (created s m d name).
Proof.
  intros Hm Hn. unfold created. split; cbn.
  - intros m' d' Hm'. destruct (decide (m' = m)) as [->|Hne].
    + rewrite lookup_insert_eq. eexists. split; [reflexivity|].
      intros k v Hk. rewrite (map_entries_det _ _ _ _ Hm' Hm) in Hk.
      rewrite dict_get_set_ne; [exact Hk|].
      intros <-. congruence.
    + rewrite lookup_insert_ne by congruence.
      rewrite lookup_insert_ne by (eapply fresh_map_ne; eassumption).
      eauto.
  - intros n o Hn'. rewrite lookup_insert_ne; [assumption|].
    intros Heq. apply (is_fresh (dom (nodes s))).
    rewrite Heq. apply elem_of_dom. eauto.
Qed.

Lemma getOrCreateNode_grows s m name n s' :
  getOrCreateNode m name s = (Ok n, s') → grows s s'.
Proof.
  intros Hcall.
  destruct (getOrCreateNode_inv _ _ _ _ _ Hcall)
    as (d & Hm & [[_ ->] | (Hn & _ & ->)]).
  - apply grows_refl.
  - apply created_grows; assumption.
Qed.

Lemma getOrCreateNodeAtPath_loop_grows (path : list string) :
  ∀ s node0 m r s',
    getOrCreateNodeAtPath_loop path node0 m s = (Ok r, s') → grows s s'.
Proof.
  induction path as [|part path IH]; intros s node0 m r s' Hrun.
  - apply eret_inv in Hrun as [_ ->]. apply grows_refl.
  - cbn [getOrCreateNodeAtPath_loop] in Hrun.
    apply ebind_Ok_inv in Hrun as (n & s1 & Hn & Hrun).
    apply ebind_Ok_inv in Hrun as (c & s2 & Hc & Hrun).
    apply Node_children_inv in Hc as (-> & _).
    eapply grows_trans; [eapply getOrCreateNode_grows, Hn|].
    eapply IH, Hrun.
Qed.

(** What [getOrCreateNodeAtPath] returns is what [getNodeAtPath] finds
    afterwards, for any path and any store. *)
Lemma getOrCreateNodeAtPath_loop_found (path : list string) :
  ∀ s node0 m r s',
    getOrCreateNodeAtPath_loop path node0 m s = (Ok r, s') →
    getNodeAtPath_loop path node0 m s' = (Ok r, s').
Proof.
  induction path as [|part path IH]; intros s node0 m r s' Hrun.
  - apply eret_inv in Hrun as [-> ->]. reflexivity.
  - cbn [getOrCreateNodeAtPath_loop] in Hrun.
    apply ebind_Ok_inv in Hrun as (n & s1 & Hn & Hrun).
    apply ebind_Ok_inv in Hrun as (c & s2 & Hc & Hrun).
    apply Node_children_inv in Hc as (-> & o & Ho & ->).
    pose proof (getOrCreateNodeAtPath_loop_grows _ _ _ _ _ _ Hrun)
      as [Hmaps Hnodes].
    destruct (getOrCreateNode_post _ _ _ _ _ Hn) as (d1 & Hd1 & Hget1).
    destruct (Hmaps m d1 Hd1) as (d' & Hd' & Hkeys).
    cbn [getNodeAtPath_loop].
    rewrite (ebind_Ok _ _ _ _ _ (Map_get_some s' m d' part Hd')).
    rewrite (Hkeys part n Hget1).
    rewrite (ebind_Ok _ _ _ _ _ (Node_children_some s' n o (Hnodes n o Ho))).
    eapply IH, Hrun.
Qed.

(** X10.  For any path and any store: the node [getOrCreateNodeAtPath]
    returns is the node [getNodeAtPath] finds on that path afterwards, and
    a second [getOrCreateNodeAtPath] returns it again without changing
    the store. *)
Lemma getOrCreateNodeAtPath_found s root path n s' :
  getOrCreateNodeAtPath root path s = (Ok n, s') →
  getNodeAtPath root path s' = (Ok (Some n), s')
  ∧ getOrCreateNodeAtPath root path s' = (Ok n, s').
Proof.
  intros Hrun. unfold getOrCreateNodeAtPath in Hrun.
  apply ebind_Ok_inv in Hrun as ([] & s0 & Hassert & Hrun).
  unfold elift in Hassert.
  destruct path as [|part path]; [discriminate Hassert|].
  injection Hassert as <-.
  apply ebind_Ok_inv in Hrun as (r & s1 & Hloop & Hrun).
  destruct r as [n'|]; [|discriminate Hrun].
  apply eret_inv in Hrun as [-> ->].
  apply getOrCreateNodeAtPath_loop_found in Hloop.
  split; [exact Hloop|].
  apply getOrCreate_existing_loop in Hloop as [Hloop _].
  unfold getOrCreateNodeAtPath.
  rewrite (ebind_Ok _ _ s1 tt s1) by reflexivity.
  rewrite (ebind_Ok _ _ _ _ _ Hloop). reflexivity.
Qed.

(** C6.  Inserting the path [A; B; C] into an empty root map returns a
    node that is found at [root[A].children[B].children[C]]; the nodes
    for [A] and [A.B] are created on the way and carry no definition.
    The tree then consists of this path. *)
Theorem getOrCreateNodeAtPath_round_trip
  (s : Store) (root : positive) (A B C : string) :
  maps s !! root = Some [] →
  ∃ a b c ca cb cc s',
    getOrCreateNodeAtPath root [A; B; C] s = (Ok c, s')
    ∧ maps s' !! root = Some [(A, a)]
    ∧ nodes s' !! a = Some (mkNode A None ca)
    ∧ maps s' !! ca = Some [(B, b)]
    ∧ nodes s' !! b = Some (mkNode B None cb)
    ∧ maps s' !! cb = Some [(C, c)]
    ∧ nodes s' !! c = Some (mkNode C None cc)
    ∧ maps s' !! cc = Some []
    ∧ (nodes s !! a = None ∧ nodes s !! b = None ∧ nodes s !! c = None)
    ∧ getNodeAtPath root [A; B; C] s' = (Ok (Some c), s')
    ∧ representsMap s' root (pathTree A B C).
Proof.
  intros Hroot.
  destruct (getOrCreateNode_in_empty s root A Hroot)
    as (a & ca & s1 & Ha & Hroot1 & Hna1 & Hca1 & Hfresh1 & Hmaps1 & Hnodes1).
  destruct (getOrCreateNode_in_empty s1 ca B Hca1)
    as (b & cb & s2 & Hb & Hca2 & Hnb2 & Hcb2 & Hfresh2 & Hmaps2 & Hnodes2).
  destruct (getOrCreateNode_in_empty s2 cb C Hcb2)
    as (c & cc & s3 & Hc & Hcb3 & Hnc3 & Hcc3 & Hfresh3 & Hmaps3 & Hnodes3).
  assert (ca ≠ root) as Hca_root by (eapply Hfresh1; eassumption).
  assert (cb ≠ ca) as Hcb_ca by (eapply Hfresh2; eassumption).
  assert (maps s2 !! root = Some [(A, a)]) as Hroot2
    by (apply Hmaps2; [assumption | congruence]).
  assert (cb ≠ root) as Hcb_root by (eapply Hfresh2; eassumption).
  assert (maps s3 !! root = Some [(A, a)]) as Hroot3
    by (apply Hmaps3; [assumption | congruence]).
  assert (maps s3 !! ca = Some [(B, b)]) as Hca3
    by (apply Hmaps3; [assumption | congruence]).
  assert (nodes s3 !! a = Some (mkNode A None ca)) as Hna3
    by (apply Hnodes3, Hnodes2; assumption).
  assert (nodes s3 !! b = Some (mkNode B None cb)) as Hnb3
    by (apply Hnodes3; assumption).
  assert (nodes s !! a = None) as Ha0.
  { apply getOrCreateNode_inv in Ha as (d & Hd & [[Hg _] | (_ & -> & _)]).
    - rewrite (map_entries_det _ _ _ _ Hd Hroot) in Hg. discriminate Hg.
    - apply not_elem_of_dom, is_fresh. }
  assert (nodes s1 !! b = None) as Hb1.
  { apply getOrCreateNode_inv in Hb as (d & Hd & [[Hg _] | (_ & -> & _)]).
    - rewrite (map_entries_det _ _ _ _ Hd Hca1) in Hg. discriminate Hg.
    - apply not_elem_of_dom, is_fresh. }
  assert (nodes s2 !! c = None) as Hc2.
  { apply getOrCreateNode_inv in Hc as (d & Hd & [[Hg _] | (_ & -> & _)]).
    - rewrite (map_entries_det _ _ _ _ Hd Hcb2) in Hg. discriminate Hg.
    - apply not_elem_of_dom, is_fresh. }
  assert (∀ {X} (m1 m2 : gmap positive X) k,
            (∀ k' x, m1 !! k' = Some x → m2 !! k' = Some x) →
            m2 !! k = None → m1 !! k = None) as Hback.
  { intros X m1 m2 k Hsub Hnone.
    destruct (m1 !! k) as [x|] eqn:Hk; [|reflexivity].
    apply Hsub in Hk. congruence. }
  exists a, b, c, ca, cb, cc, s3.
  split.
  { assert (getOrCreateNodeAtPath_loop [A; B; C] None root s
            = (Ok (Some c), s3)) as Hloop.
    { cbn [getOrCreateNodeAtPath_loop].
      rewrite (ebind_Ok _ _ _ _ _ Ha).
      rewrite (ebind_Ok _ _ _ _ _ (Node_children_some s1 a _ Hna1)).
      rewrite (ebind_Ok _ _ _ _ _ Hb).
      rewrite (ebind_Ok _ _ _ _ _ (Node_children_some s2 b _ Hnb2)).
      rewrite (ebind_Ok _ _ _ _ _ Hc).
      rewrite (ebind_Ok _ _ _ _ _ (Node_children_some s3 c _ Hnc3)).
      reflexivity. }
    unfold getOrCreateNodeAtPath.
    rewrite (ebind_Ok _ _ s tt s) by reflexivity.
    rewrite (ebind_Ok _ _ _ _ _ Hloop). reflexivity. }
  do 7 (split; [assumption|]).
  split.
  { split; [assumption|].
    split; [eapply Hback; [exact Hnodes1 | assumption]|].
    eapply Hback; [exact Hnodes1|].
    eapply Hback; [exact Hnodes2 | assumption]. }
  split.
  { unfold getNodeAtPath. cbn [getNodeAtPath_loop].
    rewrite (ebind_Ok _ _ _ _ _ (Map_get_singleton s3 root A a Hroot3)).
    rewrite (ebind_Ok _ _ _ _ _ (Node_children_some s3 a _ Hna3)).
    cbn [children].
    rewrite (ebind_Ok _ _ _ _ _ (Map_get_singleton s3 ca B b Hca3)).
    rewrite (ebind_Ok _ _ _ _ _ (Node_children_some s3 b _ Hnb3)).
    cbn [children].
    rewrite (ebind_Ok _ _ _ _ _ (Map_get_singleton s3 cb C c Hcb3)).
    rewrite (ebind_Ok _ _ _ _ _ (Node_children_some s3 c _ Hnc3)).
    reflexivity. }
  assert (represents s3 c (Emitter.mkNode C None [])) as Hrc.
  { apply (represents_node s3 c (mkNode C None cc) [] [] Hnc3 Hcc3).
    constructor. }
  assert (represents s3 b
            (Emitter.mkNode B None [(C, Emitter.mkNode C None [])]))
    as Hrb.
  { apply (represents_node s3 b (mkNode B None cb) [(C, c)] _ Hnb3 Hcb3).
    repeat constructor. exact Hrc. }
  exists [(A, a)]. split; [assumption|].
  repeat constructor. cbn [snd].
  apply (represents_node s3 a (mkNode A None ca) [(B, b)] _ Hna3 Hca3).
  repeat constructor. exact Hrb.
Qed.

End TreeUtilsFacts.

Module TreeUtilsExamples.
Import TreeUtils TreeUtilsSpec TreeUtilsFacts.

Lemma getOrCreateNodeAtPath_round_trip_witness :
  ∃ a b c ca cb cc s',
    getOrCreateNodeAtPath 1%positive ["Foo"; "Bar"; "baz"] emptyRoot
    = (Ok c, s')
    ∧ maps s' !! 1%positive = Some [("Foo", a)]
    ∧ nodes s' !! a = Some (mkNode "Foo" None ca)
    ∧ maps s' !! ca = Some [("Bar", b)]
    ∧ nodes s' !! b = Some (mkNode "Bar" None cb)
    ∧ maps s' !! cb = Some [("baz", c)]
    ∧ nodes s' !! c = Some (mkNode "baz" None cc)
    ∧ maps s' !! cc = Some []
    ∧ (nodes emptyRoot !! a = None ∧ nodes emptyRoot !! b = None
       ∧ nodes emptyRoot !! c = None)
    ∧ getNodeAtPath 1%positive ["Foo"; "Bar"; "baz"] s' = (Ok (Some c), s')
    ∧ representsMap s' 1%positive (pathTree "Foo" "Bar" "baz").
Proof.
  apply (getOrCreateNodeAtPath_round_trip emptyRoot 1%positive
           "Foo" "Bar" "baz").
  vm_compute. reflexivity.
Defined.

Example getOrCreateNodeAtPath_example :
  fst (getOrCreateNodeAtPath 1%positive ["Foo"; "Bar"; "baz"] emptyRoot)
  = Ok 3%positive.
Proof. vm_compute. reflexivity. Qed.

Lemma getOrCreateNode_idempotent_witness :
  (∃ n s',
     getOrCreateNode 1%positive "Foo" emptyRoot = (Ok n, s')
     ∧ getOrCreateNode 1%positive "Foo" s' = (Ok n, s'))
  ∧ (∃ n s',
       getNodeAtPath 1%positive ["Foo"] s' = (Ok (Some n), s')
       ∧ getOrCreateNodeAtPath 1%positive ["Foo"] s' = (Ok n, s')).
Proof.
  destruct (getOrCreateNode 1%positive "Foo" emptyRoot) as [r s'] eqn:Hcall.
  assert (r = Ok 1%positive) as -> by (vm_compute in Hcall; congruence).
  assert (getNodeAtPath 1%positive ["Foo"] s' = (Ok (Some 1%positive), s'))
    as Hfound.
  { vm_compute in Hcall. injection Hcall as <-. vm_compute. reflexivity. }
  split.
  - exists 1%positive, s'. split; [reflexivity|].
    exact (proj1 getOrCreateNode_idempotent _ _ _ _ _ Hcall).
  - exists 1%positive, s'. split; [exact Hfound|].
    apply (proj1 (proj2 getOrCreateNode_idempotent) s' s' 1%positive
             ["Foo"] 1%positive); [discriminate | exact Hfound].
Defined.

End TreeUtilsExamples.

(** ** Properties of the writers *)

Module WriterFacts.
Import Emitter EmitterSpec.

Lemma repeat_two_spaces (n : nat) : repeat_string "  " n = spaces (2 * n).
Proof.
  induction n as [|n IH]; [reflexivity|].
  replace (2 * S n)%nat with (S (S (2 * n))) by lia.
  simpl repeat_string. rewrite IH. reflexivity.
Qed.

Lemma getIndentation_nonneg (l : Z) :
  0 ≤ l → getIndentation l = Ok (spaces (2 * Z.to_nat l)).
Proof.
  intros Hl. unfold getIndentation, repeat.
  destruct (l <? 0) eqn:Hneg; [apply Z.ltb_lt in Hneg; lia|].
  rewrite repeat_two_spaces. reflexivity.
Qed.

Lemma getIndentation_negative (l : Z) :
  l < 0 → getIndentation l = Throw (RangeError "Invalid count value").
Proof.
  intros Hl. unfold getIndentation, repeat.
  destruct (l <? 0) eqn:Hneg; [reflexivity|].
  apply Z.ltb_ge in Hneg. lia.
Qed.

Lemma spaces_length (n : nat) : String.length (spaces n) = n.
Proof. induction n as [|n IH]; simpl; congruence. Qed.



(** No line is written at a negative level. *)
Lemma writeLine_negative_level (str : string) :
  (∀ w : StringWriter, level w < 0 →
     writeLine str w = Throw (RangeError "Invalid count value"))
  ∧ (∀ w : StreamWriter, level w < 0 →
       writeLine str w = Throw (RangeError "Invalid count value")).
Proof.
  split; intros w Hw; cbn in *.
  - unfold StringWriter_writeLine.
    rewrite getIndentation_negative by assumption. reflexivity.
  - unfold StreamWriter_writeLine.
    rewrite getIndentation_negative by assumption. reflexivity.
Qed.

#[export] Instance StringWriter_laws : WriterLaws StringWriter.
Proof.
  split; cbn.
  - reflexivity.
  - reflexivity.
  - intros str w w'. unfold StringWriter_writeLine.
    destruct (getIndentation (sw_level w)); cbn; [|discriminate].
    intros [= <-]. reflexivity.
  - intros str w Hw. unfold StringWriter_writeLine.
    rewrite getIndentation_nonneg by assumption. cbn. eauto.
Qed.

#[export] Instance StreamWriter_laws : WriterLaws StreamWriter.
Proof.
  split; cbn.
  - reflexivity.
  - reflexivity.
  - intros str w w'. unfold StreamWriter_writeLine.
    destruct (getIndentation (st_level w)); cbn; [|discriminate].
    intros [= <-]. reflexivity.
  - intros str w Hw. unfold StreamWriter_writeLine.
    rewrite getIndentation_nonneg by assumption. cbn. eauto.
Qed.

End WriterFacts.

(** ** Properties of the emitter *)

Module EmitterFacts.
Import Emitter EmitterSpec EffFacts WriterFacts.

(** *** Extensionality of the monadic combinators *)

Lemma ebind_ext {S A B} (m : Eff S A) (k1 k2 : A → Eff S B) (s : S) :
  (∀ a s1, m s = (Ok a, s1) → k1 a s1 = k2 a s1) →
  ebind m k1 s = ebind m k2 s.
Proof.
  intros Hk. unfold ebind. destruct (m s) as [[a|e] s1]; [|reflexivity].
  apply Hk. reflexivity.
Qed.

Lemma ebind_cong {S A B} (m1 m2 : Eff S A) (k : A → Eff S B) (s : S) :
  m1 s = m2 s → ebind m1 k s = ebind m2 k s.
Proof. intros Hm. unfold ebind. rewrite Hm. reflexivity. Qed.

Lemma forEach_ext {S A} (f g : A → Eff S unit) (xs : list A) :
  (∀ x s, x ∈ xs → f x s = g x s) →
  ∀ s, forEach f xs s = forEach g xs s.
Proof.
  induction xs as [|x xs IH]; intros Hfg s; [reflexivity|].
  cbn [forEach]. unfold ebind.
  rewrite (Hfg x s) by apply list_elem_of_here.
  destruct (g x s) as [[[]|e] s1]; [|reflexivity].
  apply IH. intros y s2 Hy. apply Hfg. apply list_elem_of_further, Hy.
Qed.

Lemma forEach_app {S A} (f : A → Eff S unit) (xs ys : list A) (s : S) :
  forEach f (xs ++ ys) s = ebind (forEach f xs) (fun _ => forEach f ys) s.
Proof.
  revert s. induction xs as [|x xs IH]; intros s; [reflexivity|].
  cbn [forEach app]. unfold ebind.
  destruct (f x s) as [[[]|e] s1]; [|reflexivity].
  rewrite IH. reflexivity.
Qed.

(** *** Heights *)

Lemma height_child (node child : Node) :
  child ∈ dict_values (children node) → (height child < height node)%nat.
Proof.
  destruct node as [n d cs]. cbn [children height]. unfold dict_values.
  induction cs as [|[k c] cs IH]; cbn [map snd].
  - intros Hin. inversion Hin.
  - intros Hin. apply elem_of_cons in Hin as [-> | Hin].
    + lia.
    + specialize (IH Hin). lia.
Qed.

Lemma forEachAcc_invariant {S A Acc} (body : Acc → A → Eff S Acc)
  (P : Acc → Prop) (xs : list A) :
  (∀ acc x s acc' s',
     x ∈ xs → P acc → body acc x s = (Ok acc', s') → P acc') →
  ∀ acc s acc' s',
    P acc → forEachAcc body acc xs s = (Ok acc', s') → P acc'.
Proof.
  induction xs as [|x xs IH]; intros Hbody acc s acc' s' Hacc Hrun.
  - apply eret_inv in Hrun as [-> _]. assumption.
  - cbn [forEachAcc] in Hrun.
    apply ebind_Ok_inv in Hrun as (acc1 & s1 & Hx & Hrun).
    eapply IH; [| |exact Hrun].
    + intros acc0 y s0 acc0' s0' Hy. apply Hbody.
      apply list_elem_of_further, Hy.
    + eapply Hbody; [apply list_elem_of_here | exact Hacc | exact Hx].
Qed.

(** *** The recursion of [writeNode] *)

Section Recursion.
Context {W : Type} `{Writer W}.
Variable generateType : TypeArg → string.
Variable typeText : DType → string.

Ltac ext_step :=
  first
    [ apply ebind_ext; intros ? ? ?
    | match goal with
      | |- (match ?x with _ => _ end) _ = _ => destruct x
      | |- (let (_, _) := ?x in _) _ = _ => destruct x
      | |- (if ?c then _ else _) _ = _ => destruct c
      end ].

(** The members gathered as [others] are children of the node. *)
Lemma gatherStatic_others (children : list Node) (s : World W)
  sp sm others s' :
  forEachAcc gatherStatic ([], [], []) children s
  = (Ok (sp, sm, others), s') →
  ∀ c, c ∈ others → c ∈ children.
Proof.
  intros Hrun.
  apply (forEachAcc_invariant gatherStatic
           (λ acc, ∀ c, c ∈ acc.2 → c ∈ children) children)
    with (acc := ([], [], [])) (s := s) (acc' := (sp, sm, others)) (s' := s');
    [| intros c Hc; inversion Hc | exact Hrun].
  intros [[sp0 sm0] o0] x s0 acc1 s1 Hx Hacc Hbody c. cbn in Hacc.
  unfold gatherStatic in Hbody.
  destruct (String.eqb (name x) "prototype").
  { apply eret_inv in Hbody as [-> _]. apply Hacc. }
  apply ebind_Ok_inv in Hbody as (u & s2 & _ & Hbody).
  apply ebind_Ok_inv in Hbody as (d & s3 & _ & Hbody).
  apply ebind_Ok_inv in Hbody as (t & s4 & _ & Hbody).
  repeat match type of Hbody with
         | (if ?b then _ else _) _ = _ => destruct b
         end;
    apply eret_inv in Hbody as [-> _]; cbn; try apply Hacc.
  intros Hc. apply elem_of_app in Hc as [Hc | Hc]; [apply Hacc, Hc|].
  apply list_elem_of_singleton in Hc as ->. exact Hx.
Qed.

Lemma gatherOthers_others (children : list Node) (s : World W) others s' :
  forEachAcc gatherOthers [] children s = (Ok others, s') →
  ∀ c, c ∈ others → c ∈ children.
Proof.
  intros Hrun.
  apply (forEachAcc_invariant gatherOthers
           (λ acc, ∀ c, c ∈ acc → c ∈ children) children)
    with (acc := []) (s := s) (acc' := others) (s' := s');
    [| intros c Hc; inversion Hc | exact Hrun].
  intros o0 x s0 acc1 s1 Hx Hacc Hbody c.
  unfold gatherOthers in Hbody.
  destruct (String.eqb (name x) "prototype").
  { apply eret_inv in Hbody as [-> _]. apply Hacc. }
  apply ebind_Ok_inv in Hbody as (u & s2 & _ & Hbody).
  apply eret_inv in Hbody as [-> _].
  intros Hc. apply elem_of_app in Hc as [Hc | Hc]; [apply Hacc, Hc|].
  apply list_elem_of_singleton in Hc as ->. exact Hx.
Qed.

Lemma writeOthers_ext wn1 wn2 root node others s :
  agreeBelow node wn1 wn2 →
  (∀ c, c ∈ others → c ∈ dict_values (children node)) →
  writeOthers wn1 root node others s = writeOthers wn2 root node others s.
Proof.
  intros Hagree Hsub. unfold writeOthers.
  destruct (0 <? Z.of_nat (List.length others)); [|reflexivity].
  do 2 ext_step. apply ebind_cong.
  apply Hagree, Hsub.
Qed.

Lemma writeClassNode_ext wn1 wn2 root node s :
  agreeBelow node wn1 wn2 →
  writeClassNode generateType typeText wn1 root node s
  = writeClassNode generateType typeText wn2 root node s.
Proof.
  intros Hagree. unfold writeClassNode.
  apply ebind_ext. intros [[sp sm] others] s1 Hgather.
  repeat ext_step.
  apply writeOthers_ext; [exact Hagree|].
  eapply gatherStatic_others. exact Hgather.
Qed.

Lemma writeInterfaceNode_ext wn1 wn2 root node s :
  agreeBelow node wn1 wn2 →
  writeInterfaceNode generateType typeText wn1 root node s
  = writeInterfaceNode generateType typeText wn2 root node s.
Proof.
  intros Hagree. unfold writeInterfaceNode.
  do 2 ext_step.
  apply ebind_ext. intros others s3 Hgather.
  repeat ext_step; try reflexivity.
  apply writeOthers_ext; [exact Hagree|].
  eapply gatherOthers_others. exact Hgather.
Qed.

Lemma writeNodeBody_ext wn1 wn2 root node s :
  agreeBelow node wn1 wn2 →
  writeNodeBody generateType typeText wn1 root node s
  = writeNodeBody generateType typeText wn2 root node s.
Proof.
  intros Hagree. unfold writeNodeBody.
  destruct (definition node) as [d|].
  - do 2 ext_step.
    destruct (String.eqb _ "class"); [apply writeClassNode_ext, Hagree|].
    destruct (String.eqb _ "interface");
      [apply writeInterfaceNode_ext, Hagree|].
    reflexivity.
  - do 3 ext_step. apply ebind_cong.
    apply Hagree. auto.
Qed.

(** Any bound above the height gives the same run. *)
Lemma writeNodeBounded_stable (b1 : nat) :
  ∀ b2 root node s,
    (height node < b1)%nat → (height node < b2)%nat →
    writeNodeBounded generateType typeText b1 root node s
    = writeNodeBounded generateType typeText b2 root node s.
Proof.
  induction b1 as [|b1 IH]; intros b2 root node s Hb1 Hb2; [lia|].
  destruct b2 as [|b2]; [lia|].
  cbn [writeNodeBounded]. apply writeNodeBody_ext.
  intros r nodes s0 Hsub. apply forEach_ext.
  intros c s1 Hc. apply Hsub, height_child in Hc.
  apply IH; lia.
Qed.

(** [writeNode] satisfies the equation of the source: its body, run with
    [writeNodes]. *)
Lemma writeNode_unfold root node s :
  writeNode generateType typeText root node s
  = writeNodeBody generateType typeText
      (writeNodes generateType typeText) root node s.
Proof.
  unfold writeNode. cbn [writeNodeBounded]. apply writeNodeBody_ext.
  intros r nodes s0 Hsub. unfold writeNodes. apply forEach_ext.
  intros c s1 Hc. apply Hsub, height_child in Hc.
  unfold writeNode. apply writeNodeBounded_stable; lia.
Qed.

Lemma writeNodes_cons root node nodes s :
  writeNodes generateType typeText root (node :: nodes) s
  = ebind (writeNode generateType typeText root node)
      (fun _ => writeNodes generateType typeText root nodes) s.
Proof. reflexivity. Qed.

End Recursion.

(** *** The indentation level across an emission *)

Section Levels.
Context {W : Type} `{WriterLaws W}.
Variable generateType : TypeArg → string.
Variable typeText : DType → string.

Lemma shifts_ret {A} (a : A) : shifts 0 (eret a).
Proof. intros s b s' Hrun. apply eret_inv in Hrun as [_ ->]. lia. Qed.

Lemma shifts_throw {A} (k : Z) (e : Error) : shifts (A:=A) k (ethrow e).
Proof. intros s b s' Hrun. discriminate Hrun. Qed.

Lemma shifts_bind {A B} (k1 k2 k : Z) (m : M A) (f : A → M B) :
  shifts k1 m → (∀ a, shifts k2 (f a)) → k = k1 + k2 →
  shifts k (ebind m f).
Proof.
  intros Hm Hf -> s b s' Hrun.
  apply ebind_Ok_inv in Hrun as (a & s1 & Hrun1 & Hrun2).
  apply Hm in Hrun1. apply Hf in Hrun2. lia.
Qed.

Lemma shifts_writeLine (str : string) : shifts 0 (writer_writeLine str).
Proof.
  intros s [] s'. unfold writer_writeLine.
  destruct (writeLine str (writer s)) as [w|e] eqn:Hw; [|discriminate].
  intros [= <-]. cbn. rewrite (level_writeLine str _ _ Hw). lia.
Qed.

Lemma shifts_increaseLevel : shifts 1 writer_increaseLevel.
Proof.
  intros s [] s' Hrun. apply emodify_inv in Hrun as ->. cbn.
  apply level_increaseLevel.
Qed.

Lemma shifts_decreaseLevel : shifts (-1) writer_decreaseLevel.
Proof.
  intros s [] s' Hrun. apply emodify_inv in Hrun as ->. cbn.
  rewrite level_decreaseLevel. lia.
Qed.

Lemma shifts_level : shifts 0 writer_level.
Proof. intros s l s' [= _ <-]. lia. Qed.

Lemma shifts_console_assert (cond : bool) (message : string) :
  shifts 0 (console_assert cond message).
Proof.
  unfold console_assert. destruct cond; [apply shifts_ret|].
  intros s [] s' Hrun. apply emodify_inv in Hrun as ->. cbn. lia.
Qed.

Lemma shifts_console_error (message : string) :
  shifts 0 (console_error message).
Proof. intros s [] s' Hrun. apply emodify_inv in Hrun as ->. cbn. lia. Qed.

Lemma shifts_the_definition (node : Node) : shifts 0 (the_definition node).
Proof.
  unfold the_definition. destruct (definition node);
    [apply shifts_ret | apply shifts_throw].
Qed.

Lemma shifts_the_attributes (d : Defn) : shifts 0 (the_attributes d).
Proof.
  unfold the_attributes. destruct (def_attributes d);
    [apply shifts_ret | apply shifts_throw].
Qed.

Lemma shifts_forEach {A} (body : A → M unit) (xs : list A) :
  (∀ x, shifts 0 (body x)) → shifts 0 (forEach body xs).
Proof.
  intros Hbody. induction xs as [|x xs IH]; cbn [forEach].
  - apply shifts_ret.
  - eapply shifts_bind; [apply Hbody | intros _; exact IH | reflexivity].
Qed.

Lemma shifts_forEachAcc {A Acc} (body : Acc → A → M Acc) (xs : list A) :
  (∀ acc x, shifts 0 (body acc x)) →
  ∀ acc, shifts 0 (forEachAcc body acc xs).
Proof.
  intros Hbody. induction xs as [|x xs IH]; intros acc; cbn [forEachAcc].
  - apply shifts_ret.
  - eapply shifts_bind; [apply Hbody | intros acc'; apply IH | reflexivity].
Qed.

Create HintDb levels.

Hint Resolve shifts_ret shifts_throw shifts_writeLine shifts_increaseLevel
  shifts_decreaseLevel shifts_level shifts_console_assert
  shifts_console_error shifts_the_definition shifts_the_attributes
  : levels.

(** One step through a computation: split a bind, enter a branch, or
    close a leaf. *)
Ltac levels_step :=
  match goal with
  | |- shifts _ (ebind _ _) => eapply shifts_bind; [| intros ? |]
  | |- shifts _ (match ?x with _ => _ end) => destruct x
  | |- shifts _ (let (_, _) := ?x in _) => destruct x
  | |- shifts _ (if ?c then _ else _) => destruct c
  | |- shifts _ (forEach _ _) => apply shifts_forEach; intros ?
  | |- shifts _ (forEachAcc _ _ _) => apply shifts_forEachAcc; intros ? ?
  | |- shifts _ _ => solve [eauto with levels]
  | |- _ = _ => reflexivity
  end.

Ltac levels := repeat levels_step.

Lemma shifts_resolvedType (d : Defn) : shifts 0 (resolvedType d).
Proof. unfold resolvedType. levels. Qed.

Lemma shifts_writeComments (comments : list string) :
  shifts 0 (writeComments comments).
Proof. unfold writeComments. levels. Qed.

Hint Resolve shifts_resolvedType shifts_writeComments : levels.

Lemma shifts_writeFunctionNode node keyword isConstructor :
  shifts 0 (writeFunctionNode generateType node keyword isConstructor).
Proof. unfold writeFunctionNode. levels. Qed.

Lemma shifts_writeProperty prefix propNode :
  shifts 0 (writeProperty generateType prefix propNode).
Proof. unfold writeProperty. levels. Qed.

Lemma shifts_gatherStatic acc child : shifts 0 (gatherStatic acc child).
Proof. unfold gatherStatic. levels. Qed.

Lemma shifts_gatherPrototype what acc child :
  shifts 0 (gatherPrototype what acc child).
Proof. unfold gatherPrototype. levels. Qed.

Lemma shifts_gatherOthers others child : shifts 0 (gatherOthers others child).
Proof. unfold gatherOthers. levels. Qed.

Hint Resolve shifts_writeFunctionNode shifts_writeProperty
  shifts_gatherStatic shifts_gatherPrototype shifts_gatherOthers : levels.

Lemma shifts_writeTypedefNode root node :
  shifts 0 (writeTypedefNode generateType root node).
Proof. unfold writeTypedefNode. levels. Qed.

Lemma shifts_writeEnumNode node : shifts 0 (writeEnumNode node).
Proof. unfold writeEnumNode. levels. Qed.

Hint Resolve shifts_writeTypedefNode shifts_writeEnumNode : levels.

Section Callback.
Variable writeNodes : NodeMap → list Node → M (W:=W) unit.
Hypothesis shifts_writeNodes : ∀ root nodes, shifts 0 (writeNodes root nodes).

Hint Resolve shifts_writeNodes : levels.

Lemma shifts_writeOthers root node others :
  shifts 0 (writeOthers writeNodes root node others).
Proof. unfold writeOthers. levels. Qed.

Hint Resolve shifts_writeOthers : levels.

Lemma shifts_writeClassNode root node :
  shifts 0 (writeClassNode generateType typeText writeNodes root node).
Proof. unfold writeClassNode. levels. Qed.

Lemma shifts_writeInterfaceNode root node :
  shifts 0 (writeInterfaceNode generateType typeText writeNodes root node).
Proof. unfold writeInterfaceNode. levels. Qed.

Hint Resolve shifts_writeClassNode shifts_writeInterfaceNode : levels.

Lemma shifts_writeNodeBody root node :
  shifts 0 (writeNodeBody generateType typeText writeNodes root node).
Proof. unfold writeNodeBody. levels. Qed.

End Callback.

Lemma shifts_writeNodeBounded (bound : nat) :
  ∀ root node,
    shifts 0 (writeNodeBounded generateType typeText bound root node).
Proof.
  induction bound as [|bound IH]; intros root node; cbn [writeNodeBounded].
  - apply shifts_throw.
  - apply shifts_writeNodeBody. intros r nodes.
    apply shifts_forEach. intros c. apply IH.
Qed.

Lemma shifts_writeNode root node :
  shifts 0 (writeNode generateType typeText root node).
Proof. apply shifts_writeNodeBounded. Qed.


(** *** Runs that return, runs that throw *)

Lemma okAbove_ret {A} (b : Z) (a : A) : okAbove b (eret a).
Proof. intros s _. exists a, s. reflexivity. Qed.

Lemma okAbove_bind {A B} (b k1 : Z) (m : M A) (f : A → M B) :
  okAbove b m → shifts k1 m → (∀ a, okAbove (b + k1) (f a)) →
  okAbove b (ebind m f).
Proof.
  intros Hm Hk Hf s Hs.
  destruct (Hm s Hs) as (a & s1 & Hrun).
  rewrite (ebind_Ok _ _ _ _ _ Hrun). apply Hf.
  apply Hk in Hrun. lia.
Qed.

Lemma okAbove_writeLine (b : Z) (str : string) :
  0 ≤ b → okAbove b (writer_writeLine str).
Proof.
  intros Hb s Hs. unfold writer_writeLine.
  destruct (writeLine_total str (writer s)) as [w Hw]; [lia|].
  rewrite Hw. eauto.
Qed.

Lemma okAbove_modify (b : Z) (f : World W → World W) :
  okAbove b (emodify f).
Proof. intros s _. exists tt, (f s). reflexivity. Qed.

Lemma okAbove_level (b : Z) : okAbove b writer_level.
Proof. intros s _. eexists _, _. reflexivity. Qed.

Lemma okAbove_console_assert (b : Z) cond message :
  okAbove b (console_assert cond message).
Proof.
  unfold console_assert. destruct cond;
    [apply okAbove_ret | apply okAbove_modify].
Qed.

Lemma okAbove_forEach {A} (b : Z) (body : A → M unit) (xs : list A) :
  (∀ x, shifts 0 (body x)) → (∀ x, x ∈ xs → okAbove b (body x)) →
  okAbove b (forEach body xs).
Proof.
  intros Hshift. induction xs as [|x xs IH]; intros Hbody; cbn [forEach].
  - apply okAbove_ret.
  - eapply okAbove_bind;
      [apply Hbody, list_elem_of_here | apply Hshift |].
    intros _. replace (b + 0) with b by lia.
    apply IH. intros y Hy. apply Hbody, list_elem_of_further, Hy.
Qed.

Lemma throwsAbove_throw {A} (b : Z) (e : Error) :
  throwsAbove (A:=A) b e (ethrow e).
Proof. intros s _. exists s. reflexivity. Qed.

Lemma throwsAbove_bind {A B} (b k1 : Z) e (m : M A) (f : A → M B) :
  okAbove b m → shifts k1 m → (∀ a, throwsAbove (b + k1) e (f a)) →
  throwsAbove b e (ebind m f).
Proof.
  intros Hm Hk Hf s Hs.
  destruct (Hm s Hs) as (a & s1 & Hrun).
  rewrite (ebind_Ok _ _ _ _ _ Hrun). apply Hf.
  apply Hk in Hrun. lia.
Qed.

Lemma throws_throw {A} (e : Error) : throws (A:=A) (ethrow e).
Proof. intros s. exists e, s. reflexivity. Qed.

Lemma throws_bind {A B} (m : M A) (f : A → M B) :
  (∀ a, throws (f a)) → throws (ebind m f).
Proof.
  intros Hf s. unfold ebind.
  destruct (m s) as [[a|e] s1]; [apply Hf | eauto].
Qed.

Lemma throws_bind_left {A B} (m : M A) (f : A → M B) :
  throws m → throws (ebind m f).
Proof.
  intros Hm s. destruct (Hm s) as (e & s1 & Hrun).
  rewrite (ebind_Throw _ _ _ _ _ Hrun). eauto.
Qed.

Lemma throwsAbove_bind_left {A B} (b : Z) e (m : M A) (f : A → M B) :
  throwsAbove b e m → throwsAbove b e (ebind m f).
Proof.
  intros Hm s Hs. destruct (Hm s Hs) as (s1 & Hrun).
  rewrite (ebind_Throw _ _ _ _ _ Hrun). eauto.
Qed.

Lemma okAbove_writeComments (b : Z) (comments : list string) :
  0 ≤ b → okAbove b (writeComments comments).
Proof.
  intros Hb. unfold writeComments.
  destruct (0 <? Z.of_nat (List.length comments)); [|apply okAbove_ret].
  eapply okAbove_bind;
    [apply okAbove_writeLine, Hb | apply shifts_writeLine | intros _].
  eapply okAbove_bind;
    [| apply shifts_forEach; intros c; apply shifts_writeLine | intros _].
  - apply okAbove_forEach; [intros c; apply shifts_writeLine|].
    intros c _. apply okAbove_writeLine. lia.
  - apply okAbove_writeLine. lia.
Qed.

Hint Resolve okAbove_ret okAbove_modify okAbove_level
  okAbove_console_assert throwsAbove_throw : levels.

(** One step towards [okAbove] or [throwsAbove]: the first part of a bind
    returns and its shift is known. *)
Ltac runs_step :=
  match goal with
  | |- context [ebind (eret ?a) ?k] =>
      change (ebind (eret a) k) with (k a); cbv beta
  | |- throwsAbove _ _ (ebind (ethrow _) _) =>
      apply throwsAbove_bind_left, throwsAbove_throw
  | |- okAbove _ (writeComments _) => apply okAbove_writeComments; lia
  | |- okAbove _ (ebind _ _) =>
      eapply okAbove_bind; [| solve [levels] | intros ?]
  | |- throwsAbove _ _ (ebind _ _) =>
      eapply throwsAbove_bind; [| solve [levels] | intros ?]
  | |- okAbove _ (writer_writeLine _) => apply okAbove_writeLine; lia
  | |- okAbove _ writer_increaseLevel => apply okAbove_modify
  | |- okAbove _ writer_decreaseLevel => apply okAbove_modify
  | |- okAbove _ (console_error _) => apply okAbove_modify
  | |- okAbove _ (if ?c then _ else _) => destruct c
  | |- okAbove _ (match ?x with _ => _ end) => destruct x
  | |- okAbove _ (forEach _ _) =>
      apply okAbove_forEach; [intros ?; solve [levels] | intros ? ?]
  | |- okAbove _ _ => solve [eauto with levels]
  | |- throwsAbove _ _ _ => solve [eauto with levels]
  end.

Ltac runs := repeat runs_step.

(** [ebind (eret a) k] is [k a]. *)
Ltac bind_ret :=
  repeat match goal with
         | |- context [ebind (eret ?a) ?k] =>
             change (ebind (eret a) k) with (k a); cbv beta iota
         end.

Lemma the_definition_some node d :
  definition node = Some d → the_definition (W:=W) node = eret d.
Proof. intros Hd. unfold the_definition. rewrite Hd. reflexivity. Qed.

Lemma the_attributes_some d a :
  def_attributes d = Some a → the_attributes (W:=W) d = eret a.
Proof. intros Ha. unfold the_attributes. rewrite Ha. reflexivity. Qed.

(** *** Dispatch of [writeNode] *)

Lemma writeNode_dispatch root node d a (s : World W) :
  definition node = Some d → def_attributes d = Some a →
  writeNode generateType typeText root node s
  = (let type := resolvedKind d a in
     if String.eqb type "class" then
       writeClassNode generateType typeText
         (writeNodes generateType typeText) root node
     else if String.eqb type "interface" then
       writeInterfaceNode generateType typeText
         (writeNodes generateType typeText) root node
     else if String.eqb type "typedef" then
       writeTypedefNode generateType root node
     else if String.eqb type "enum" then writeEnumNode node
     else if String.eqb type "const" then
       (run writeComments (comments a) in
        writer_writeLine
          ("const " +:+ name node +:+ ": "
           +:+ generateType (optionalType (constType a)) +:+ ";"))%eff
     else if String.eqb type "function" then
       writeFunctionNode generateType node (Some "function") false
     else console_error ("Unexpected definition type " +:+ type)) s.
Proof.
  intros Hd Ha. rewrite writeNode_unfold. unfold writeNodeBody.
  rewrite Hd. unfold resolvedType, the_attributes. rewrite Ha.
  reflexivity.
Qed.

(** *** Enum nodes *)

Lemma def_props_not_object (d : Defn) :
  def_type d ≠ DT_Object → def_props d = None.
Proof. destruct d; cbn; intros Hne; [reflexivity | contradiction | ..];
  reflexivity. Qed.

Lemma writeEnumNode_throws node d :
  definition node = Some d → def_type d ≠ DT_Object →
  throws (writeEnumNode node).
Proof.
  intros Hd Hkind. unfold writeEnumNode, the_definition.
  rewrite Hd. bind_ret. rewrite (def_props_not_object d Hkind).
  repeat first [ apply throws_bind_left, throws_throw
               | apply throws_bind; intros ? ].
Qed.

Lemma writeEnumNode_props_error node d a :
  definition node = Some d → def_attributes d = Some a →
  def_type d ≠ DT_Object →
  throwsAbove 0 (TypeError "definition.props is not iterable")
    (writeEnumNode node).
Proof.
  intros Hd Ha Hkind. unfold writeEnumNode, the_definition, the_attributes.
  rewrite Hd. bind_ret. rewrite Ha, (def_props_not_object d Hkind).
  runs.
Qed.

(** *** Interfaces and classes without a prototype child *)

Lemma gatherOthers_runs (xs : list Node) :
  ∀ acc (s : World W),
    ∃ acc' s', forEachAcc gatherOthers acc xs s = (Ok acc', s')
               ∧ writer s' = writer s.
Proof.
  induction xs as [|x xs IH]; intros acc s.
  - exists acc, s. split; reflexivity.
  - cbn [forEachAcc]. unfold gatherOthers at 1.
    destruct (String.eqb (name x) "prototype").
    + change (ebind (eret acc) ?k) with (k acc). cbv beta. apply IH.
    + unfold console_assert.
      destruct (bool_decide (is_Some (definition x))).
      * change (ebind (eret tt) ?k) with (k tt). cbv beta.
        change (ebind (eret ?a) ?k) with (k a). cbv beta. apply IH.
      * destruct (IH (acc ++ [x])
                    (mkWorld (writer s)
                       (console s
                        ++ [AssertionFailed
                              ("Unexpected child without definition in "
                               +:+ "interface definition:")])))
          as (acc' & s' & Hrun & Hw).
        exists acc', s'. split; [|exact Hw].
        unfold ebind, emodify, eret. cbn. exact Hrun.
Qed.

Lemma writeInterfaceNode_no_prototype wn root node d a (s : World W) :
  definition node = Some d → def_attributes d = Some a →
  dict_get (children node) "prototype" = None →
  ∃ s',
    writeInterfaceNode generateType typeText wn root node s
    = (Throw (TypeError "Cannot read properties of undefined"), s')
    ∧ writer s' = writer s.
Proof.
  intros Hd Ha Hproto.
  unfold writeInterfaceNode, the_definition, the_attributes.
  rewrite Hd, Hproto. bind_ret. rewrite Ha. bind_ret.
  destruct (gatherOthers_runs (dict_values (children node)) [] s)
    as (others & s' & Hrun & Hw).
  exists s'. split; [|exact Hw].
  rewrite (ebind_Ok _ _ _ _ _ Hrun). reflexivity.
Qed.

Lemma dict_get_app_absent {V} (d1 d2 : Dict V) (k : string) :
  dict_get d1 k = None → dict_get (d1 ++ d2) k = dict_get d2 k.
Proof.
  induction d1 as [|[k' v] d1 IH]; cbn; [reflexivity|].
  destruct (String.eqb k' k); [discriminate | exact IH].
Qed.

Lemma forEachAcc_snoc_skip {S A Acc} (body : Acc → A → Eff S Acc)
  (xs : list A) (x : A) :
  (∀ acc, body acc x = eret acc) →
  ∀ acc s, forEachAcc body acc (xs ++ [x]) s = forEachAcc body acc xs s.
Proof.
  intros Hskip. induction xs as [|y xs IH]; intros acc s.
  - cbn. rewrite Hskip. reflexivity.
  - cbn [app forEachAcc]. apply ebind_ext. intros acc' s' _. apply IH.
Qed.

Lemma writeClassNode_default_prototype wn root node (s : World W) :
  dict_get (children node) "prototype" = None →
  writeClassNode generateType typeText wn root (withEmptyPrototype node) s
  = writeClassNode generateType typeText wn root node s.
Proof.
  intros Hproto. unfold writeClassNode, withEmptyPrototype.
  cbn [children name definition].
  rewrite (dict_get_app_absent _ _ _ Hproto), Hproto.
  cbn [dict_get]. rewrite String.eqb_refl. cbn [children].
  unfold dict_values at 1. rewrite map_app. cbn [map snd].
  unfold ebind at 1. rewrite forEachAcc_snoc_skip.
  - reflexivity.
  - intros [[sp sm] others]. reflexivity.
Qed.

Lemma writeClassNode_constructor_only wn root node d a ps :
  children node = [] → definition node = Some d →
  def_attributes d = Some a → def_params d = Some ps →
  okAbove 0 (writeClassNode generateType typeText wn root node).
Proof.
  intros Hc Hd Ha Hps.
  unfold writeClassNode. rewrite Hc.
  cbn [dict_get dict_values map forEachAcc]. bind_ret.
  rewrite (the_definition_some _ _ Hd). bind_ret.
  rewrite (the_attributes_some _ _ Ha). bind_ret.
  cbn [forEach]. unfold writeOthers, writeFunctionNode.
  cbn [List.length]. change (0 <? Z.of_nat 0) with false.
  rewrite (the_definition_some _ _ Hd). bind_ret.
  rewrite (the_attributes_some _ _ Ha). bind_ret.
  rewrite Hps. runs.
Qed.

(** *** Prototype members *)

Lemma gatherPrototype_structural what props methods child d a
  (s : World W) :
  definition child = Some d → def_attributes d = Some a →
  ∃ s',
    gatherPrototype what (props, methods) child s
    = (Ok match def_type d with
          | DT_Property => (props ++ [child], methods)
          | DT_Function => (props, methods ++ [child])
          | _ => (props, methods)
          end, s')
    ∧ writer s' = writer s.
Proof.
  intros Hd Ha.
  unfold gatherPrototype, the_definition, resolvedType, the_attributes,
    console_assert.
  rewrite Hd. bind_ret. rewrite Ha.
  destruct d; cbn in *; eexists; split; reflexivity.
Qed.

End Levels.

Example generateTypeDefinitions_enum :
  fst (generateTypeDefinitions exampleGenerateType exampleTypeText
         [("Color", enumColor)])
  = Ok (lines ["enum Color {"; "  RED,"; "  GREEN,"; "  BLUE,"; "}"]).
Proof. vm_compute. reflexivity. Qed.

Example generateTypeDefinitions_class_namespace :
  fst (generateTypeDefinitions exampleGenerateType exampleTypeText
         [("Foo", classWithNamespace); ("Color", enumColor)])
  = Ok (lines [ "class Foo {"; "  constructor(a: any);"; "}";
                "namespace Foo {"; "  enum Color {"; "    RED,";
                "    GREEN,"; "    BLUE,"; "  }"; "}";
                "enum Color {"; "  RED,"; "  GREEN,"; "  BLUE,"; "}" ]).
Proof. vm_compute. reflexivity. Qed.

Example generateTypeDefinitions_interface :
  fst (generateTypeDefinitions exampleGenerateType exampleTypeText
         [("ns", mkNode "ns" None [("Shape", shapeInterface)])])
  = Ok (lines [ "declare namespace ns {";
                "  interface Shape extends Base {";
                "    readonly id: string;";
                "    /**"; "     * the area"; "     */";
                "    area(unit: string): number;";
                "  }"; "}" ]).
Proof. vm_compute. reflexivity. Qed.

(** *** The claims about emission *)

(** C1.  The loop over the prototype members switches on the structural
    kind, not on the resolved kind: the member [bar], whose resolved kind
    is [function], is put with the data of the class or interface and is
    written as a property.  The loop over the static members, which
    switches on the resolved kind, puts the same node with the methods. *)
Theorem prototype_member_follows_structural_kind :
  resolvedKind stubDefinition stubAttributes = "function"
  ∧ gatherPrototype "class" ([], []) methodStub freshWorld
    = (Ok ([methodStub], []), freshWorld)
  ∧ gatherPrototype "interface" ([], []) methodStub freshWorld
    = (Ok ([methodStub], []), freshWorld)
  ∧ gatherStatic ([], [], []) methodStub freshWorld
    = (Ok ([], [methodStub], []), freshWorld)
  ∧ fst (generateTypeDefinitions exampleGenerateType exampleTypeText
           [("Foo", classWithStub)])
    = Ok (lines ["class Foo {"; "  bar: any;"; "  constructor();"; "}"]).
Proof. repeat split; vm_compute; reflexivity. Qed.

(** C4.  A node classified as an enum whose definition is not an object
    cannot be emitted: [writeNode] throws, from a writer at level zero or
    deeper with the [TypeError] of iterating the missing [props]; the
    emission of any sequence of nodes that contains it throws as well, and
    the nodes after it are not processed. *)
Theorem enum_over_non_object_is_fatal {W : Type} `{WriterLaws W}
  (generateType : TypeArg → string) (typeText : DType → string)
  (root : NodeMap) (node : Node) (d : Defn) (a : Attributes) :
  definition node = Some d → def_attributes d = Some a →
  type a = Some AT_Enum → def_type d ≠ DT_Object →
  (∀ s : World W,
     ∃ e s', writeNode generateType typeText root node s = (Throw e, s'))
  ∧ (∀ s : World W,
       0 ≤ level (writer s) →
       ∃ s', writeNode generateType typeText root node s
             = (Throw (TypeError "definition.props is not iterable"), s'))
  ∧ (∀ (before after : list Node) (s : World W),
       (∃ e s', writeNodes generateType typeText root
                  (before ++ node :: after) s = (Throw e, s'))
       ∧ writeNodes generateType typeText root (before ++ node :: after) s
         = writeNodes generateType typeText root (before ++ [node]) s).
Proof.
  intros Hd Ha Ht Hkind.
  assert (∀ s : World W,
            writeNode generateType typeText root node s
            = writeEnumNode node s) as Hdispatch.
  { intros s. rewrite (writeNode_dispatch _ _ _ _ d a s Hd Ha).
    unfold resolvedKind. rewrite Ht. reflexivity. }
  assert (∀ s : World W,
            ∃ e s', writeNode generateType typeText root node s
                    = (Throw e, s')) as Hthrows.
  { intros s. rewrite Hdispatch. apply (writeEnumNode_throws node d Hd Hkind). }
  split; [exact Hthrows|]. split.
  - intros s Hs. rewrite Hdispatch.
    apply (writeEnumNode_props_error node d a Hd Ha Hkind s Hs).
  - intros before after s. unfold writeNodes.
    assert (∀ rest (s1 : World W),
              ∃ e s',
                forEach (writeNode generateType typeText root)
                  (node :: rest) s1 = (Throw e, s')
                ∧ forEach (writeNode generateType typeText root) [node] s1
                  = (Throw e, s')) as Hhead.
    { intros rest s1. cbn [forEach].
      destruct (Hthrows s1) as (e & s2 & Hrun).
      rewrite !(ebind_Throw _ _ _ _ _ Hrun). eauto. }
    rewrite !forEach_app.
    destruct (forEach (writeNode generateType typeText root) before s)
      as [[[]|e] s1] eqn:Hbefore.
    + rewrite !(ebind_Ok _ _ _ _ _ Hbefore).
      destruct (Hhead after s1) as (e & s2 & -> & ->). eauto.
    + rewrite !(ebind_Throw _ _ _ _ _ Hbefore). eauto.
Qed.

(** C5, amended.  When the emission of a node returns, the level of the
    writer is what it was before, so the next line gets the indentation
    the line before the node had. *)
Theorem writeNode_restores_level {W : Type} `{WriterLaws W}
  (generateType : TypeArg → string) (typeText : DType → string)
  (root : NodeMap) (node : Node) (s s' : World W) :
  writeNode generateType typeText root node s = (Ok tt, s') →
  level (writer s') = level (writer s)
  ∧ getIndentation (level (writer s')) = getIndentation (level (writer s)).
Proof.
  intros Hrun. apply shifts_writeNode in Hrun.
  assert (level (writer s') = level (writer s)) as Heq by lia.
  split; [exact Heq | rewrite Heq; reflexivity].
Qed.

Lemma writeNode_restores_level_witness :
  level (writer (snd (writeNode exampleGenerateType exampleTypeText []
                        classWithNamespace freshWorld)))
  = level (writer freshWorld)
  ∧ getIndentation
      (level (writer (snd (writeNode exampleGenerateType exampleTypeText []
                             classWithNamespace freshWorld))))
    = getIndentation (level (writer freshWorld)).
Proof.
  apply (writeNode_restores_level exampleGenerateType exampleTypeText []
           classWithNamespace freshWorld).
  vm_compute. reflexivity.
Defined.

(** C5 as stated fails: the emission of the enum over a function throws
    after the level was increased, and the level stays increased. *)
Lemma writeNode_level_after_throw :
  fst (writeNode exampleGenerateType exampleTypeText []
         enumOverFunction freshWorld)
  = Throw (TypeError "definition.props is not iterable")
  ∧ level (writer (snd (writeNode exampleGenerateType exampleTypeText []
                          enumOverFunction freshWorld))) = 1
  ∧ level (writer freshWorld) = 0.
Proof. repeat split; vm_compute; reflexivity. Qed.

(** C10, amended.  For a node without a [prototype] child: emitted as an
    interface it throws, before anything is written, because the children
    of the missing prototype are read; emitted as a class it is written
    as the same node with an empty prototype, and a class that consists
    of its constructor only is emitted successfully. *)
Theorem missing_prototype_interface_and_class {W : Type} `{WriterLaws W}
  (generateType : TypeArg → string) (typeText : DType → string)
  (root : NodeMap) (node : Node) (d : Defn) (a : Attributes) :
  definition node = Some d → def_attributes d = Some a →
  dict_get (children node) "prototype" = None →
  (resolvedKind d a = "interface" →
   ∀ s : World W,
     ∃ s', writeNode generateType typeText root node s
           = (Throw (TypeError "Cannot read properties of undefined"), s')
           ∧ writer s' = writer s)
  ∧ (resolvedKind d a = "class" →
     ∀ s : World W,
       writeNode generateType typeText root (withEmptyPrototype node) s
       = writeNode generateType typeText root node s)
  ∧ (resolvedKind d a = "class" → children node = [] →
     ∀ params, def_params d = Some params →
     ∀ s : World W, 0 ≤ level (writer s) →
       ∃ s', writeNode generateType typeText root node s = (Ok tt, s')).
Proof.
  intros Hd Ha Hproto. split; [|split].
  - intros Hkind s. rewrite (writeNode_dispatch _ _ _ _ d a s Hd Ha).
    cbv zeta. rewrite Hkind. cbn [String.eqb Ascii.eqb Bool.eqb].
    apply (writeInterfaceNode_no_prototype _ _ _ _ _ d a s Hd Ha Hproto).
  - intros Hkind s.
    rewrite (writeNode_dispatch _ _ _ (withEmptyPrototype node) d a s Hd Ha).
    rewrite (writeNode_dispatch _ _ _ node d a s Hd Ha).
    cbv zeta. rewrite Hkind. cbn [String.eqb Ascii.eqb Bool.eqb].
    apply writeClassNode_default_prototype, Hproto.
  - intros Hkind Hchildren params Hparams s Hs.
    rewrite (writeNode_dispatch _ _ _ _ d a s Hd Ha).
    cbv zeta. rewrite Hkind. cbn [String.eqb Ascii.eqb Bool.eqb].
    destruct (writeClassNode_constructor_only generateType typeText
                (writeNodes generateType typeText) root node d a params
                Hchildren Hd Ha Hparams s Hs) as ([] & s' & Hrun).
    eauto.
Qed.

Lemma missing_prototype_interface_and_class_witness :
  (∃ s', writeNode exampleGenerateType exampleTypeText []
           interfaceWithoutPrototype freshWorld
         = (Throw (TypeError "Cannot read properties of undefined"), s')
         ∧ writer s' = writer freshWorld)
  ∧ (writeNode exampleGenerateType exampleTypeText []
       (withEmptyPrototype constructorOnly) freshWorld
     = writeNode exampleGenerateType exampleTypeText []
         constructorOnly freshWorld)
  ∧ (∃ s', writeNode exampleGenerateType exampleTypeText []
             constructorOnly freshWorld = (Ok tt, s')).
Proof.
  split; [|split].
  - refine (proj1 (missing_prototype_interface_and_class
                     exampleGenerateType exampleTypeText []
                     interfaceWithoutPrototype _ _ eq_refl eq_refl eq_refl)
              eq_refl freshWorld).
  - refine (proj1 (proj2 (missing_prototype_interface_and_class
                            exampleGenerateType exampleTypeText []
                            constructorOnly _ _ eq_refl eq_refl eq_refl))
              eq_refl freshWorld).
  - refine (proj2 (proj2 (missing_prototype_interface_and_class
                            exampleGenerateType exampleTypeText []
                            constructorOnly _ _ eq_refl eq_refl eq_refl))
              eq_refl eq_refl ["a"] eq_refl freshWorld _).
    vm_compute. discriminate.
Defined.

(** C10 as stated fails: a class without a [prototype] child is not
    always emitted successfully.  Reading the attributes of the child
    [Bar], which has no definition, throws. *)
Lemma class_without_prototype_may_throw :
  dict_get (children classWithBareChild) "prototype" = None
  ∧ fst (writeNode exampleGenerateType exampleTypeText []
           classWithBareChild freshWorld)
    = Throw (TypeError "Cannot read properties of null").
Proof. split; vm_compute; reflexivity. Qed.

Lemma enum_over_non_object_is_fatal_witness :
  (∃ e s', writeNode exampleGenerateType exampleTypeText []
             enumOverFunction freshWorld = (Throw e, s'))
  ∧ (∃ s', writeNode exampleGenerateType exampleTypeText []
             enumOverFunction freshWorld
           = (Throw (TypeError "definition.props is not iterable"), s'))
  ∧ (∃ e s', writeNodes exampleGenerateType exampleTypeText []
               ([constructorOnly] ++ enumOverFunction :: [enumColor])
               freshWorld = (Throw e, s'))
  ∧ writeNodes exampleGenerateType exampleTypeText []
      ([constructorOnly] ++ enumOverFunction :: [enumColor]) freshWorld
    = writeNodes exampleGenerateType exampleTypeText []
        ([constructorOnly] ++ [enumOverFunction]) freshWorld.
Proof.
  assert (def_type (FunctionDefinition ["Color"] [] None None
                      (Some (classified AT_Enum))) ≠ DT_Object) as Hkind
    by (vm_compute; discriminate).
  destruct (enum_over_non_object_is_fatal (W:=StringWriter)
              exampleGenerateType exampleTypeText [] enumOverFunction _ _
              eq_refl eq_refl eq_refl Hkind)
    as (Hthrows & Herror & Hlist).
  split; [apply Hthrows|].
  split; [apply Herror; vm_compute; discriminate|].
  destruct (Hlist [constructorOnly] [enumColor] freshWorld)
    as [Hall Hsame].
  split; [exact Hall | exact Hsame].
Defined.

Example generateTypeDefinitions_enum_fatal :
  generateTypeDefinitions exampleGenerateType exampleTypeText
    [("Color", enumOverFunction); ("Foo", constructorOnly)]
  = (Throw (TypeError "definition.props is not iterable"),
     mkWorld (mkStringWriter 1 (lines ["enum Color {"]))
       [AssertionFailed
          "Expected enum Color to be defined with an object, got function"]).
Proof. vm_compute. reflexivity. Qed.

End EmitterFacts.

(** * Further properties *)

(** ** Of the externs parser *)

Module ParseExternsExtra.
Import ParseExterns ParseExternsSpec ParseExternsFacts.

Lemma rbind_Ok_inv {A B} (m : result A) (k : A → result B) (b : B) :
  rbind m k = Ok b → ∃ a, m = Ok a ∧ k a = Ok b.
Proof. destruct m as [a|e]; cbn; [eauto | discriminate]. Qed.

(** *** Member paths *)






Lemma staticMemberExpressionToPath_nonempty (e : Expression)
  (path : list string) :
  staticMemberExpressionToPath e = Ok path → path ≠ [].
Proof.
  destruct e as [n| |v|o p|ps b|ps|sc b|l r|t]; cbn; try discriminate.
  - intros [= <-]. discriminate.
  - destruct p; try discriminate.
    destruct o; try discriminate.
    + intros [= <-]. discriminate.
    + intros [= <-]. discriminate.
    + intros Hpath. apply rbind_Ok_inv in Hpath as (path' & _ & [= <-]).
      destruct path'; discriminate.
Qed.

(** *** Arrays *)

Lemma map_throwing_app {A B} (f : A → result B) (xs ys : list A) :
  map_throwing f (xs ++ ys)
  = (let* a := map_throwing f xs in
     let* b := map_throwing f ys in
     Ok (a ++ b))%result.
Proof.
  induction xs as [|x xs IH]; cbn.
  - destruct (map_throwing f ys); reflexivity.
  - destruct (f x) as [y|e]; cbn; [|reflexivity].
    rewrite IH. destruct (map_throwing f xs) as [a|e]; cbn; [|reflexivity].
    destruct (map_throwing f ys); reflexivity.
Qed.

Lemma map_throwing_length {A B} (f : A → result B) (xs : list A)
  (ys : list B) :
  map_throwing f xs = Ok ys → List.length ys = List.length xs.
Proof.
  revert ys. induction xs as [|x xs IH]; cbn; intros ys Hys.
  - injection Hys as <-. reflexivity.
  - apply rbind_Ok_inv in Hys as (y & _ & Hys).
    apply rbind_Ok_inv in Hys as (ys' & Hxs & [= <-]).
    cbn. rewrite (IH ys' Hxs). reflexivity.
Qed.

Lemma map_throwing_throws {A B} (f : A → result B) (xs : list A) (x : A)
  (e : Error) :
  x ∈ xs → f x = Throw e → ∃ e', map_throwing f xs = Throw e'.
Proof.
  intros Hin Hx. induction xs as [|y xs IH]; [inversion Hin|].
  apply elem_of_cons in Hin as [<- | Hin]; cbn.
  - rewrite Hx. eauto.
  - destruct (f y) as [b|e1]; cbn; [|eauto].
    destruct (IH Hin) as [e' ->]. eauto.
Qed.

(** *** Statements *)

Section Statements.
Variable doctrine_parse : string → Annotation.

Lemma parseMethodDefinition_shape (md : MethodDefinition) (d : Defn) :
  parseMethodDefinition doctrine_parse md = Ok d → isMethodDefinition d.
Proof.
  destruct md as [key params body kind static comments].
  destruct key; cbn; try discriminate.
  intros Hd.
  apply rbind_Ok_inv in Hd as (ps & _ & Hd).
  apply rbind_Ok_inv in Hd as (ds & _ & Hd).
  apply rbind_Ok_inv in Hd as (a & _ & [= <-]).
  unfold isMethodDefinition. eauto 10.
Qed.

Lemma parseStatement_shape (statement : Statement) (d : Defn) :
  parseStatement doctrine_parse statement = Ok d →
  def_attributes d = None
  ∧ def_identifier d ≠ []
  ∧ match d with
    | ClassDefinition _ _ methods _ => Forall isMethodDefinition methods
    | _ => True
    end.
Proof.
  destruct statement as [e c | id ps b c | t c]; cbn; [| |discriminate].
  - destruct e as [n| |v|o p|ps b|ps|sc b|l r|t]; try discriminate.
    + unfold parseMemberExpression. intros Hd.
      apply rbind_Ok_inv in Hd as (path & Hpath & [= <-]).
      apply staticMemberExpressionToPath_nonempty in Hpath. cbn. auto.
    + destruct r as [n| |v|o' p'|ps b|ps|sc b|l' r'|t]; cbn;
        destruct l as [n'| |v'|o p|ps' b'|ps'|sc' b'|l'' r''|t'];
        try discriminate; intros Hd;
        apply rbind_Ok_inv in Hd as (path & Hpath & Hd);
        apply staticMemberExpressionToPath_nonempty in Hpath;
        try discriminate.
      * apply rbind_Ok_inv in Hd as (names & _ & [= <-]). cbn. auto.
      * apply rbind_Ok_inv in Hd as (names & _ & [= <-]). cbn. auto.
      * apply rbind_Ok_inv in Hd as (super & _ & Hd).
        apply rbind_Ok_inv in Hd as (ms & Hms & [= <-]). cbn.
        repeat split; [assumption|].
        eapply map_throwing_Forall; [|exact Hms].
        intros md m. apply parseMethodDefinition_shape.
  - unfold parseFunctionDeclaration. destruct id as [id|]; [|discriminate].
    intros Hd. apply rbind_Ok_inv in Hd as (path & Hpath & Hd).
    apply staticMemberExpressionToPath_nonempty in Hpath.
    apply rbind_Ok_inv in Hd as (names & _ & [= <-]). cbn. auto.
Qed.

Lemma annotated_well_formed (statement : Statement) (d : Defn) :
  annotated doctrine_parse statement = Ok d → wellFormedDefinition d.
Proof.
  unfold annotated, annotate. intros Hd.
  apply rbind_Ok_inv in Hd as (d0 & Hd0 & Hd).
  apply rbind_Ok_inv in Hd as (a & _ & [= <-]).
  apply parseStatement_shape in Hd0 as (_ & Hid & Hms).
  unfold wellFormedDefinition.
  destruct d0; cbn in *; eauto.
Qed.

(** X2.  Every definition [parseBody] returns carries attributes and a
    path of at least one segment, and the methods of a class definition
    are function definitions named by a single segment, with flags,
    nested definitions and attributes; there are no more definitions
    than expression statements and function declarations. *)
Theorem parseBody_well_formed (statements : list Statement)
  (definitions : list Defn) :
  parseBody doctrine_parse statements = Ok definitions →
  Forall wellFormedDefinition definitions
  ∧ (List.length definitions
     ≤ List.length (List.filter isExpressionOrFunction statements))%nat.
Proof.
  rewrite parseBody_filter_map_filter. intros Hbody.
  apply rbind_Ok_inv in Hbody as (all & Hall & [= <-]).
  split.
  - apply Forall_forall. intros d Hd.
    apply list_elem_of_filter in Hd as [_ Hd].
    assert (Forall wellFormedDefinition all) as Hwf.
    { eapply map_throwing_Forall; [|exact Hall].
      intros x y. apply annotated_well_formed. }
    rewrite Forall_forall in Hwf. apply Hwf, Hd.
  - rewrite <- (map_throwing_length _ _ _ Hall). apply length_filter.
Qed.

(** X3.  [parseBody] works statement by statement: the definitions of a
    concatenation are those of the first part followed by those of the
    second (and an exception of the first part comes first); statements
    that are neither expression statements nor function declarations
    contribute nothing. *)
Theorem parseBody_app (first second : list Statement) :
  parseBody doctrine_parse (first ++ second)
  = (let* a := parseBody doctrine_parse first in
     let* b := parseBody doctrine_parse second in
     Ok (a ++ b))%result
  ∧ parseBody doctrine_parse (List.filter isExpressionOrFunction first)
    = parseBody doctrine_parse first.
Proof.
  split.
  - rewrite !parseBody_filter_map_filter.
    rewrite List.filter_app, map_throwing_app.
    destruct (map_throwing _ (List.filter _ first)) as [a|e]; cbn;
      [|reflexivity].
    destruct (map_throwing _ (List.filter _ second)) as [b|e]; cbn;
      [|reflexivity].
    rewrite filter_app. reflexivity.
  - rewrite !parseBody_filter_map_filter. f_equal.
    f_equal. induction first as [|x xs IH]; cbn; [reflexivity|].
    destruct (isExpressionOrFunction x) eqn:Hx; cbn; [|exact IH].
    rewrite Hx, IH. reflexivity.
Qed.

(** X4.  There is no partial result: if a considered statement cannot be
    parsed, or its leading comment cannot, [parseBody] throws. *)
Theorem parseBody_throws (statements : list Statement)
  (statement : Statement) (e : Error) :
  statement ∈ statements →
  isExpressionOrFunction statement = true →
  annotated doctrine_parse statement = Throw e →
  ∃ e', parseBody doctrine_parse statements = Throw e'.
Proof.
  intros Hin Hconsidered Hthrow.
  rewrite parseBody_filter_map_filter.
  destruct (map_throwing_throws (annotated doctrine_parse)
              (List.filter isExpressionOrFunction statements)
              statement e) as [e' He'].
  - apply list_elem_of_In, List.filter_In. split; [|assumption].
    apply list_elem_of_In, Hin.
  - exact Hthrow.
  - exists e'.
    change (annotated doctrine_parse)
      with (annotate doctrine_parse (parseStatement doctrine_parse)) in He'.
    rewrite He'. reflexivity.
Qed.

End Statements.

(** *** Tags *)

Lemma title_cases (title : string) :
  recognizedTitle title = false ∨ title ∈ recognizedTitles.
Proof.
  unfold recognizedTitle, recognizedTitles.
  repeat match goal with
         | |- context [String.eqb title ?lit] =>
             let E := fresh "E" in
             destruct (String.eqb title lit) eqn:E;
             [ apply String.eqb_eq in E; right; rewrite E;
               repeat first [ apply list_elem_of_here
                            | apply list_elem_of_further ]
             | ]
         end.
  left. reflexivity.
Qed.

Ltac title_false H :=
  unfold recognizedTitle in H;
  repeat (apply orb_false_elim in H as [H ?]).

Ltac rewrite_titles :=
  repeat match goal with
         | Hx : String.eqb _ _ = false |- _ => rewrite Hx; clear Hx
         end.

Lemma interpretTag_unrecognized (a : Attributes) (tag : Tag) :
  recognizedTitle (tag_title tag) = false → interpretTag a tag = Ok a.
Proof.
  intros H. title_false H. unfold interpretTag. cbv zeta.
  rewrite_titles. reflexivity.
Qed.

Lemma classification_unrecognized (tag : Tag) :
  recognizedTitle (tag_title tag) = false → classification tag = None.
Proof.
  intros H. title_false H. unfold classification. cbv zeta.
  rewrite_titles. reflexivity.
Qed.

(** Case analysis on a tag: its title is unrecognized, or one of the
    seventeen titles. *)
Ltac by_title tag :=
  let title := fresh "title" in
  let name := fresh "name" in
  let ty := fresh "ty" in
  let desc := fresh "desc" in
  let Hcase := fresh "Hcase" in
  destruct tag as [title name ty desc];
  destruct (title_cases title) as [Hcase | Hcase];
  [ | unfold recognizedTitles in Hcase;
      repeat (apply elem_of_cons in Hcase as [-> | Hcase]);
      [ .. | inversion Hcase ] ].

(** The parts of a successful step. *)
Ltac step_inv H :=
  cbn in H;
  repeat match type of H with
         | rbind (assert ?c _) _ = Ok _ => destruct c; cbn in H
         | match ?x with _ => _ end = Ok _ => destruct x; cbn in H
         | Ok (if ?c then _ else _) = Ok _ => destruct c
         | Throw _ = Ok _ => discriminate H
         end;
  try (injection H as <-).

(** What one tag does to the classification and to [paramTypes]. *)
Lemma interpretTag_effect (a a' : Attributes) (tag : Tag) :
  interpretTag a tag = Ok a' →
  type a' = match classification tag with
            | Some c => Some c
            | None => type a
            end
  ∧ ∀ x,
      dict_get (default [] (paramTypes a')) x
      = lastParamType x [tag] (dict_get (default [] (paramTypes a)) x).
Proof.
  intros Hstep. by_title tag.
  - rewrite (interpretTag_unrecognized _ (mkTag title name ty desc) Hcase)
      in Hstep.
    injection Hstep as <-.
    rewrite (classification_unrecognized (mkTag title name ty desc) Hcase).
    split; [reflexivity|]. intros x. cbn.
    title_false Hcase. cbn in *.
    match goal with
    | Hp : String.eqb _ "param" = false |- _ => rewrite Hp
    end.
    reflexivity.
  - step_inv Hstep; split; try reflexivity; intros x; reflexivity.
  - step_inv Hstep; split; try reflexivity; intros x; reflexivity.
  - step_inv Hstep; split; try reflexivity; intros x; reflexivity.
  - step_inv Hstep; split; try reflexivity; intros x; reflexivity.
  - step_inv Hstep; split; try reflexivity; intros x; reflexivity.
  - step_inv Hstep; split; try reflexivity; intros x; reflexivity.
  - step_inv Hstep; split; try reflexivity; intros x; reflexivity.
  - step_inv Hstep; split; try reflexivity; intros x; reflexivity.
  - step_inv Hstep; split; try reflexivity; intros x; reflexivity.
  - step_inv Hstep; split; try reflexivity; intros x; reflexivity.
  - step_inv Hstep; split; try reflexivity; intros x; reflexivity.
  - step_inv Hstep; split; try reflexivity; intros x; reflexivity.
  - step_inv Hstep; (split; [reflexivity|]); intros x;
      match goal with
      | |- context [dict_set _ (String ?c ?r) _] =>
          generalize (String c r); intros n
      end;
      cbn;
      match goal with
      | |- dict_get (dict_set ?d ?n ?t) x = _ =>
          destruct (String.eqb n x) eqn:Hnx;
          [ apply String.eqb_eq in Hnx; subst x;
            apply TreeUtilsFacts.dict_get_set_eq
          | apply TreeUtilsFacts.dict_get_set_ne;
            intros ->; rewrite String.eqb_refl in Hnx; discriminate ]
      end.
  - step_inv Hstep; split; try reflexivity; intros x; reflexivity.
  - step_inv Hstep; split; try reflexivity; intros x; reflexivity.
  - step_inv Hstep; split; try reflexivity; intros x; reflexivity.
  - step_inv Hstep; split; try reflexivity; intros x; reflexivity.
Qed.

Lemma interpretTags_app (a : Attributes) (first second : list Tag) :
  interpretTags a (first ++ second)
  = (let* a1 := interpretTags a first in interpretTags a1 second)%result.
Proof.
  revert a. induction first as [|t ts IH]; intros a; cbn; [reflexivity|].
  destruct (interpretTag a t) as [a1|e]; cbn; [apply IH | reflexivity].
Qed.

Lemma interpretTags_effect (tags : list Tag) :
  ∀ a a',
    interpretTags a tags = Ok a' →
    type a' = lastClassification tags (type a)
    ∧ ∀ x,
        dict_get (default [] (paramTypes a')) x
        = lastParamType x tags (dict_get (default [] (paramTypes a)) x).
Proof.
  induction tags as [|t ts IH]; intros a a' Hrun; cbn in Hrun.
  - injection Hrun as <-. split; [reflexivity | intros x; reflexivity].
  - apply rbind_Ok_inv in Hrun as (a1 & Hstep & Hrun).
    apply interpretTag_effect in Hstep as [Htype Hparams].
    apply IH in Hrun as [Htype' Hparams'].
    split.
    + rewrite Htype'. unfold lastClassification. cbn [fold_left].
      rewrite Htype. reflexivity.
    + intros x. rewrite Hparams'. unfold lastParamType. cbn [fold_left].
      rewrite Hparams. reflexivity.
Qed.

Section Comments.
Variable doctrine_parse : string → Annotation.

Lemma parseBlockComment_inv (comment : Comment) (a : Attributes) :
  parseBlockComment doctrine_parse comment = Ok a →
  ∃ a0,
    interpretTags
      (emptyAttributes
         (normalizeDescription
            (ast_description (doctrine_parse (comment_value comment)))))
      (ast_tags (doctrine_parse (comment_value comment))) = Ok a0
    ∧ type a = type a0 ∧ paramTypes a = paramTypes a0.
Proof.
  unfold parseBlockComment. intros Hrun.
  apply rbind_Ok_inv in Hrun as ([] & _ & Hrun).
  apply rbind_Ok_inv in Hrun as (a0 & Hfold & Hrun).
  exists a0. split; [exact Hfold|].
  destruct (truthy_string (Some (description a0)));
    injection Hrun as <-; split; reflexivity.
Qed.

(** X5.  Tags with a title [parseBlockComment] has no case for are
    ignored: the fold over the tags, and so the attributes of a comment,
    are the same with these tags removed. *)
Theorem unrecognized_tags_ignored :
  (∀ a tags,
     interpretTags a tags
     = interpretTags a
         (List.filter (fun tag => recognizedTitle (tag_title tag)) tags))
  ∧ (∀ c1 c2,
       comment_type c1 = comment_type c2 →
       ast_description (doctrine_parse (comment_value c1))
       = ast_description (doctrine_parse (comment_value c2)) →
       List.filter (fun tag => recognizedTitle (tag_title tag))
         (ast_tags (doctrine_parse (comment_value c1)))
       = List.filter (fun tag => recognizedTitle (tag_title tag))
           (ast_tags (doctrine_parse (comment_value c2))) →
       parseBlockComment doctrine_parse c1
       = parseBlockComment doctrine_parse c2).
Proof.
  assert (∀ a tags,
            interpretTags a tags
            = interpretTags a
                (List.filter (fun tag => recognizedTitle (tag_title tag))
                   tags)) as Hfold.
  { intros a tags. revert a.
    induction tags as [|t ts IH]; intros a; [reflexivity|].
    cbn [List.filter].
    destruct (recognizedTitle (tag_title t)) eqn:Ht; cbn [interpretTags].
    - destruct (interpretTag a t); cbn; [apply IH | reflexivity].
    - rewrite (interpretTag_unrecognized a t Ht). cbn. apply IH. }
  split; [exact Hfold|].
  intros c1 c2 Htype Hdesc Htags. unfold parseBlockComment.
  rewrite Htype, Hdesc.
  rewrite (Hfold _ (ast_tags (doctrine_parse (comment_value c1)))).
  rewrite (Hfold _ (ast_tags (doctrine_parse (comment_value c2)))).
  rewrite Htags. reflexivity.
Qed.

(** X6.  The classification of a comment is that of its last classifying
    tag ([typedef], [const], [namespace], [define], [protected], [type],
    [constructor], [enum], [interface], [return]); without such a tag
    there is none. *)
Theorem parseBlockComment_last_classification (comment : Comment)
  (a : Attributes) :
  parseBlockComment doctrine_parse comment = Ok a →
  type a
  = lastClassification (ast_tags (doctrine_parse (comment_value comment)))
      None.
Proof.
  intros Hrun.
  apply parseBlockComment_inv in Hrun as (a0 & Hfold & -> & _).
  apply interpretTags_effect in Hfold as [Htype _]. exact Htype.
Qed.


Lemma interpretTag_incomplete_param (a : Attributes) (tag : Tag) :
  incompleteParam tag → ∃ e, interpretTag a tag = Throw e.
Proof.
  destruct tag as [title name ty desc]. intros [Htitle Hmissing].
  cbn in Htitle, Hmissing. subst title.
  destruct Hmissing as [Hname | ->].
  - destruct name as [[|c n]|]; try discriminate Hname;
      destruct ty; eexists; reflexivity.
  - destruct name as [[|c n]|]; eexists; reflexivity.
Qed.

(** X8.  A [@param] tag without name or without type is fatal wherever it
    stands in the comment: no attributes are produced. *)
Theorem parseBlockComment_incomplete_param (comment : Comment)
  (before after : list Tag) (tag : Tag) :
  ast_tags (doctrine_parse (comment_value comment))
  = before ++ tag :: after →
  incompleteParam tag →
  ∃ e, parseBlockComment doctrine_parse comment = Throw e.
Proof.
  intros Htags Hparam. unfold parseBlockComment.
  destruct (comment_type comment); cbn; [|eauto].
  rewrite Htags, interpretTags_app.
  destruct (interpretTags _ before) as [a1|e]; cbn; [|eauto].
  destruct (interpretTag_incomplete_param a1 tag Hparam) as [e ->].
  cbn. eauto.
Qed.

End Comments.

(** *** Descriptions *)







(** *** Instances *)

Lemma parseBody_well_formed_witness :
  Forall wellFormedDefinition
    [ ObjectDefinition ["Foo"; "BAZ"] []
        (Some (constAttributes (Some t_number)));
      ClassDefinition ["Foo"; "Cls"] None [] (Some (constAttributes None)) ]
  ∧ (2 ≤ List.length (List.filter isExpressionOrFunction constStatements))%nat.
Proof.
  exact (parseBody_well_formed constDoctrine constStatements _ eq_refl).
Defined.

Lemma parseBody_throws_witness :
  ∃ e,
    parseBody constDoctrine
      [ classStatement;
        ExpressionStatement (member "a" "b") (Some [mkComment Line "x"]) ]
    = Throw e.
Proof.
  apply (parseBody_throws constDoctrine _
           (ExpressionStatement (member "a" "b") (Some [mkComment Line "x"]))
           (AssertionError "Expected comment of type Block, got Line")).
  - apply list_elem_of_further, list_elem_of_here.
  - reflexivity.
  - reflexivity.
Defined.

Lemma unrecognized_tags_ignored_witness :
  parseBlockComment tagsDoctrine (mkComment Block "noisy")
  = parseBlockComment tagsDoctrine (mkComment Block "plain").
Proof.
  apply (proj2 (unrecognized_tags_ignored tagsDoctrine)
           (mkComment Block "noisy") (mkComment Block "plain"));
    reflexivity.
Defined.

Lemma plain_comment_attributes :
  parseBlockComment tagsDoctrine (mkComment Block "plain")
  = Ok plainAttributes.
Proof. vm_compute. reflexivity. Qed.

Lemma parseBlockComment_last_classification_witness :
  parseBlockComment tagsDoctrine (mkComment Block "plain")
  = Ok plainAttributes
  ∧ type plainAttributes = Some AT_Function.
Proof.
  split; [exact plain_comment_attributes|].
  exact (parseBlockComment_last_classification tagsDoctrine
           (mkComment Block "plain") plainAttributes
           plain_comment_attributes).
Defined.


Lemma parseBlockComment_incomplete_param_witness :
  ∃ e, parseBlockComment tagsDoctrine (mkComment Block "broken") = Throw e.
Proof.
  apply (parseBlockComment_incomplete_param tagsDoctrine
           (mkComment Block "broken")
           [mkTag "const" None None None]
           [mkTag "return" None None None]
           (mkTag "param" (Some "x") None None)).
  - reflexivity.
  - split; [reflexivity | right; reflexivity].
Defined.


End ParseExternsExtra.

(** ** Of the node tree *)

Module TreeUtilsExtra.
Import TreeUtils TreeUtilsSpec EffFacts TreeUtilsFacts.

Lemma ebind_inv {S A B} (m : Eff S A) (k : A → Eff S B) s r s' :
  ebind m k s = (r, s') →
  (∃ a s1, m s = (Ok a, s1) ∧ k a s1 = (r, s'))
  ∨ (∃ e, m s = (Throw e, s') ∧ r = Throw e).
Proof.
  unfold ebind. destruct (m s) as [[a|e] s1].
  - intros Hk. left. eauto.
  - intros [= <- <-]. right. eauto.
Qed.

(** *** The store only grows, whatever the outcome *)

Lemma getOrCreateNode_outcome_grows m name s r s' :
  getOrCreateNode m name s = (r, s') → grows s s'.
Proof.
  destruct (maps s !! m) as [d|] eqn:Hm.
  - destruct (dict_get d name) as [n|] eqn:Hn.
    + rewrite (getOrCreateNode_present s m d name n Hm Hn).
      intros [= _ <-]. apply grows_refl.
    + rewrite (getOrCreateNode_absent s m d name Hm Hn).
      intros [= _ <-]. apply created_grows; assumption.
  - rewrite (getOrCreateNode_not_a_map s m name Hm).
    intros [= _ <-]. apply grows_refl.
Qed.

Lemma Node_children_state node s r s' :
  Node_children node s = (r, s') → s' = s.
Proof.
  unfold Node_children. destruct (nodes s !! node); intros [= _ <-];
    reflexivity.
Qed.

Lemma getOrCreateNodeAtPath_loop_outcome_grows (path : list string) :
  ∀ s node0 m r s',
    getOrCreateNodeAtPath_loop path node0 m s = (r, s') → grows s s'.
Proof.
  induction path as [|part path IH]; intros s node0 m r s' Hrun.
  - injection Hrun as _ <-. apply grows_refl.
  - cbn [getOrCreateNodeAtPath_loop] in Hrun.
    apply ebind_inv in Hrun
      as [(n & s1 & Hn & Hrun) | (e & Hn & _)];
      [|eapply getOrCreateNode_outcome_grows, Hn].
    apply getOrCreateNode_outcome_grows in Hn.
    apply ebind_inv in Hrun
      as [(c & s2 & Hc & Hrun) | (e & Hc & _)].
    + apply Node_children_state in Hc as ->.
      eapply grows_trans; [exact Hn | eapply IH, Hrun].
    + apply Node_children_state in Hc as ->. exact Hn.
Qed.

(** X11.  Whatever its outcome, [getOrCreateNodeAtPath] only adds to the
    tree: every map keeps its entries, with the nodes they led to, and
    no node object is changed.  On the empty path it throws and leaves
    the store as it is. *)
Theorem getOrCreateNodeAtPath_only_grows (root : positive)
  (path : list string) (s : Store) :
  grows s (snd (getOrCreateNodeAtPath root path s))
  ∧ getOrCreateNodeAtPath root [] s = (Throw (AssertionError ""), s).
Proof.
  split; [|reflexivity].
  destruct (getOrCreateNodeAtPath root path s) as [r s'] eqn:Hrun.
  cbn [snd]. unfold getOrCreateNodeAtPath in Hrun.
  apply ebind_inv in Hrun as [([] & s1 & Hassert & Hrun) | (e & Hassert & _)].
  - unfold elift in Hassert. injection Hassert as _ <-.
    apply ebind_inv in Hrun as [(n & s2 & Hloop & Hrun) | (e & Hloop & _)].
    + apply getOrCreateNodeAtPath_loop_outcome_grows in Hloop.
      destruct n; injection Hrun as _ <-; exact Hloop.
    + eapply getOrCreateNodeAtPath_loop_outcome_grows, Hloop.
  - unfold elift in Hassert. injection Hassert as _ <-. apply grows_refl.
Qed.

(** *** Well-formed stores *)

Lemma created_well_formed s m d name :
  wellFormedStore s → maps s !! m = Some d → dict_get d name = None →
  wellFormedStore (created s m d name).
Proof.
  intros [Hentries Hchildren] Hm Hn.
  assert (fresh (dom (maps s)) ≠ m) as Hc by (eapply fresh_map_ne, Hm).
  assert (∀ n o, nodes s !! n = Some o → n ≠ fresh (dom (nodes s)))
    as Hfresh.
  { intros n o Ho Heq. apply (is_fresh (dom (nodes s))).
    rewrite <- Heq. apply elem_of_dom. eauto. }
  unfold created. split; cbn.
  - intros m' d' k n Hm' Hk.
    destruct (decide (m' = m)) as [->|Hne].
    + rewrite lookup_insert_eq in Hm'. injection Hm' as <-.
      destruct (decide (name = k)) as [->|Hnk].
      * rewrite dict_get_set_eq in Hk. injection Hk as <-.
        rewrite lookup_insert_eq. eauto.
      * rewrite dict_get_set_ne in Hk by assumption.
        destruct (Hentries m d k n Hm Hk) as (o & Ho & Hname).
        exists o. split; [|exact Hname].
        rewrite lookup_insert_ne; [exact Ho|].
        intros Heq. eapply Hfresh; eauto.
    + rewrite lookup_insert_ne in Hm' by congruence.
      destruct (decide (m' = fresh (dom (maps s)))) as [->|Hne'].
      * rewrite lookup_insert_eq in Hm'. injection Hm' as <-.
        discriminate Hk.
      * rewrite lookup_insert_ne in Hm' by congruence.
        destruct (Hentries m' d' k n Hm' Hk) as (o & Ho & Hname).
        exists o. split; [|exact Hname].
        rewrite lookup_insert_ne; [exact Ho|].
        intros Heq. eapply Hfresh; eauto.
  - intros n o Ho.
    assert (∀ c, is_Some (maps s !! c) →
                 is_Some (<[m := dict_set d name (fresh (dom (nodes s)))]>
                            (<[fresh (dom (maps s)) := []]> (maps s)) !! c))
      as Hkeep.
    { intros c Hsome. destruct (decide (c = m)) as [->|Hne].
      - rewrite lookup_insert_eq. eauto.
      - rewrite lookup_insert_ne by congruence.
        destruct (decide (c = fresh (dom (maps s)))) as [->|Hne'].
        + rewrite lookup_insert_eq. eauto.
        + rewrite lookup_insert_ne by congruence. exact Hsome. }
    destruct (decide (n = fresh (dom (nodes s)))) as [->|Hne].
    + rewrite lookup_insert_eq in Ho. injection Ho as <-. cbn.
      rewrite lookup_insert_ne by congruence.
      rewrite lookup_insert_eq. eauto.
    + rewrite lookup_insert_ne in Ho by congruence.
      apply Hkeep, (Hchildren n o Ho).
Qed.

Lemma getOrCreateNode_well_formed s m d name :
  wellFormedStore s → maps s !! m = Some d →
  ∃ n s' o,
    getOrCreateNode m name s = (Ok n, s')
    ∧ wellFormedStore s'
    ∧ nodes s' !! n = Some o ∧ TreeUtils.name o = name
    ∧ is_Some (maps s' !! children o).
Proof.
  intros Hwf Hm. destruct (dict_get d name) as [n|] eqn:Hn.
  - destruct Hwf as [Hentries Hchildren].
    destruct (Hentries m d name n Hm Hn) as (o & Ho & Hname).
    exists n, s, o.
    split; [apply (getOrCreateNode_present s m d name n Hm Hn)|].
    split; [split; assumption|]. eauto.
  - pose proof (created_well_formed s m d name Hwf Hm Hn) as Hwf'.
    eexists _, _, (mkNode name None (fresh (dom (maps s)))).
    split; [apply (getOrCreateNode_absent s m d name Hm Hn)|].
    split; [exact Hwf'|].
    assert (nodes (created s m d name) !! fresh (dom (nodes s))
            = Some (mkNode name None (fresh (dom (maps s))))) as Ho
      by (unfold created; cbn; apply lookup_insert_eq).
    split; [exact Ho|]. split; [reflexivity|].
    destruct Hwf' as [_ Hchildren']. apply (Hchildren' _ _ Ho).
Qed.

Lemma getOrCreateNodeAtPath_loop_well_formed (path : list string) :
  ∀ s node0 m,
    wellFormedStore s → is_Some (maps s !! m) →
    ∃ r s',
      getOrCreateNodeAtPath_loop path node0 m s = (Ok r, s')
      ∧ wellFormedStore s'
      ∧ match path with
        | [] => r = node0
        | _ => ∃ n o, r = Some n ∧ nodes s' !! n = Some o
                      ∧ last path = Some (name o)
        end.
Proof.
  induction path as [|part path IH]; intros s node0 m Hwf [d Hm].
  - exists node0, s. split; [reflexivity|].
    split; [exact Hwf | reflexivity].
  - destruct (getOrCreateNode_well_formed s m d part Hwf Hm)
      as (n & s1 & o & Hn & Hwf1 & Ho & Hname & Hc).
    destruct (IH s1 (Some n) (children o) Hwf1 Hc)
      as (r & s' & Hloop & Hwf' & Hlast).
    exists r, s'. split; [|split; [exact Hwf'|]].
    + cbn [getOrCreateNodeAtPath_loop].
      rewrite (ebind_Ok _ _ _ _ _ Hn).
      rewrite (ebind_Ok _ _ _ _ _ (Node_children_some s1 n o Ho)).
      exact Hloop.
    + destruct path as [|part' path].
      * cbn in Hloop. injection Hloop as <- <-.
        exists n, o. rewrite Hname. split; [reflexivity|].
        split; [exact Ho | reflexivity].
      * destruct Hlast as (n' & o' & -> & Ho' & Hlast).
        exists n', o'. split; [reflexivity|]. split; [exact Ho'|].
        rewrite <- Hlast. reflexivity.
Qed.

(** X12.  On a well-formed store, for a root map of the store and a path
    that is not empty, [getOrCreateNodeAtPath] returns a node, named by
    the last segment of the path, and the store stays well formed: the
    entries of every map lead to node objects named by their keys, and
    every node has its map of children. *)
Theorem getOrCreateNodeAtPath_well_formed (s : Store) (root : positive)
  (path : list string) :
  wellFormedStore s → is_Some (maps s !! root) → path ≠ [] →
  ∃ n o s',
    getOrCreateNodeAtPath root path s = (Ok n, s')
    ∧ wellFormedStore s'
    ∧ nodes s' !! n = Some o
    ∧ last path = Some (name o).
Proof.
  intros Hwf Hroot Hpath.
  destruct (getOrCreateNodeAtPath_loop_well_formed path s None root Hwf Hroot)
    as (r & s' & Hloop & Hwf' & Hlast).
  destruct path as [|part path]; [contradiction|].
  destruct Hlast as (n & o & -> & Ho & Hlast).
  exists n, o, s'. split; [|split; [exact Hwf' | split; assumption]].
  unfold getOrCreateNodeAtPath.
  rewrite (ebind_Ok _ _ s tt s) by reflexivity.
  rewrite (ebind_Ok _ _ _ _ _ Hloop). reflexivity.
Qed.

(** *** Lookups in the store and in the tree *)

Lemma represents_inv s n node :
  represents s n node →
  ∃ o entries,
    nodes s !! n = Some o
    ∧ maps s !! children o = Some entries
    ∧ Forall2 (λ e k, e.1 = k.1 ∧ represents s e.2 k.2) entries
        (Emitter.children node)
    ∧ Emitter.name node = name o
    ∧ Emitter.definition node = definition o.
Proof.
  intros Hrep. inversion Hrep as [r o entries kids Ho Hentries Hkids].
  subst. exists o, entries. cbn. auto.
Qed.

Lemma entries_lookup s entries tree (k : string) :
  Forall2 (λ e t, e.1 = t.1 ∧ represents s e.2 t.2) entries tree →
  sameNode s (dict_get entries k) (dict_get tree k).
Proof.
  induction 1 as [|[k1 n1] [k2 node] entries tree [Hk Hrep] _ IH]; cbn.
  - reflexivity.
  - cbn in Hk, Hrep. subst k2.
    destruct (String.eqb k1 k); [|exact IH].
    cbn. eauto.
Qed.

Lemma getNodeAtPath_loop_agrees (path : list string) :
  ∀ s m entries tree r0 t0,
    maps s !! m = Some entries →
    Forall2 (λ e t, e.1 = t.1 ∧ represents s e.2 t.2) entries tree →
    sameNode s r0 t0 →
    ∃ r, getNodeAtPath_loop path r0 m s = (Ok r, s)
         ∧ sameNode s r (Emitter.getNodeAtPath_loop path t0 tree).
Proof.
  induction path as [|part path IH];
    intros s m entries tree r0 t0 Hm Hentries Hsame.
  - exists r0. split; [reflexivity | exact Hsame].
  - cbn [getNodeAtPath_loop Emitter.getNodeAtPath_loop].
    rewrite (ebind_Ok _ _ _ _ _ (Map_get_some s m entries part Hm)).
    pose proof (entries_lookup s entries tree part Hentries) as Hpart.
    destruct (dict_get tree part) as [node|]; cbn in Hpart.
    + destruct Hpart as (n & -> & Hrep).
      destruct (represents_inv s n node Hrep)
        as (o & entries' & Ho & Hentries' & Hkids & _).
      rewrite (ebind_Ok _ _ _ _ _ (Node_children_some s n o Ho)).
      apply (IH s (children o) entries' (Emitter.children node)
               (Some n) (Some node) Hentries' Hkids).
      cbn. eauto.
    + rewrite Hpart. exists None. split; reflexivity.
Qed.

(** X13.  On a store that holds a tree, [getNodeAtPath] of [treeUtils]
    returns without changing the store, and its answer is the answer of
    the emitter's [getNodeAtPath] on the tree: the same node, or [null]
    in both. *)
Theorem getNodeAtPath_agrees (s : Store) (root : positive)
  (tree : Emitter.NodeMap) (path : list string) :
  representsMap s root tree →
  ∃ r, getNodeAtPath root path s = (Ok r, s)
       ∧ sameNode s r (Emitter.getNodeAtPath tree path).
Proof.
  intros (entries & Hroot & Hentries).
  apply (getNodeAtPath_loop_agrees path s root entries tree None None
           Hroot Hentries).
  reflexivity.
Qed.

(** *** Types of the members of an interface or typedef *)

Lemma hasType_typedef_not_interface (a : Attributes) :
  hasType a AT_Typedef = true → hasType a AT_Interface = false.
Proof.
  unfold hasType. destruct (type a) as [[]|]; cbn; congruence.
Qed.

Lemma readNode_some s n o :
  nodes s !! n = Some o → readNode n s = (Ok o, s).
Proof. intros Ho. unfold readNode. rewrite Ho. reflexivity. Qed.

(** X14.  [getPropTypeFromInterface] reads without changing the store.
    For an interface it answers from the member of that name under
    [prototype]: constant with its const type when the member is
    classified [const], not constant with its property type otherwise,
    and the default (not constant, no type) when there is no such
    member.  For a typedef with properties it answers the type of the
    property of that name, and a missing property is an assertion
    failure. *)
Theorem getPropTypeFromInterface_answers (s : Store) (iface : positive)
  (node : Emitter.Node) (d : Defn) (a : Attributes) (propName : string) :
  represents s iface node →
  Emitter.definition node = Some d → def_attributes d = Some a →
  (hasType a AT_Interface = true →
   getPropTypeFromInterface iface propName s
   = match Emitter.getNodeAtPath (Emitter.children node)
             ["prototype"; propName] with
     | None => (Ok (mkPropType None false), s)
     | Some member =>
         match Emitter.definition member with
         | Some dm =>
             match def_attributes dm with
             | Some am =>
                 (Ok (mkPropType
                        (if hasType am AT_Const then constType am
                         else propType am)
                        (hasType am AT_Const)), s)
             | None => (Throw (AssertionError ""), s)
             end
         | None => (Throw (AssertionError ""), s)
         end
     end)
  ∧ (hasType a AT_Typedef = true →
     ∀ ps, props a = Some ps →
     getPropTypeFromInterface iface propName s
     = match find (fun p => String.eqb (prop_name p) propName) ps with
       | Some entry => (Ok (mkPropType (Some (prop_type entry)) false), s)
       | None => (Throw (AssertionError ""), s)
       end).
Proof.
  intros Hrep Hd Ha.
  destruct (represents_inv s iface node Hrep)
    as (o & entries & Ho & Hentries & Hkids & _ & Hdef).
  rewrite Hd in Hdef.
  unfold getPropTypeFromInterface.
  rewrite (ebind_Ok _ _ _ _ _ (readNode_some s iface o Ho)).
  rewrite <- Hdef. cbn [assertPresent].
  change (ebind (eret d) ?k) with (k d). cbv beta.
  rewrite Ha. cbn [assertPresent].
  change (ebind (eret a) ?k) with (k a). cbv beta.
  split.
  - intros Hiface. rewrite Hiface.
    destruct (getNodeAtPath_loop_agrees ["prototype"; propName] s
                (children o) entries (Emitter.children node) None None
                Hentries Hkids eq_refl) as (r & Hget & Hsame).
    fold (getNodeAtPath (children o) ["prototype"; propName]) in Hget.
    fold (Emitter.getNodeAtPath (Emitter.children node)
            ["prototype"; propName]) in Hsame.
    rewrite (ebind_Ok _ _ _ _ _ Hget).
    destruct (Emitter.getNodeAtPath (Emitter.children node)
                ["prototype"; propName]) as [member|]; cbn in Hsame.
    + destruct Hsame as (b & -> & Hb).
      destruct (represents_inv s b member Hb)
        as (ob & _ & Hob & _ & _ & _ & Hdefb).
      rewrite (ebind_Ok _ _ _ _ _ (readNode_some s b ob Hob)).
      rewrite Hdefb.
      destruct (definition ob) as [dm|]; [|reflexivity].
      cbn [assertPresent].
      change (ebind (eret dm) ?k) with (k dm). cbv beta.
      destruct (def_attributes dm) as [am|]; reflexivity.
    + rewrite Hsame. reflexivity.
  - intros Htypedef ps Hps.
    rewrite (hasType_typedef_not_interface a Htypedef), Htypedef, Hps.
    destruct (find _ ps); reflexivity.
Qed.

(** *** Numbered parameters *)

Lemma numberedParam_name_inj (i j : nat) :
  "p" +:+ pretty i = "p" +:+ pretty j → i = j.
Proof.
  intros Heq. apply (inj (String.append "p")) in Heq.
  apply (inj pretty) in Heq. exact Heq.
Qed.

Lemma dict_get_snoc_other {V} (d : Dict V) (k k' : string) (v : V) :
  k ≠ k' → dict_get (d ++ [(k, v)]) k' = dict_get d k'.
Proof.
  intros Hne. induction d as [|[k0 v0] d IH]; cbn.
  - destruct (String.eqb k k') eqn:Hk; [|reflexivity].
    apply String.eqb_eq in Hk. contradiction.
  - destruct (String.eqb k0 k'); [reflexivity | exact IH].
Qed.

Lemma reduceIndexed_numberedParam (params : list DType) :
  ∀ acc i,
    (∀ k, (i ≤ k)%nat → dict_get acc ("p" +:+ pretty k) = None) →
    reduceIndexed numberedParam acc i params
    = acc ++ zip (numberedNames i (List.length params)) params.
Proof.
  induction params as [|x params IH]; intros acc i Hfresh; cbn.
  - rewrite app_nil_r. reflexivity.
  - unfold numberedParam at 2.
    rewrite (dict_set_absent acc _ x (Hfresh i (le_n i))).
    rewrite IH.
    + rewrite <- app_assoc. reflexivity.
    + intros k Hk. rewrite dict_get_snoc_other.
      * apply Hfresh. lia.
      * intros Heq. apply numberedParam_name_inj in Heq. lia.
Qed.

(** X15.  For a typedef whose property of the given name has a function
    type, [getMethodTypesFromInterface] names the parameter types [p0],
    [p1], ... in order and answers the result type of the function
    type; the store is not changed. *)
Theorem getMethodTypesFromInterface_numbers_parameters (s : Store)
  (iface : positive) (o : Node) (d : Defn) (a : Attributes)
  (ps : list PropEntry) (methodName : string) (entry : PropEntry)
  (params : list DType) (result : option DType) :
  nodes s !! iface = Some o →
  definition o = Some d → def_attributes d = Some a →
  hasType a AT_Typedef = true → props a = Some ps →
  find (fun p => String.eqb (prop_name p) methodName) ps = Some entry →
  prop_type entry = FunctionType params result →
  getMethodTypesFromInterface iface methodName s
  = (Ok (mkMethodTypes
           (Some (zip (numberedNames 0 (List.length params)) params))
           result), s).
Proof.
  intros Ho Hd Ha Htypedef Hps Hfind Hfun.
  unfold getMethodTypesFromInterface.
  rewrite (ebind_Ok _ _ _ _ _ (readNode_some s iface o Ho)).
  rewrite Hd. cbn [assertPresent].
  change (ebind (eret d) ?k) with (k d). cbv beta.
  rewrite Ha. cbn [assertPresent].
  change (ebind (eret a) ?k) with (k a). cbv beta.
  rewrite (hasType_typedef_not_interface a Htypedef), Htypedef, Hps, Hfind.
  cbn [assertPresent].
  change (ebind (eret entry) ?k) with (k entry). cbv beta.
  rewrite Hfun.
  rewrite (reduceIndexed_numberedParam params [] 0) by reflexivity.
  reflexivity.
Qed.

(** *** The example store *)

Lemma exampleStore_well_formed : wellFormedStore exampleStore.
Proof.
  split.
  - intros m d k n Hm Hk.
    apply elem_of_list_to_map_2 in Hm.
    repeat (apply elem_of_cons in Hm as [Hm | Hm];
            [injection Hm as -> ->|]);
      try (apply elem_of_nil in Hm; contradiction);
      cbn [dict_get] in Hk;
      repeat match type of Hk with
        | (if String.eqb ?a k then _ else _) = _ =>
            destruct (String.eqb_spec a k) as [<-|]
        end;
      try discriminate Hk;
      injection Hk as <-; eexists; (split; [vm_compute|]; reflexivity).
  - intros n o Hn.
    apply elem_of_list_to_map_2 in Hn.
    repeat (apply elem_of_cons in Hn as [Hn | Hn];
            [injection Hn as -> -> |]);
      try (apply elem_of_nil in Hn; contradiction);
      vm_compute; eauto.
Qed.

Lemma exampleStore_id : represents exampleStore 4%positive idNode.
Proof.
  apply (represents_node exampleStore 4%positive
           (mkNode "id"
              (Some (PropertyDefinition ["Shape"; "prototype"; "id"]
                       (Some idAttributes)))
              5%positive)
           [] []); [reflexivity | reflexivity | constructor].
Qed.

Lemma exampleStore_Shape : represents exampleStore 2%positive shapeNode.
Proof.
  apply (represents_node exampleStore 2%positive
           (mkNode "Shape" (Some shapeDefinition) 3%positive)
           [("prototype", 3%positive)]
           [("prototype", Emitter.mkNode "prototype" None [("id", idNode)])]);
    [reflexivity | reflexivity |].
  repeat constructor. cbn.
  apply (represents_node exampleStore 3%positive
           (mkNode "prototype" None 4%positive)
           [("id", 4%positive)] [("id", idNode)]);
    [reflexivity | reflexivity |].
  repeat constructor. exact exampleStore_id.
Qed.

Lemma exampleStore_Opts : represents exampleStore 1%positive optsNode.
Proof.
  apply (represents_node exampleStore 1%positive
           (mkNode "Opts" (Some optsDefinition) 2%positive)
           [] []); [reflexivity | reflexivity | constructor].
Qed.

Lemma exampleStore_tree : representsMap exampleStore 1%positive exampleTree.
Proof.
  exists [("Opts", 1%positive); ("Shape", 2%positive)].
  split; [reflexivity|].
  repeat constructor.
  - exact exampleStore_Opts.
  - exact exampleStore_Shape.
Qed.

Lemma getOrCreateNodeAtPath_found_witness :
  ∃ n s',
    getOrCreateNodeAtPath 1%positive ["Shape"; "prototype"; "area"]
      exampleStore = (Ok n, s')
    ∧ getNodeAtPath 1%positive ["Shape"; "prototype"; "area"] s'
      = (Ok (Some n), s')
    ∧ getOrCreateNodeAtPath 1%positive ["Shape"; "prototype"; "area"] s'
      = (Ok n, s').
Proof.
  destruct (getOrCreateNodeAtPath 1%positive ["Shape"; "prototype"; "area"]
              exampleStore) as [r s'] eqn:Hcall.
  assert (r = Ok 5%positive) as -> by (vm_compute in Hcall; congruence).
  exists 5%positive, s'. split; [reflexivity|].
  exact (getOrCreateNodeAtPath_found exampleStore 1%positive
           ["Shape"; "prototype"; "area"] 5%positive s' Hcall).
Defined.

Lemma getOrCreateNodeAtPath_well_formed_witness :
  wellFormedStore exampleStore
  ∧ ∃ n o s',
      getOrCreateNodeAtPath 1%positive ["Shape"; "prototype"; "area"]
        exampleStore = (Ok n, s')
      ∧ wellFormedStore s'
      ∧ nodes s' !! n = Some o
      ∧ last ["Shape"; "prototype"; "area"] = Some (name o).
Proof.
  split; [exact exampleStore_well_formed|].
  apply (getOrCreateNodeAtPath_well_formed exampleStore 1%positive
           ["Shape"; "prototype"; "area"]).
  - exact exampleStore_well_formed.
  - vm_compute. eauto.
  - discriminate.
Defined.

Lemma getNodeAtPath_agrees_witness :
  representsMap exampleStore 1%positive exampleTree
  ∧ (∃ r, getNodeAtPath 1%positive ["Shape"; "prototype"; "id"] exampleStore
          = (Ok r, exampleStore)
          ∧ sameNode exampleStore r
              (Emitter.getNodeAtPath exampleTree
                 ["Shape"; "prototype"; "id"])).
Proof.
  split; [exact exampleStore_tree|].
  apply (getNodeAtPath_agrees exampleStore 1%positive exampleTree
           ["Shape"; "prototype"; "id"]).
  exact exampleStore_tree.
Defined.

Lemma getPropTypeFromInterface_answers_witness :
  getPropTypeFromInterface 2%positive "id" exampleStore
  = (Ok (mkPropType (Some (t_name "string")) true), exampleStore)
  ∧ getPropTypeFromInterface 2%positive "area" exampleStore
    = (Ok (mkPropType None false), exampleStore)
  ∧ getPropTypeFromInterface 1%positive "size" exampleStore
    = (Ok (mkPropType (Some (t_name "number")) false), exampleStore)
  ∧ getPropTypeFromInterface 1%positive "area" exampleStore
    = (Throw (AssertionError ""), exampleStore).
Proof.
  split; [|split; [|split]].
  - exact (proj1 (getPropTypeFromInterface_answers exampleStore 2%positive
                    shapeNode shapeDefinition shapeAttributes "id"
                    exampleStore_Shape eq_refl eq_refl) eq_refl).
  - exact (proj1 (getPropTypeFromInterface_answers exampleStore 2%positive
                    shapeNode shapeDefinition shapeAttributes "area"
                    exampleStore_Shape eq_refl eq_refl) eq_refl).
  - exact (proj2 (getPropTypeFromInterface_answers exampleStore 1%positive
                    optsNode optsDefinition optsAttributes "size"
                    exampleStore_Opts eq_refl eq_refl) eq_refl _ eq_refl).
  - exact (proj2 (getPropTypeFromInterface_answers exampleStore 1%positive
                    optsNode optsDefinition optsAttributes "area"
                    exampleStore_Opts eq_refl eq_refl) eq_refl _ eq_refl).
Defined.

Lemma getMethodTypesFromInterface_numbers_parameters_witness :
  getMethodTypesFromInterface 1%positive "cb" exampleStore
  = (Ok (mkMethodTypes
           (Some [("p0", t_name "string"); ("p1", t_name "number")])
           (Some (t_name "boolean"))), exampleStore).
Proof.
  exact (getMethodTypesFromInterface_numbers_parameters exampleStore
           1%positive
           (mkNode "Opts" (Some optsDefinition) 2%positive)
           optsDefinition optsAttributes
           [ mkPropEntry "size" (t_name "number") None;
             mkPropEntry "cb"
               (FunctionType [t_name "string"; t_name "number"]
                  (Some (t_name "boolean")))
               None ]
           "cb"
           (mkPropEntry "cb"
              (FunctionType [t_name "string"; t_name "number"]
                 (Some (t_name "boolean")))
              None)
           [t_name "string"; t_name "number"] (Some (t_name "boolean"))
           eq_refl eq_refl eq_refl eq_refl eq_refl eq_refl eq_refl).
Defined.

End TreeUtilsExtra.

(** ** Further properties of the emitter *)

Module EmitterExtra.
Import Emitter EmitterSpec EffFacts WriterFacts EmitterFacts.

(** *** One emission, two writers *)

Section Simulation.
Context {W1 W2 : Type} `{Writer W1} `{Writer W2}.
Context (h : W1 → W2) `{!WriterMorphism h}.
Variable generateType : TypeArg → string.
Variable typeText : DType → string.

Lemma simulates_ret {A} (a : A) : simulates h (eret a) (eret a).
Proof. intros s. reflexivity. Qed.

Lemma simulates_throw {A} (e : Error) :
  simulates h (A:=A) (ethrow e) (ethrow e).
Proof. intros s. reflexivity. Qed.

Lemma simulates_bind {A B} (m1 : M A) (m2 : M A) (f1 : A → M B)
  (f2 : A → M B) :
  simulates h m1 m2 → (∀ a, simulates h (f1 a) (f2 a)) →
  simulates h (ebind m1 f1) (ebind m2 f2).
Proof.
  intros Hm Hf s. unfold ebind. rewrite Hm.
  destruct (m1 s) as [[a|e] s1]; cbn [fst snd]; [apply Hf | reflexivity].
Qed.

Lemma simulates_forEach {A} (body1 : A → M unit) (body2 : A → M unit)
  (xs : list A) :
  (∀ x, simulates h (body1 x) (body2 x)) →
  simulates h (forEach body1 xs) (forEach body2 xs).
Proof.
  intros Hbody. induction xs as [|x xs IH]; cbn [forEach].
  - apply simulates_ret.
  - apply simulates_bind; [apply Hbody | intros _; exact IH].
Qed.

Lemma simulates_forEachAcc {A Acc} (body1 : Acc → A → M Acc)
  (body2 : Acc → A → M Acc) (xs : list A) :
  (∀ acc x, simulates h (body1 acc x) (body2 acc x)) →
  ∀ acc, simulates h (forEachAcc body1 acc xs) (forEachAcc body2 acc xs).
Proof.
  intros Hbody. induction xs as [|x xs IH]; intros acc; cbn [forEachAcc].
  - apply simulates_ret.
  - apply simulates_bind; [apply Hbody | intros acc'; apply IH].
Qed.

Lemma simulates_level : simulates h writer_level writer_level.
Proof.
  intros s. unfold writer_level, mapWorld. cbn.
  rewrite (morphism_level (h:=h)). reflexivity.
Qed.

Lemma simulates_increaseLevel :
  simulates h writer_increaseLevel writer_increaseLevel.
Proof.
  intros s. unfold writer_increaseLevel, emodify, mapWorld. cbn.
  rewrite (morphism_increaseLevel (h:=h)). reflexivity.
Qed.

Lemma simulates_decreaseLevel :
  simulates h writer_decreaseLevel writer_decreaseLevel.
Proof.
  intros s. unfold writer_decreaseLevel, emodify, mapWorld. cbn.
  rewrite (morphism_decreaseLevel (h:=h)). reflexivity.
Qed.

Lemma simulates_writeLine (str : string) :
  simulates h (writer_writeLine str) (writer_writeLine str).
Proof.
  intros s. unfold writer_writeLine, mapWorld. cbn.
  rewrite (morphism_writeLine (h:=h)).
  destruct (writeLine str (writer s)); reflexivity.
Qed.

Lemma simulates_console_assert (cond : bool) (message : string) :
  simulates h (console_assert cond message) (console_assert cond message).
Proof. intros s. destruct cond; reflexivity. Qed.

Lemma simulates_console_error (message : string) :
  simulates h (console_error message) (console_error message).
Proof. intros s. reflexivity. Qed.

Lemma simulates_the_definition (node : Node) :
  simulates h (the_definition node) (the_definition node).
Proof.
  unfold the_definition. destruct (definition node);
    [apply simulates_ret | apply simulates_throw].
Qed.

Lemma simulates_the_attributes (d : Defn) :
  simulates h (the_attributes d) (the_attributes d).
Proof.
  unfold the_attributes. destruct (def_attributes d);
    [apply simulates_ret | apply simulates_throw].
Qed.

Create HintDb writers.

Hint Resolve simulates_ret simulates_throw simulates_level
  simulates_increaseLevel simulates_decreaseLevel simulates_writeLine
  simulates_console_assert simulates_console_error
  simulates_the_definition simulates_the_attributes : writers.

(** One step through the two computations, which have the same shape. *)
Ltac writers_step :=
  match goal with
  | |- simulates _ (ebind _ _) (ebind _ _) =>
      apply simulates_bind; [| intros ?]
  | |- simulates _ (match ?x with _ => _ end) _ => destruct x
  | |- simulates _ (let (_, _) := ?x in _) _ => destruct x
  | |- simulates _ (if ?c then _ else _) _ => destruct c
  | |- simulates _ (forEach _ _) (forEach _ _) =>
      apply simulates_forEach; intros ?
  | |- simulates _ (forEachAcc _ _ _) (forEachAcc _ _ _) =>
      apply simulates_forEachAcc; intros ? ?
  | |- simulates _ _ _ => solve [eauto with writers]
  end.

Ltac writers := repeat writers_step.

Lemma simulates_resolvedType (d : Defn) :
  simulates h (resolvedType d) (resolvedType d).
Proof. unfold resolvedType. writers. Qed.

Lemma simulates_writeComments (comments : list string) :
  simulates h (writeComments comments) (writeComments comments).
Proof. unfold writeComments. writers. Qed.

Hint Resolve simulates_resolvedType simulates_writeComments : writers.

Lemma simulates_writeFunctionNode node keyword isConstructor :
  simulates h (writeFunctionNode generateType node keyword isConstructor)
    (writeFunctionNode generateType node keyword isConstructor).
Proof. unfold writeFunctionNode. writers. Qed.

Lemma simulates_writeProperty prefix propNode :
  simulates h (writeProperty generateType prefix propNode)
    (writeProperty generateType prefix propNode).
Proof. unfold writeProperty. writers. Qed.

Lemma simulates_gatherStatic acc child :
  simulates h (gatherStatic acc child) (gatherStatic acc child).
Proof. unfold gatherStatic. writers. Qed.

Lemma simulates_gatherPrototype what acc child :
  simulates h (gatherPrototype what acc child)
    (gatherPrototype what acc child).
Proof. unfold gatherPrototype. writers. Qed.

Lemma simulates_gatherOthers others child :
  simulates h (gatherOthers others child) (gatherOthers others child).
Proof. unfold gatherOthers. writers. Qed.

Lemma simulates_writeTypedefNode root node :
  simulates h (writeTypedefNode generateType root node)
    (writeTypedefNode generateType root node).
Proof. unfold writeTypedefNode. writers. Qed.

Lemma simulates_writeEnumNode node :
  simulates h (writeEnumNode node) (writeEnumNode node).
Proof. unfold writeEnumNode. writers. Qed.

Hint Resolve simulates_writeFunctionNode simulates_writeProperty
  simulates_gatherStatic simulates_gatherPrototype simulates_gatherOthers
  simulates_writeTypedefNode simulates_writeEnumNode : writers.

Section Callback.
Variable writeNodes1 : NodeMap → list Node → M (W:=W1) unit.
Variable writeNodes2 : NodeMap → list Node → M (W:=W2) unit.
Hypothesis simulates_writeNodes :
  ∀ root nodes, simulates h (writeNodes1 root nodes) (writeNodes2 root nodes).

Hint Resolve simulates_writeNodes : writers.

Lemma simulates_writeOthers root node others :
  simulates h (writeOthers writeNodes1 root node others)
    (writeOthers writeNodes2 root node others).
Proof. unfold writeOthers. writers. Qed.

Hint Resolve simulates_writeOthers : writers.

Lemma simulates_writeClassNode root node :
  simulates h (writeClassNode generateType typeText writeNodes1 root node)
    (writeClassNode generateType typeText writeNodes2 root node).
Proof. unfold writeClassNode. writers. Qed.

Lemma simulates_writeInterfaceNode root node :
  simulates h
    (writeInterfaceNode generateType typeText writeNodes1 root node)
    (writeInterfaceNode generateType typeText writeNodes2 root node).
Proof. unfold writeInterfaceNode. writers. Qed.

Hint Resolve simulates_writeClassNode simulates_writeInterfaceNode
  : writers.

Lemma simulates_writeNodeBody root node :
  simulates h (writeNodeBody generateType typeText writeNodes1 root node)
    (writeNodeBody generateType typeText writeNodes2 root node).
Proof. unfold writeNodeBody. writers. Qed.

End Callback.

Lemma simulates_writeNodeBounded (bound : nat) :
  ∀ root node,
    simulates h (writeNodeBounded generateType typeText bound root node)
      (writeNodeBounded generateType typeText bound root node).
Proof.
  induction bound as [|bound IH]; intros root node; cbn [writeNodeBounded].
  - apply simulates_throw.
  - apply simulates_writeNodeBody. intros r nodes.
    apply simulates_forEach. intros c. apply IH.
Qed.

Lemma simulates_writeNodes root nodes :
  simulates h (writeNodes generateType typeText root nodes)
    (writeNodes generateType typeText root nodes).
Proof.
  apply simulates_forEach. intros c. apply simulates_writeNodeBounded.
Qed.

End Simulation.

Lemma append_assoc (a b c : string) : a +:+ (b +:+ c) = (a +:+ b) +:+ c.
Proof.
  induction a as [|x a IH]; [reflexivity|].
  change (String x (a +:+ (b +:+ c)) = String x ((a +:+ b) +:+ c)).
  rewrite IH. reflexivity.
Qed.

Lemma concat_snoc (chunks : list string) (chunk : string) :
  String.concat "" (chunks ++ [chunk]) = String.concat "" chunks +:+ chunk.
Proof.
  induction chunks as [|a [|b chunks] IH].
  - reflexivity.
  - reflexivity.
  - change (a +:+ String.concat "" ((b :: chunks) ++ [chunk])
            = (a +:+ String.concat "" (b :: chunks)) +:+ chunk).
    rewrite IH. apply append_assoc.
Qed.

#[local] Instance received_morphism : WriterMorphism received.
Proof.
  split; try reflexivity.
  intros str [l chunks]. unfold received. cbn.
  unfold StringWriter_writeLine, StreamWriter_writeLine. cbn.
  destruct (getIndentation l) as [indentation|e]; cbn; [|reflexivity].
  rewrite concat_snoc. reflexivity.
Qed.

#[local] Instance after_morphism (earlier : list string) :
  WriterMorphism (after earlier).
Proof.
  split; try reflexivity.
  intros str [l chunks]. unfold after. cbn.
  unfold StreamWriter_writeLine. cbn.
  destruct (getIndentation l) as [indentation|e]; cbn; [|reflexivity].
  rewrite app_assoc. reflexivity.
Qed.

(** X16.  The two entry points emit the same text.  The string
    [generateTypeDefinitions] returns is the concatenation of the chunks
    [writeTypeDefinitions] writes to an empty stream, both fail with the
    same exception and log the same lines; and on a stream that already
    holds chunks, [writeTypeDefinitions] writes the same chunks after
    them. *)
Theorem generateTypeDefinitions_is_the_stream
  (generateType : TypeArg → string) (typeText : DType → string)
  (definitionRoot : NodeMap) :
  generateTypeDefinitions generateType typeText definitionRoot
  = (match fst (writeTypeDefinitions generateType typeText []
                  definitionRoot) with
     | Ok _ =>
         Ok (String.concat ""
               (stream (writer (snd (writeTypeDefinitions generateType
                                       typeText [] definitionRoot)))))
     | Throw e => Throw e
     end,
     mapWorld received
       (snd (writeTypeDefinitions generateType typeText []
               definitionRoot)))
  ∧ ∀ earlier,
      writeTypeDefinitions generateType typeText earlier definitionRoot
      = (fst (writeTypeDefinitions generateType typeText []
                definitionRoot),
         mapWorld (after earlier)
           (snd (writeTypeDefinitions generateType typeText []
                   definitionRoot))).
Proof.
  split.
  - unfold generateTypeDefinitions, writeTypeDefinitions.
    pose proof (simulates_writeNodes received generateType typeText
                  definitionRoot (dict_values definitionRoot)
                  (mkWorld (newStreamWriter []) [])) as Hsim.
    change (mapWorld received (mkWorld (newStreamWriter []) []))
      with (mkWorld newStringWriter []) in Hsim.
    rewrite Hsim.
    destruct (writeNodes generateType typeText definitionRoot
                (dict_values definitionRoot)
                (mkWorld (newStreamWriter []) [])) as [[[]|e] s];
      reflexivity.
  - intros earlier. unfold writeTypeDefinitions.
    pose proof (simulates_writeNodes (after earlier) generateType typeText
                  definitionRoot (dict_values definitionRoot)
                  (mkWorld (newStreamWriter []) [])) as Hsim.
    unfold mapWorld at 1 in Hsim. cbn [writer console] in Hsim.
    unfold after at 1 in Hsim. cbn [st_level stream newStreamWriter] in Hsim.
    rewrite app_nil_r in Hsim. exact Hsim.
Qed.

(** *** Failures of an emission *)

Section Failures.
Context {W : Type} `{WriterLaws W}.
Variable generateType : TypeArg → string.
Variable typeText : DType → string.

Lemma typeErrors_ret {A} (b : Z) (a : A) : typeErrorsAbove b (eret a).
Proof. intros s e s' _ Hrun. discriminate Hrun. Qed.

Lemma typeErrors_throw {A} (b : Z) (message : string) :
  typeErrorsAbove (A:=A) b (ethrow (TypeError message)).
Proof. intros s e s' _ [= <- _]. exact I. Qed.

Lemma typeErrors_bind_run {A B} (b k : Z) (m : M A) (f : A → M B) :
  typeErrorsAbove b m → shifts k m →
  (∀ a s s1, m s = (Ok a, s1) → typeErrorsAbove (b + k) (f a)) →
  typeErrorsAbove b (ebind m f).
Proof.
  intros Hm Hk Hf s e s' Hb Hrun. unfold ebind in Hrun.
  destruct (m s) as [[a|e1] s1] eqn:Hms.
  - apply (Hf a s s1 Hms s1 e s'); [|exact Hrun].
    rewrite (Hk _ _ _ Hms). lia.
  - injection Hrun as <- <-. exact (Hm s e1 s1 Hb Hms).
Qed.

Lemma typeErrors_bind {A B} (b k : Z) (m : M A) (f : A → M B) :
  typeErrorsAbove b m → shifts k m →
  (∀ a, typeErrorsAbove (b + k) (f a)) →
  typeErrorsAbove b (ebind m f).
Proof.
  intros Hm Hk Hf. apply (typeErrors_bind_run b k); auto.
Qed.

Lemma typeErrors_writeLine (b : Z) (str : string) :
  0 ≤ b → typeErrorsAbove b (writer_writeLine str).
Proof.
  intros Hb s e s' Hs Hrun. unfold writer_writeLine in Hrun.
  destruct (writeLine_total str (writer s)) as [w Hw]; [lia|].
  rewrite Hw in Hrun. discriminate Hrun.
Qed.

Lemma typeErrors_modify (b : Z) (f : World W → World W) :
  typeErrorsAbove b (emodify f).
Proof. intros s e s' _ Hrun. discriminate Hrun. Qed.

Lemma typeErrors_level (b : Z) : typeErrorsAbove b writer_level.
Proof. intros s e s' _ Hrun. discriminate Hrun. Qed.

Lemma typeErrors_console_assert (b : Z) cond message :
  typeErrorsAbove b (console_assert cond message).
Proof.
  unfold console_assert. destruct cond;
    [apply typeErrors_ret | apply typeErrors_modify].
Qed.

Lemma typeErrors_console_error (b : Z) message :
  typeErrorsAbove b (console_error message).
Proof. apply typeErrors_modify. Qed.

Lemma typeErrors_the_definition (b : Z) (node : Node) :
  typeErrorsAbove b (the_definition node).
Proof.
  unfold the_definition. destruct (definition node);
    [apply typeErrors_ret | apply typeErrors_throw].
Qed.

Lemma typeErrors_the_attributes (b : Z) (d : Defn) :
  typeErrorsAbove b (the_attributes d).
Proof.
  unfold the_attributes. destruct (def_attributes d);
    [apply typeErrors_ret | apply typeErrors_throw].
Qed.

Lemma typeErrors_forEach {A} (b : Z) (body : A → M unit) (xs : list A) :
  (∀ x, x ∈ xs → typeErrorsAbove b (body x)) →
  (∀ x, shifts 0 (body x)) →
  typeErrorsAbove b (forEach body xs).
Proof.
  intros Hbody Hshift. induction xs as [|x xs IH]; cbn [forEach].
  - apply typeErrors_ret.
  - apply (typeErrors_bind b 0).
    + apply Hbody, list_elem_of_here.
    + apply Hshift.
    + intros _. replace (b + 0) with b by lia.
      apply IH. intros y Hy. apply Hbody, list_elem_of_further, Hy.
Qed.

Lemma typeErrors_forEachAcc {A Acc} (b : Z) (body : Acc → A → M Acc)
  (xs : list A) :
  (∀ acc x, typeErrorsAbove b (body acc x)) →
  (∀ acc x, shifts 0 (body acc x)) →
  ∀ acc, typeErrorsAbove b (forEachAcc body acc xs).
Proof.
  intros Hbody Hshift. induction xs as [|x xs IH]; intros acc;
    cbn [forEachAcc].
  - apply typeErrors_ret.
  - apply (typeErrors_bind b 0); [apply Hbody | apply Hshift |].
    intros acc'. replace (b + 0) with b by lia. apply IH.
Qed.

Create HintDb moves.
Create HintDb failures.

Hint Resolve shifts_ret shifts_throw shifts_writeLine shifts_increaseLevel
  shifts_decreaseLevel shifts_level shifts_console_assert
  shifts_console_error shifts_the_definition shifts_the_attributes
  shifts_resolvedType shifts_writeComments shifts_writeFunctionNode
  shifts_writeProperty shifts_gatherStatic shifts_gatherPrototype
  shifts_gatherOthers shifts_writeTypedefNode shifts_writeEnumNode
  : moves.

Hint Resolve typeErrors_ret typeErrors_throw typeErrors_modify
  typeErrors_level typeErrors_console_assert typeErrors_console_error
  typeErrors_the_definition typeErrors_the_attributes typeErrors_writeLine
  : failures.

Hint Extern 1 (_ ≤ _) => lia : failures.

(** The move of the level by a computation, found step by step. *)
Ltac moves_step :=
  match goal with
  | |- shifts _ (ebind _ _) => eapply shifts_bind; [| intros ? |]
  | |- shifts _ (match ?x with _ => _ end) => destruct x
  | |- shifts _ (let (_, _) := ?x in _) => destruct x
  | |- shifts _ (if ?c then _ else _) => destruct c
  | |- shifts _ (forEach _ _) => apply shifts_forEach; intros ?
  | |- shifts _ (forEachAcc _ _ _) => apply shifts_forEachAcc; intros ? ?
  | |- shifts _ _ => solve [eauto with moves]
  | |- _ = _ => reflexivity
  end.

Ltac moves := repeat moves_step.

(** One step through a computation: at a bind, the move of the level by
    the first part is found first. *)
Ltac failures_step :=
  match goal with
  | |- typeErrorsAbove _ (ebind _ _) =>
      eapply typeErrors_bind; [| solve [moves] | intros ?]
  | |- typeErrorsAbove _ (match ?x with _ => _ end) => destruct x
  | |- typeErrorsAbove _ (let (_, _) := ?x in _) => destruct x
  | |- typeErrorsAbove _ (if ?c then _ else _) => destruct c
  | |- typeErrorsAbove _ (forEach _ _) =>
      apply typeErrors_forEach; [intros ? _ | intros ?; solve [moves]]
  | |- typeErrorsAbove _ (forEachAcc _ _ _) =>
      apply typeErrors_forEachAcc; [intros ? ? | intros ? ?; solve [moves]]
  | |- typeErrorsAbove _ _ => solve [eauto with failures]
  end.

Ltac failures := repeat failures_step.

Lemma typeErrors_resolvedType (b : Z) (d : Defn) :
  typeErrorsAbove b (resolvedType d).
Proof. unfold resolvedType. failures. Qed.

Lemma typeErrors_writeComments (b : Z) (comments : list string) :
  0 ≤ b → typeErrorsAbove b (writeComments comments).
Proof. intros Hb. unfold writeComments. failures. Qed.

Hint Resolve typeErrors_resolvedType typeErrors_writeComments : failures.

Lemma typeErrors_writeFunctionNode (b : Z) node keyword isConstructor :
  0 ≤ b →
  typeErrorsAbove b
    (writeFunctionNode generateType node keyword isConstructor).
Proof. intros Hb. unfold writeFunctionNode. failures. Qed.

Lemma typeErrors_writeProperty (b : Z) prefix propNode :
  0 ≤ b → typeErrorsAbove b (writeProperty generateType prefix propNode).
Proof. intros Hb. unfold writeProperty. failures. Qed.

Lemma typeErrors_gatherStatic (b : Z) acc child :
  typeErrorsAbove b (gatherStatic acc child).
Proof. unfold gatherStatic. failures. Qed.

Lemma typeErrors_gatherPrototype (b : Z) what acc child :
  typeErrorsAbove b (gatherPrototype what acc child).
Proof. unfold gatherPrototype. failures. Qed.

Lemma typeErrors_gatherOthers (b : Z) others child :
  typeErrorsAbove b (gatherOthers others child).
Proof. unfold gatherOthers. failures. Qed.

Hint Resolve typeErrors_writeFunctionNode typeErrors_writeProperty
  typeErrors_gatherStatic typeErrors_gatherPrototype
  typeErrors_gatherOthers : failures.

Lemma typeErrors_writeTypedefNode (b : Z) root node :
  0 ≤ b → typeErrorsAbove b (writeTypedefNode generateType root node).
Proof. intros Hb. unfold writeTypedefNode. failures. Qed.

Lemma typeErrors_writeEnumNode (b : Z) node :
  0 ≤ b → typeErrorsAbove b (writeEnumNode node).
Proof. intros Hb. unfold writeEnumNode. failures. Qed.

Hint Resolve typeErrors_writeTypedefNode typeErrors_writeEnumNode
  : failures.

Section Callback.
Variable node : Node.
Variable writeNodes : NodeMap → list Node → M (W:=W) unit.
Hypothesis shifts_writeNodes : ∀ root nodes, shifts 0 (writeNodes root nodes).
Hypothesis typeErrors_writeNodes :
  ∀ root nodes b,
    0 ≤ b → (∀ c, c ∈ nodes → c ∈ dict_values (children node)) →
    typeErrorsAbove b (writeNodes root nodes).

Hint Resolve shifts_writeNodes : moves.
Hint Resolve typeErrors_writeNodes : failures.

Lemma typeErrors_writeOthers (b : Z) root others :
  0 ≤ b → (∀ c, c ∈ others → c ∈ dict_values (children node)) →
  typeErrorsAbove b (writeOthers writeNodes root node others).
Proof. intros Hb Hothers. unfold writeOthers. failures. Qed.

Hint Resolve typeErrors_writeOthers : failures.
Hint Resolve shifts_writeOthers : moves.

Lemma typeErrors_writeClassNode (b : Z) root :
  0 ≤ b →
  typeErrorsAbove b
    (writeClassNode generateType typeText writeNodes root node).
Proof.
  intros Hb. unfold writeClassNode.
  eapply typeErrors_bind_run; [failures | solve [moves] |].
  intros [[sp sm] others] s s1 Hrun.
  pose proof (gatherStatic_others _ _ _ _ _ _ Hrun) as Hothers.
  failures.
Qed.

Lemma typeErrors_writeInterfaceNode (b : Z) root :
  0 ≤ b →
  typeErrorsAbove b
    (writeInterfaceNode generateType typeText writeNodes root node).
Proof.
  intros Hb. unfold writeInterfaceNode.
  eapply typeErrors_bind; [failures | solve [moves] | intros d].
  eapply typeErrors_bind; [failures | solve [moves] | intros a].
  eapply typeErrors_bind_run; [failures | solve [moves] |].
  intros others s s1 Hrun.
  pose proof (gatherOthers_others _ _ _ _ Hrun) as Hothers.
  failures.
Qed.

Hint Resolve typeErrors_writeClassNode typeErrors_writeInterfaceNode
  : failures.

Lemma typeErrors_writeNodeBody (b : Z) root :
  0 ≤ b →
  typeErrorsAbove b
    (writeNodeBody generateType typeText writeNodes root node).
Proof. intros Hb. unfold writeNodeBody. failures. Qed.

End Callback.

Lemma typeErrors_writeNodeBounded (bound : nat) :
  ∀ root node b,
    0 ≤ b → (height node < bound)%nat →
    typeErrorsAbove b
      (writeNodeBounded generateType typeText bound root node).
Proof.
  induction bound as [|bound IH]; intros root node b Hb Hbound; [lia|].
  cbn [writeNodeBounded]. apply typeErrors_writeNodeBody; [| |exact Hb].
  - intros r nodes. apply shifts_forEach. intros c.
    apply shifts_writeNodeBounded.
  - intros r nodes b' Hb' Hnodes. apply typeErrors_forEach.
    + intros c Hc. apply IH; [exact Hb'|].
      pose proof (height_child node c (Hnodes c Hc)). lia.
    + intros c. apply shifts_writeNodeBounded.
Qed.

End Failures.

(** X17.  Started at a level that is not negative, an emission fails
    with a [TypeError] or not at all: the only failures are reads of a
    property of a missing definition, attributes, parameter list,
    property list or prototype.  There is no [RangeError] from the
    indentation, and the bound of the recursion is not reached. *)
Theorem emission_throws_only_TypeError {W : Type} `{WriterLaws W}
  (generateType : TypeArg → string) (typeText : DType → string)
  (root : NodeMap) (nodes : list Node) (s s' : World W) (e : Error) :
  0 ≤ level (writer s) →
  writeNodes generateType typeText root nodes s = (Throw e, s') →
  isTypeError e.
Proof.
  intros Hlevel Hrun.
  refine (typeErrors_forEach (level (writer s)) _ nodes _ _ s e s'
            (Z.le_refl _) Hrun).
  - intros c _. apply typeErrors_writeNodeBounded; [exact Hlevel | lia].
  - intros c. apply shifts_writeNode.
Qed.

Lemma emission_throws_only_TypeError_witness :
  ∃ e s',
    writeNodes exampleGenerateType exampleTypeText []
      [interfaceWithoutPrototype] freshWorld = (Throw e, s')
    ∧ isTypeError e.
Proof.
  destruct (writeNodes exampleGenerateType exampleTypeText []
              [interfaceWithoutPrototype] freshWorld) as [r s'] eqn:Hrun.
  assert (∃ e, r = Throw e) as [e ->]
    by (vm_compute in Hrun; injection Hrun as <- _; eauto).
  exists e, s'. split; [reflexivity|].
  apply (emission_throws_only_TypeError (W:=StringWriter)
           exampleGenerateType exampleTypeText []
           [interfaceWithoutPrototype] freshWorld s' e);
    [vm_compute; discriminate | exact Hrun].
Defined.

(** *** What is written *)

Section Written.
Variable generateType : TypeArg → string.
Variable typeText : DType → string.

Ltac bind_ret :=
  repeat match goal with
         | |- context [ebind (eret ?a) ?k] =>
             change (ebind (eret a) k) with (k a); cbv beta iota
         end.

Lemma writes_ret (n : nat) : writes (eret tt) n n [].
Proof. intros chunks log. rewrite app_nil_r. reflexivity. Qed.

Lemma writes_bind (n n1 n2 : nat) (out1 out2 : list string)
  (m : M (W:=StreamWriter) unit) (k : unit → M (W:=StreamWriter) unit) :
  writes m n n1 out1 → (∀ u, writes (k u) n1 n2 out2) →
  writes (ebind m k) n n2 (out1 ++ out2).
Proof.
  intros Hm Hk chunks log. unfold ebind. rewrite Hm, Hk, app_assoc.
  reflexivity.
Qed.

Lemma writes_eq (n n' : nat) (out out' : list string)
  (m : M (W:=StreamWriter) unit) :
  writes m n n' out → out = out' → writes m n n' out'.
Proof. intros Hm <-. exact Hm. Qed.

Lemma writes_writeLine (n : nat) (str : string) :
  writes (writer_writeLine str) n n [indented n str].
Proof.
  intros chunks log. unfold writer_writeLine, streaming. cbn.
  unfold StreamWriter_writeLine. cbn.
  rewrite getIndentation_nonneg by lia. rewrite Nat2Z.id. reflexivity.
Qed.

Lemma writes_increaseLevel (n : nat) :
  writes writer_increaseLevel n (S n) [].
Proof.
  intros chunks log. unfold writer_increaseLevel, emodify, streaming. cbn.
  rewrite app_nil_r.
  replace (Z.of_nat n + 1) with (Z.of_nat (S n)) by lia. reflexivity.
Qed.

Lemma writes_decreaseLevel (n : nat) :
  writes writer_decreaseLevel (S n) n [].
Proof.
  intros chunks log. unfold writer_decreaseLevel, emodify, streaming. cbn.
  rewrite app_nil_r.
  replace (Z.of_nat (S n) - 1) with (Z.of_nat n) by lia. reflexivity.
Qed.

Lemma writes_forEach {A} (n : nat) (body : A → M (W:=StreamWriter) unit)
  (out : A → list string) (xs : list A) :
  (∀ x, writes (body x) n n (out x)) →
  writes (forEach body xs) n n (List.concat (map out xs)).
Proof.
  intros Hbody. induction xs as [|x xs IH]; cbn [forEach map List.concat].
  - apply writes_ret.
  - apply (writes_bind n n n); [apply Hbody | intros _; exact IH].
Qed.

Lemma concat_singletons {A B} (f : A → B) (xs : list A) :
  List.concat (map (fun x => [f x]) xs) = map f xs.
Proof. induction xs as [|x xs IH]; cbn; [|rewrite IH]; reflexivity. Qed.

Lemma writes_writeComments (n : nat) (comments : list string) :
  writes (writeComments comments) n n
    (map (indented n) (commentLines comments)).
Proof.
  unfold writeComments. destruct comments as [|c cs].
  - apply writes_ret.
  - change (0 <? Z.of_nat (List.length (c :: cs))) with true. cbv iota.
    eapply writes_eq.
    + eapply writes_bind; [apply writes_writeLine | intros _].
      eapply writes_bind; [|intros _; apply writes_writeLine].
      apply (writes_forEach n _ (fun x => [indented n (" * " +:+ x)])).
      intros x. apply writes_writeLine.
    + rewrite concat_singletons. unfold commentLines.
      rewrite !map_app, map_map. reflexivity.
Qed.

(** X18.  A node whose kind [writeNode] has no case for is skipped: one
    line is logged on the console and nothing is written.  These are the
    nodes classified as a property by their comment, and the bare member
    expressions and object literals whose comment does not classify
    them. *)
Theorem writeNode_skips_property_and_object {W : Type} `{Writer W}
  (root : NodeMap) (node : Node) (d : Defn) (a : Attributes)
  (s : World W) :
  definition node = Some d → def_attributes d = Some a →
  resolvedKind d a ∉ emittedKinds →
  (type a = Some AT_Property
   ∨ type a = None ∧ (def_type d = DT_Property ∨ def_type d = DT_Object))
  ∧ writeNode generateType typeText root node s
    = (Ok tt,
       mkWorld (writer s)
         (console s
          ++ [ErrorLogged
                ("Unexpected definition type " +:+ resolvedKind d a)])).
Proof.
  intros Hd Ha Hkind.
  rewrite (writeNode_dispatch generateType typeText root node d a s Hd Ha).
  unfold resolvedKind in *.
  assert (∀ k : string, k ∈ emittedKinds →
            (match type a with
             | Some t => AnnotationType_value t
             | None => DefinitionType_value (def_type d)
             end) = k → False) as Hnot.
  { intros k Hk Heq. apply Hkind. rewrite Heq. exact Hk. }
  unfold emittedKinds in Hnot.
  destruct (type a) as [[]|]; [..|destruct (def_type d)];
    cbn [AnnotationType_value DefinitionType_value] in *;
    first
      [ solve [ exfalso; eapply Hnot; [|reflexivity];
                repeat first [ apply list_elem_of_here
                             | apply list_elem_of_further ] ]
      | split; [auto | reflexivity] ].
Qed.

(** X19.  The enum of an object literal is written as its comment, the
    line [enum Name {], one line [prop,] for each key of the literal, in
    order and one level deeper, and the line [}]; the level is restored
    and nothing is logged. *)
Theorem writeEnumNode_lines (node : Node) (d : Defn) (a : Attributes)
  (keys : list string) (n : nat) :
  definition node = Some d → def_attributes d = Some a →
  def_props d = Some keys →
  emits (writeEnumNode node) n
    (map (indented n) (commentLines (comments a))
     ++ [indented n ("enum " +:+ name node +:+ " {")]
     ++ map (fun key => indented (S n) (key +:+ ",")) keys
     ++ [indented n "}"]).
Proof.
  intros Hd Ha Hkeys. unfold emits, writeEnumNode.
  rewrite (the_definition_some node d Hd). bind_ret.
  rewrite (the_attributes_some d a Ha).
  assert (def_type d = DT_Object) as ->
    by (destruct d; try discriminate Hkeys; reflexivity).
  change (console_assert
            (String.eqb (DefinitionType_value DT_Object) "object") ?msg)
    with (eret (S:=World StreamWriter) tt).
  bind_ret. rewrite Hkeys.
  eapply writes_eq.
  - eapply writes_bind; [apply writes_writeComments | intros _].
    eapply writes_bind; [apply writes_writeLine | intros _].
    eapply writes_bind; [apply writes_increaseLevel | intros _].
    bind_ret.
    eapply writes_bind; [|intros _].
    { apply (writes_forEach (S n) _
               (fun key => [indented (S n) (key +:+ ",")])).
      intros key. apply writes_writeLine. }
    eapply writes_bind; [apply writes_decreaseLevel | intros _].
    apply writes_writeLine.
  - rewrite concat_singletons. reflexivity.
Qed.

(** X20.  A typedef with attributes is always written, whatever its
    definition.  With properties it becomes an interface: the comment,
    the line [interface Name {], one level deeper each property as
    [name: type;] preceded by its description as a comment when it has
    one, and the line [}].  Without properties it is the comment and the
    one line [type Name = type;]. *)
Theorem writeTypedefNode_lines (root : NodeMap) (node : Node) (d : Defn)
  (a : Attributes) (n : nat) :
  definition node = Some d → def_attributes d = Some a →
  emits (writeTypedefNode generateType root node) n
    (map (indented n) (commentLines (comments a))
     ++ match props a with
        | Some properties =>
            [indented n ("interface " +:+ name node +:+ " {")]
            ++ map (indented (S n))
                 (List.concat (map (propLines generateType) properties))
            ++ [indented n "}"]
        | None =>
            [indented n
               ("type " +:+ name node +:+ " = "
                +:+ generateType (optionalType (typedefType a)) +:+ ";")]
        end).
Proof.
  intros Hd Ha. unfold emits, writeTypedefNode.
  rewrite (the_definition_some node d Hd). bind_ret.
  rewrite (the_attributes_some d a Ha). bind_ret.
  apply (writes_bind n n n); [apply writes_writeComments | intros _].
  destruct (props a) as [properties|]; [|apply writes_writeLine].
  eapply writes_eq.
  - eapply writes_bind; [apply writes_writeLine | intros _].
    eapply writes_bind; [apply writes_increaseLevel | intros _].
    eapply writes_bind; [|intros _].
    { apply (writes_forEach (S n) _
               (fun prop => map (indented (S n))
                              (propLines generateType prop))).
      intros prop. unfold propLines. rewrite map_app.
      apply (writes_bind (S n) (S n) (S n));
        [|intros _; apply writes_writeLine].
      destruct (truthy_string (prop_description prop));
        [apply writes_writeComments | apply writes_ret]. }
    eapply writes_bind; [apply writes_decreaseLevel | intros _].
    apply writes_writeLine.
  - cbn [app]. f_equal. f_equal.
    induction properties as [|prop properties IH]; [reflexivity|].
    cbn [map List.concat]. rewrite map_app, IH. reflexivity.
Qed.

End Written.

Lemma writeNode_skips_property_and_object_witness :
  writeNode exampleGenerateType exampleTypeText [] typedProperty freshWorld
  = (Ok tt,
     mkWorld newStringWriter
       [ErrorLogged "Unexpected definition type property"]).
Proof.
  refine (proj2 (writeNode_skips_property_and_object (W:=StringWriter)
                   exampleGenerateType exampleTypeText [] typedProperty
                   (PropertyDefinition ["shaka"; "version"]
                      (Some (set_propType (Some (NameExpression "number"))
                               (classified AT_Property))))
                   (set_propType (Some (NameExpression "number"))
                      (classified AT_Property))
                   freshWorld eq_refl eq_refl _)).
  vm_compute. intros Hin.
  repeat (apply elem_of_cons in Hin as [Hin | Hin]; [discriminate Hin|]).
  apply elem_of_nil in Hin. exact Hin.
Defined.

Lemma writeEnumNode_lines_witness :
  emits (writeEnumNode enumColor) 1
    [ "  enum Color {" +:+ newline;
      "    RED," +:+ newline;
      "    GREEN," +:+ newline;
      "    BLUE," +:+ newline;
      "  }" +:+ newline ].
Proof.
  exact (writeEnumNode_lines enumColor
           (ObjectDefinition ["Color"] ["RED"; "GREEN"; "BLUE"]
              (Some (classified AT_Enum)))
           (classified AT_Enum) ["RED"; "GREEN"; "BLUE"] 1
           eq_refl eq_refl eq_refl).
Defined.

Lemma writeTypedefNode_lines_witness :
  emits (writeTypedefNode exampleGenerateType [] optionsTypedef) 0
    [ "/**" +:+ newline;
      " * The options." +:+ newline;
      " */" +:+ newline;
      "interface Options {" +:+ newline;
      "  /**" +:+ newline;
      "   * in bytes" +:+ newline;
      "   */" +:+ newline;
      "  size: number;" +:+ newline;
      "  label: string;" +:+ newline;
      "}" +:+ newline ].
Proof.
  exact (writeTypedefNode_lines exampleGenerateType [] optionsTypedef
           (PropertyDefinition ["shaka"; "Options"]
              (Some (set_comments ["The options."]
                       (set_props
                          (Some [ mkPropEntry "size"
                                    (NameExpression "number")
                                    (Some "in bytes");
                                  mkPropEntry "label"
                                    (NameExpression "string") None ])
                          (classified AT_Typedef)))))
           (set_comments ["The options."]
              (set_props
                 (Some [ mkPropEntry "size" (NameExpression "number")
                           (Some "in bytes");
                         mkPropEntry "label" (NameExpression "string")
                           None ])
                 (classified AT_Typedef)))
           0 eq_refl eq_refl).
Defined.



End EmitterExtra.
